(** * The blog generation pipeline of my-portfolio

    A shallow embedding of [scripts/generate_daily_blogs.py] (the batch flow)
    and [scripts/publish_yesterday_git_blog.py] (the single-date flow), and the
    properties of its selector, generation client, response decoder and
    document writer.

    Python [str] values are sequences of Unicode code points: a character is
    its code point (an [N]), a string a list of them.  Functions that both
    scripts define with the same text ([parse_json_response], [slugify],
    [yaml_quote], [write_mdx]) are embedded once; what differs lives in the
    modules [Batch] and [Publish]. *)

From Stdlib Require Import ZArith NArith List Ascii String Bool Lia DecimalString.
From stdpp Require Import base option list gmap sorting.

Set Warnings "-register-all".

(** ** Python strings *)

Abbreviation str := (list N).

(** A literal: the code points of an ASCII string. *)
Definition py (s : string) : str :=
  map N_of_ascii (list_ascii_of_string s).

(** A literal with double quotes inside, written with single quotes. *)
Definition pyq (s : string) : str :=
  map (fun c => if (c =? 39)%N then 34%N else c) (py s).

(** [str.isspace] on one character (CPython's whitespace table). *)
Definition is_space (c : N) : bool :=
  ((9 <=? c) && (c <=? 13) || (28 <=? c) && (c <=? 32)
   || (c =? 133) || (c =? 160) || (c =? 5760)
   || (8192 <=? c) && (c <=? 8202)
   || (c =? 8232) || (c =? 8233) || (c =? 8239) || (c =? 8287)
   || (c =? 12288))%N.

Fixpoint drop_while {A} (p : A -> bool) (s : list A) : list A :=
  match s with
  | [] => []
  | c :: r => if p c then drop_while p r else s
  end.

Definition is_nil {A} (s : list A) : bool :=
  match s with [] => true | _ => false end.

(** Drop the longest suffix of characters that satisfy [p]. *)
Fixpoint drop_while_end {A} (p : A -> bool) (s : list A) : list A :=
  match s with
  | [] => []
  | c :: r =>
      let r' := drop_while_end p r in
      if p c && is_nil r' then [] else c :: r'
  end.

(** [s.strip(chars)], for the set of characters [p]. *)
Definition strip_by (p : N -> bool) (s : str) : str :=
  drop_while_end p (drop_while p s).

(** [s.strip()] *)
Definition strip (s : str) : str := strip_by is_space s.

Definition hyphen : N := 45%N.
Definition is_hyphen (c : N) : bool := (c =? hyphen)%N.

(** The character class [[a-z0-9]]. *)
Definition is_slug_char (c : N) : bool :=
  ((97 <=? c) && (c <=? 122) || (48 <=? c) && (c <=? 57))%N.

(** [re.sub] of the pattern [[^a-z0-9]+] by a hyphen: every maximal run of characters outside
    the class becomes one hyphen.  [in_run] says that the previous character
    was outside the class (its run already produced the hyphen). *)
Fixpoint sub_non_alnum_runs (in_run : bool) (s : str) : str :=
  match s with
  | [] => []
  | c :: r =>
      if is_slug_char c then c :: sub_non_alnum_runs false r
      else if in_run then sub_non_alnum_runs true r
      else hyphen :: sub_non_alnum_runs true r
  end.

(** [x or y] on strings. *)
Definition or_else (x y : str) : str := if is_nil x then y else x.

(** ** The interpreter's library functions taken as parameters

    [str.lower] follows the Unicode case tables, [str(v)] of a value that is
    not a string follows the interpreter's [repr], and whether a float is zero
    follows its rounding; none of them is part of the repository.  A float is
    kept as the text it was read from.  The prompt text is built by
    [build_prompt] in each script; no property below depends on its wording,
    so it is a parameter as well. *)

Inductive json : Type :=
| JNull
| JBool (b : bool)
| JInt (n : Z)
| JFloat (lexeme : str)
| JStr (s : str)
| JArr (items : list json)
| JObj (members : list (str * json)).

(** One commit of the single-date flow. *)
Record Commit : Type := {
  sha : str;
  date : str;
  message : str;
  project : str;
  repo_path : str
}.

Class Runtime := {
  str_lower : str -> str;
  repr : json -> str;
  float_nonzero : str -> bool;
  batch_prompt_text : str -> list (str * json) -> str;
  publish_prompt_text : str -> list Commit -> str
}.

(** ** slugify *)

Section Slug.
Context `{Runtime}.

(** What [slugify] does to the lower-cased text. *)
Definition slug_of_lowered (text : str) : str :=
  let text := strip text in
  let text := sub_non_alnum_runs false text in
  let text := strip_by is_hyphen text in
  or_else (take 80 text) (py "untitled").

Definition slugify (text : str) : str :=
  slug_of_lowered (str_lower text).
End Slug.

(** *** Specification of a slug *)

Fixpoint no_adjacent_hyphens (s : str) : bool :=
  match s with
  | c1 :: r =>
      match r with
      | c2 :: _ => negb (is_hyphen c1 && is_hyphen c2) && no_adjacent_hyphens r
      | [] => true
      end
  | [] => true
  end.

Definition starts_with_hyphen (s : str) : bool :=
  match s with c :: _ => is_hyphen c | [] => false end.

(** Non-empty, at most 80 characters, made of lower-case ASCII letters and
    digits separated by single hyphens, and not starting with a hyphen. *)
Definition slug_ok (s : str) : bool :=
  negb (is_nil s)
  && (length s <=? 80)%nat
  && forallb (fun c => is_slug_char c || is_hyphen c) s
  && negb (starts_with_hyphen s)
  && no_adjacent_hyphens s.


(** ** JSON values as Python sees them *)

(** [d[k] = v] on a dict: a key keeps the place of its first insertion. *)
Fixpoint dict_set (k : str) (v : json) (d : list (str * json)) : list (str * json) :=
  match d with
  | [] => [(k, v)]
  | (k', v') :: r =>
      if decide (k' = k) then (k, v) :: r else (k', v') :: dict_set k v r
  end.

(** [d.get(k)]; [None] is Python's [None]. *)
Fixpoint dict_get (k : str) (d : list (str * json)) : option json :=
  match d with
  | [] => None
  | (k', v) :: r => if decide (k' = k) then Some v else dict_get k r
  end.

Section Truth.
Context `{Runtime}.

(** [bool(v)] *)
Definition truthy (v : json) : bool :=
  match v with
  | JNull => false
  | JBool b => b
  | JInt n => negb (n =? 0)%Z
  | JFloat x => float_nonzero x
  | JStr s => negb (is_nil s)
  | JArr l => negb (is_nil l)
  | JObj d => negb (is_nil d)
  end.

(** [bool(d.get(k))] *)
Definition truthy_get (k : str) (d : list (str * json)) : bool :=
  match dict_get k d with
  | Some v => truthy v
  | None => false
  end.

(** [str(v)] *)
Definition py_str (v : json) : str :=
  match v with
  | JStr s => s
  | _ => repr v
  end.
End Truth.

(** ** json.loads

    The decoder of the standard library ([json.loads] with its defaults: strict
    strings, [NaN] and the infinities accepted, nothing but white space after
    the value). *)

Definition is_json_ws (c : N) : bool :=
  ((c =? 32) || (c =? 9) || (c =? 10) || (c =? 13))%N.

Definition skip_ws (s : str) : str := drop_while is_json_ws s.

Definition is_digit (c : N) : bool := ((48 <=? c) && (c <=? 57))%N.

Definition hex_value (c : N) : option N :=
  if is_digit c then Some (c - 48)%N
  else if ((97 <=? c) && (c <=? 102))%N then Some (c - 87)%N
  else if ((65 <=? c) && (c <=? 70))%N then Some (c - 55)%N
  else None.

Definition hex4 (a b c d : N) : option N :=
  match hex_value a, hex_value b, hex_value c, hex_value d with
  | Some a, Some b, Some c, Some d => Some (((a * 16 + b) * 16 + c) * 16 + d)%N
  | _, _, _, _ => None
  end.

Definition quote : N := 34%N.
Definition backslash : N := 92%N.

(** The character a one-letter escape stands for. *)
Definition unescape (c : N) : option N :=
  if (c =? 34)%N then Some 34%N          (* quote *)
  else if (c =? 92)%N then Some 92%N     (* backslash *)
  else if (c =? 47)%N then Some 47%N     (* slash *)
  else if (c =? 98)%N then Some 8%N      (* b *)
  else if (c =? 102)%N then Some 12%N    (* f *)
  else if (c =? 110)%N then Some 10%N    (* n *)
  else if (c =? 114)%N then Some 13%N    (* r *)
  else if (c =? 116)%N then Some 9%N     (* t *)
  else None.

Definition is_high_surrogate (u : N) : bool := ((55296 <=? u) && (u <=? 56319))%N.
Definition is_low_surrogate (u : N) : bool := ((56320 <=? u) && (u <=? 57343))%N.

(** The low surrogate of a [\uXXXX] escape at the head of [s], and what
    follows it. *)
Definition low_surrogate_escape (s : str) : option (N * str) :=
  match s with
  | b :: u :: a1 :: a2 :: a3 :: a4 :: r =>
      if ((b =? backslash) && (u =? 117))%N then
        match hex4 a1 a2 a3 a4 with
        | Some lo => if is_low_surrogate lo then Some (lo, r) else None
        | None => None
        end
      else None
  | _ => None
  end.

(** The body of a string literal, after its opening quote: the decoded text and
    the input after the closing quote. *)
Fixpoint scanstring (fuel : nat) (s : str) : option (str * str) :=
  match fuel with
  | O => None
  | S fuel =>
      match s with
      | [] => None
      | c :: r =>
          if (c =? quote)%N then Some ([], r)
          else if (c =? backslash)%N then
            match r with
            | [] => None
            | e :: r' =>
                if (e =? 117)%N then
                  match r' with
                  | a1 :: a2 :: a3 :: a4 :: r'' =>
                      match hex4 a1 a2 a3 a4 with
                      | None => None
                      | Some hi =>
                          let '(ch, rest) :=
                            match (if is_high_surrogate hi
                                   then low_surrogate_escape r'' else None) with
                            | Some (lo, rest) =>
                                ((65536 + (hi - 55296) * 1024 + (lo - 56320))%N, rest)
                            | None => (hi, r'')
                            end in
                          match scanstring fuel rest with
                          | Some (v, rest') => Some (ch :: v, rest')
                          | None => None
                          end
                      end
                  | _ => None
                  end
                else
                  match unescape e with
                  | None => None
                  | Some ch =>
                      match scanstring fuel r' with
                      | Some (v, rest') => Some (ch :: v, rest')
                      | None => None
                      end
                  end
            end
          else if (c <? 32)%N then None
          else
            match scanstring fuel r with
            | Some (v, rest') => Some (c :: v, rest')
            | None => None
            end
      end
  end.

Fixpoint take_while {A} (p : A -> bool) (s : list A) : list A :=
  match s with
  | [] => []
  | c :: r => if p c then c :: take_while p r else []
  end.

Fixpoint starts_with (prefix s : str) : bool :=
  match prefix, s with
  | [], _ => true
  | p :: prefix, c :: s => (p =? c)%N && starts_with prefix s
  | _ :: _, [] => false
  end.

Definition digits_value (ds : str) : Z :=
  fold_left (fun acc d => (acc * 10 + Z.of_N (d - 48))%Z) ds 0%Z.

(** The integer part, an optional minus sign and then 0 or a digit from 1 to 9
    followed by digits: sign, digits, rest. *)
Definition match_int_part (s : str) : option (bool * str * str) :=
  let '(neg, s1) :=
    match s with
    | c :: r => if (c =? 45)%N then (true, r) else (false, s)
    | [] => (false, s)
    end in
  match s1 with
  | c :: r =>
      if (c =? 48)%N then Some (neg, [c], r)
      else if is_digit c then Some (neg, c :: take_while is_digit r, drop_while is_digit r)
      else None
  | [] => None
  end.

(** The optional fraction: a dot and at least one digit. *)
Definition match_frac (s : str) : str * str :=
  match s with
  | dot :: d :: r =>
      if ((dot =? 46) && is_digit d)%N
      then (dot :: d :: take_while is_digit r, drop_while is_digit r)
      else ([], s)
  | _ => ([], s)
  end.

(** The optional exponent: e or E, an optional sign, at least one digit. *)
Definition match_exp (s : str) : str * str :=
  match s with
  | e :: r =>
      if ((e =? 101) || (e =? 69))%N then
        match r with
        | sg :: d :: r' =>
            if (((sg =? 43) || (sg =? 45)) && is_digit d)%N
            then (e :: sg :: d :: take_while is_digit r', drop_while is_digit r')
            else if is_digit sg
            then (e :: sg :: take_while is_digit (d :: r'), drop_while is_digit (d :: r'))
            else ([], s)
        | [d] => if is_digit d then ([e; d], []) else ([], s)
        | [] => ([], s)
        end
      else ([], s)
  | [] => ([], s)
  end.

Definition match_number (s : str) : option (json * str) :=
  match match_int_part s with
  | None => None
  | Some (neg, ds, r) =>
      let '(frac, r1) := match_frac r in
      let '(ex, r2) := match_exp r1 in
      if is_nil frac && is_nil ex
      then Some (JInt (if neg then - digits_value ds else digits_value ds)%Z, r2)
      else Some (JFloat ((if neg then [45%N] else []) ++ ds ++ frac ++ ex), r2)
  end.

(** Where the scanner stands: before a value, inside an array after an
    element, or inside an object before a member's key. *)
Inductive scan_mode : Type :=
| AtValue
| AfterElement (seen : list json)
| AtMember (seen : list (str * json)).

Fixpoint scan_once (fuel : nat) (m : scan_mode) (s : str) : option (json * str) :=
  match fuel with
  | O => None
  | S fuel =>
      match m with
      | AtValue =>
          match s with
          | [] => None
          | c :: r =>
              if (c =? quote)%N then
                match scanstring (S (length r)) r with
                | Some (v, rest) => Some (JStr v, rest)
                | None => None
                end
              else if (c =? 123)%N then           (* { *)
                match skip_ws r with
                | c' :: r' =>
                    if (c' =? 125)%N then Some (JObj [], r')
                    else scan_once fuel (AtMember []) (c' :: r')
                | [] => None
                end
              else if (c =? 91)%N then            (* [ *)
                match skip_ws r with
                | c' :: r' =>
                    if (c' =? 93)%N then Some (JArr [], r')
                    else
                      match scan_once fuel AtValue (c' :: r') with
                      | Some (v, rest) => scan_once fuel (AfterElement [v]) rest
                      | None => None
                      end
                | [] => None
                end
              else if starts_with (py "null") s then Some (JNull, drop 4 s)
              else if starts_with (py "true") s then Some (JBool true, drop 4 s)
              else if starts_with (py "false") s then Some (JBool false, drop 5 s)
              else
                match match_number s with
                | Some res => Some res
                | None =>
                    if starts_with (py "NaN") s then Some (JFloat (py "NaN"), drop 3 s)
                    else if starts_with (py "Infinity") s
                    then Some (JFloat (py "Infinity"), drop 8 s)
                    else if starts_with (py "-Infinity") s
                    then Some (JFloat (py "-Infinity"), drop 9 s)
                    else None
                end
          end
      | AfterElement seen =>
          match skip_ws s with
          | c :: r =>
              if (c =? 93)%N then Some (JArr (rev seen), r)
              else if (c =? 44)%N then
                match scan_once fuel AtValue (skip_ws r) with
                | Some (v, rest) => scan_once fuel (AfterElement (v :: seen)) rest
                | None => None
                end
              else None
          | [] => None
          end
      | AtMember seen =>
          match s with
          | c :: r =>
              if (c =? quote)%N then
                match scanstring (S (length r)) r with
                | Some (key, rest) =>
                    match skip_ws rest with
                    | colon :: rest1 =>
                        if (colon =? 58)%N then
                          match scan_once fuel AtValue (skip_ws rest1) with
                          | Some (v, rest2) =>
                              let seen := dict_set key v seen in
                              match skip_ws rest2 with
                              | c' :: r' =>
                                  if (c' =? 125)%N then Some (JObj seen, r')
                                  else if (c' =? 44)%N
                                  then scan_once fuel (AtMember seen) (skip_ws r')
                                  else None
                              | [] => None
                              end
                          | None => None
                          end
                        else None
                    | [] => None
                    end
                | None => None
                end
              else None
          | [] => None
          end
      end
  end.

Inductive exn : Type :=
| JSONDecodeError
| KeyError
| IndexError
| TypeError
| AttributeError
| ValueError
| OSError
| RuntimeError (msg : str).

Inductive result (A : Type) : Type :=
| Ok (a : A)
| Raise (e : exn).
Arguments Ok {A} a.
Arguments Raise {A} e.

Definition json_loads (s : str) : result json :=
  let s := skip_ws s in
  match scan_once (S (length s)) AtValue s with
  | Some (v, rest) => if is_nil (skip_ws rest) then Ok v else Raise JSONDecodeError
  | None => Raise JSONDecodeError
  end.

(** ** The Response Decoder: parse_json_response *)

Definition backtick : N := 96%N.
Definition fence : str := [backtick; backtick; backtick].

(** [re.sub] of the pattern [^```(?:json)?] on a string that starts with the fence:
    the fence goes, and the word [json] right after it when it is there. *)
Definition sub_fence_open (s : str) : str :=
  if starts_with fence s then
    let s := drop 3 s in
    if starts_with (py "json") s then drop 4 s else s
  else s.

(** [re.sub] of the pattern [```$]: scanning from the left, a fence is removed where
    it is followed by the end of the string or by a last line feed. *)
Fixpoint sub_fence_close (s : str) : str :=
  match s with
  | [] => []
  | c :: r =>
      if decide (s = fence) then []
      else if decide (s = fence ++ [10%N]) then [10%N]
      else c :: sub_fence_close r
  end.

(** [s.find(c)]; [None] is -1. *)
Fixpoint find (c : N) (s : str) : option nat :=
  match s with
  | [] => None
  | d :: r => if (d =? c)%N then Some O else S <$> find c r
  end.

(** [s.rfind(c)] *)
Fixpoint rfind (c : N) (s : str) : option nat :=
  match s with
  | [] => None
  | d :: r =>
      match rfind c r with
      | Some i => Some (S i)
      | None => if (d =? c)%N then Some O else None
      end
  end.

Definition lbrace : N := 123%N.
Definition rbrace : N := 125%N.

(** The span from the first opening brace to the last closing brace, when both
    are there in this order. *)
Definition slice_braces (candidate : str) : str :=
  match find lbrace candidate, rfind rbrace candidate with
  | Some start, Some stop =>
      if (start <? stop)%nat
      then take (S stop - start) (drop start candidate)
      else candidate
  | _, _ => candidate
  end.

(** The characters that may follow a backslash in the repair pattern: the
    double quote, the backslash, the slash and the letters b f n r t u. *)
Definition is_escape_letter (c : N) : bool :=
  ((c =? 34) || (c =? 92) || (c =? 47) || (c =? 98) || (c =? 102)
   || (c =? 110) || (c =? 114) || (c =? 116) || (c =? 117))%N.

Definition next_is_escape_letter (s : str) : bool :=
  match s with
  | d :: _ => is_escape_letter d
  | [] => false
  end.

(** The repair pass, a [re.sub] with a look-behind and a look-ahead: a
    backslash that no backslash precedes and no escape letter follows is
    doubled.  [after_backslash] says that the character before [s] in the
    text is a backslash. *)
Fixpoint sub_stray_backslashes (after_backslash : bool) (s : str) : str :=
  match s with
  | [] => []
  | c :: r =>
      if (c =? backslash)%N && negb after_backslash && negb (next_is_escape_letter r)
      then backslash :: backslash :: sub_stray_backslashes true r
      else c :: sub_stray_backslashes (c =? backslash)%N r
  end.

(** The text handed to the first [json.loads]. *)
Definition candidate_of (text : str) : str :=
  let candidate := strip text in
  let candidate :=
    if starts_with fence candidate then
      let candidate := strip (sub_fence_open candidate) in
      strip (sub_fence_close candidate)
    else candidate in
  slice_braces candidate.

Definition parse_json_response (text : str) : result json :=
  let candidate := candidate_of text in
  match json_loads candidate with
  | Ok v => Ok v
  | Raise JSONDecodeError =>
      let candidate := sub_stray_backslashes false candidate in
      json_loads candidate
  | Raise e => Raise e
  end.

(** ** The world the scripts act on

    The blog directory, the remote generation service (its reply to the n-th
    request), the processes started with [subprocess.run] (the outcome of the
    n-th one) and the trace of what was done, in order. *)

Inductive http_outcome : Type :=
| HttpReply (body : str)                     (* [urlopen] returned this body *)
| HttpError (code : Z) (body : option str)   (* HTTPError; no body when reading it fails *)
| UrlError (reason : str).                   (* URLError, with its text *)

Record request : Type := {
  req_prompt : str;
  req_model : str;
  req_api_key : str;
  req_max_tokens : Z;
  req_referer : str
}.

Inductive proc_outcome : Type :=
| Exited (returncode : Z) (stdout stderr : str)
| SpawnFailed.

Inductive event : Type :=
| EvRequest (req : request)
| EvSleep (seconds : Z)
| EvUnlink (name : str)
| EvWrite (name : str) (content : str)
| EvMkdir
| EvRun (cmd : list str).

Record world : Type := {
  files : gmap str str;
  replies : nat -> http_outcome;
  requests : nat;
  procs : nat -> proc_outcome;
  runs : nat;
  trace : list event
}.

Definition log (ev : event) (w : world) : world :=
  {| files := files w; replies := replies w; requests := requests w;
     procs := procs w; runs := runs w; trace := trace w ++ [ev] |}.

Definition set_files (f : gmap str str) (w : world) : world :=
  {| files := f; replies := replies w; requests := requests w;
     procs := procs w; runs := runs w; trace := trace w |}.

Definition next_request (w : world) : world :=
  {| files := files w; replies := replies w; requests := S (requests w);
     procs := procs w; runs := runs w; trace := trace w |}.

Definition next_run (w : world) : world :=
  {| files := files w; replies := replies w; requests := requests w;
     procs := procs w; runs := S (runs w); trace := trace w |}.

(** A computation that reads and changes the world and returns or raises. *)
Definition M (A : Type) : Type := world -> result A * world.

Definition ret {A} (a : A) : M A := fun w => (Ok a, w).
Definition raise {A} (e : exn) : M A := fun w => (Raise e, w).

Definition bind {A B} (m : M A) (k : A -> M B) : M B :=
  fun w =>
    match m w with
    | (Ok a, w') => k a w'
    | (Raise e, w') => (Raise e, w')
    end.

Definition lift {A} (r : result A) : M A := fun w => (r, w).

Notation "'do' x <- m 'then' k" := (bind m (fun x => k))
  (at level 10, x name, m at level 99, k at level 200).
Notation "'run' m 'then' k" := (bind m (fun _ => k))
  (at level 10, m at level 99, k at level 200).

(** [urllib.request.urlopen(req, timeout=120)] *)
Definition urlopen (req : request) : M http_outcome :=
  fun w => (Ok (replies w (requests w)), next_request (log (EvRequest req) w)).

(** [time.sleep(seconds)] *)
Definition sleep (seconds : Z) : M unit :=
  fun w => (Ok tt, log (EvSleep seconds) w).

(** [path.unlink(missing_ok=True)] *)
Definition unlink (name : str) : M unit :=
  fun w => (Ok tt, set_files (delete name (files w)) (log (EvUnlink name) w)).

(** [path.write_text(body)] *)
Definition write_text (name body : str) : M unit :=
  fun w => (Ok tt, set_files (<[name := body]> (files w)) (log (EvWrite name body) w)).

(** [BLOG_DIR.mkdir(parents=True, exist_ok=True)] *)
Definition mkdir_blog_dir : M unit :=
  fun w => (Ok tt, log EvMkdir w).

(** ** The Generation Client: call_openrouter *)

(** [str(n)] of an integer. *)
Definition str_of_Z (n : Z) : str :=
  py (NilEmpty.string_of_int (Z.to_int n)).

(** [v[k]] for a string key. *)
Definition getitem_key (k : str) (v : json) : result json :=
  match v with
  | JObj d =>
      match dict_get k d with
      | Some x => Ok x
      | None => Raise KeyError
      end
  | _ => Raise TypeError
  end.

(** [v[0]] *)
Definition getitem_0 (v : json) : result json :=
  match v with
  | JArr (x :: _) => Ok x
  | JArr [] => Raise IndexError
  | JObj _ => Raise KeyError
  | JStr (c :: _) => Ok (JStr [c])
  | JStr [] => Raise IndexError
  | _ => Raise TypeError
  end.

(** [v.strip()] *)
Definition strip_method (v : json) : result str :=
  match v with
  | JStr s => Ok (strip s)
  | _ => Raise AttributeError
  end.

Definition bind_result {A B} (r : result A) (k : A -> result B) : result B :=
  match r with
  | Ok a => k a
  | Raise e => Raise e
  end.

(** [data["choices"][0]["message"]["content"].strip()] for
    [data = json.loads(resp.read())]. *)
Definition first_completion (body : str) : result str :=
  bind_result (json_loads body) (fun data =>
  bind_result (getitem_key (py "choices") data) (fun choices =>
  bind_result (getitem_0 choices) (fun choice =>
  bind_result (getitem_key (py "message") choice) (fun message =>
  bind_result (getitem_key (py "content") message) strip_method)))).

(** The three failures [call_openrouter] raises. *)
Definition http_failure (code : Z) (body : str) : exn :=
  RuntimeError (py "OpenRouter HTTP " ++ str_of_Z code ++ py ": " ++ body).

Definition connection_failure (reason : str) : exn :=
  RuntimeError (py "OpenRouter connection error: " ++ reason).

Definition retries_exhausted : exn :=
  RuntimeError (py "OpenRouter request failed after retries").

(** [min(30, 2 ** attempt + 2)] *)
Definition backoff (attempt : nat) : Z :=
  Z.min 30 (2 ^ Z.of_nat attempt + 2).

(** The body of [for attempt in range(6)].  [retry_status code attempt] is the
    test under which an HTTP error sleeps and continues; it is what differs
    between the two scripts. *)
Fixpoint attempt_loop (retry_status : Z -> nat -> bool) (req : request)
    (attempts : list nat) : M str :=
  match attempts with
  | [] => raise retries_exhausted
  | attempt :: rest =>
      do outcome <- urlopen req then
      match outcome with
      | HttpReply body => lift (first_completion body)
      | HttpError code body =>
          let body := match body with Some b => take 400 b | None => [] end in
          if retry_status code attempt then
            run sleep (backoff attempt) then attempt_loop retry_status req rest
          else raise (http_failure code body)
      | UrlError reason =>
          if (attempt <? 5)%nat then
            run sleep (backoff attempt) then attempt_loop retry_status req rest
          else raise (connection_failure reason)
      end
  end.

(** ** The Document Writer: yaml_quote and write_mdx *)

(** [s.replace(c, by)] for a one-character [c]. *)
Definition replace_char (c : N) (by_ : str) (s : str) : str :=
  flat_map (fun d => if (d =? c)%N then by_ else [d]) s.

Definition yaml_quote (text : str) : str :=
  replace_char quote [backslash; quote]
    (replace_char backslash [backslash; backslash] text).

(** [sep.join(parts)] *)
Fixpoint join (sep : str) (parts : list str) : str :=
  match parts with
  | [] => []
  | [p] => p
  | p :: rest => p ++ sep ++ join sep rest
  end.

Definition quoted (s : str) : str := [quote] ++ s ++ [quote].

Definition frontmatter (date title excerpt : str) (tags : list str) (author : str)
    : list str :=
  [ py "---";
    py "title: " ++ quoted (yaml_quote title);
    py "date: " ++ quoted date;
    py "excerpt: " ++ quoted (yaml_quote excerpt);
    py "tags: [" ++ join (py ", ") (map (fun tag => quoted (yaml_quote tag)) tags) ++ py "]";
    py "author: " ++ quoted (yaml_quote author);
    py "---";
    [] ].

(** The text [write_mdx] writes. *)
Definition mdx_body (date title excerpt : str) (tags : list str) (author content : str)
    : str :=
  join [10%N] (frontmatter date title excerpt tags author) ++ strip content ++ [10%N].

Definition write_mdx (path date title excerpt : str) (tags : list str)
    (author content : str) : M unit :=
  write_text path (mdx_body date title excerpt tags author content).

(** ** Tag normalization, as both flows do it *)

Section Tags.
Context `{Runtime}.

(** [[str(t).strip() for t in tags if str(t).strip()]] *)
Definition usable_tags (tags : list json) : list str :=
  filter (fun t => is_nil t = false) (map (fun t => strip (py_str t)) tags).

(** From [if not isinstance(tags, list)] to the padding, for the value
    [parsed.get("tags") or []] (the empty list when [None]). *)
Definition normalize_tags (fallback : list str) (tags : option json) : list str :=
  let tags :=
    match tags with
    | Some v => if truthy v then v else JArr []
    | None => JArr []
    end in
  let tags := match tags with JArr l => l | _ => [] end in
  let tags := take 6 (usable_tags tags) in
  if (length tags <? 3)%nat then take 3 (tags ++ fallback) else tags.
End Tags.

(** ** Comparison of strings, as Python compares [str] values *)

Fixpoint str_ltb (a b : str) : bool :=
  match a, b with
  | _, [] => false
  | [], _ :: _ => true
  | x :: a, y :: b => (x <? y)%N || (x =? y)%N && str_ltb a b
  end.

(** [a >= b] *)
Definition str_ge (a b : str) : Prop := str_ltb a b = false.

#[global] Instance str_ge_dec : RelDecision str_ge.
Proof. intros a b. unfold str_ge. apply _. Defined.

(** [sorted(keys, reverse=True)] *)
Definition sorted_reverse (keys : list str) : list str := merge_sort str_ge keys.

(** ** The batch flow: generate_daily_blogs.py *)

Module Batch.

Record Namespace : Type := {
  model : str;
  author : str;
  limit : Z;
  from_date : str;
  to_date : str;
  overwrite : bool;
  dry_run : bool;
  workers : Z
}.

(** [exc.code == 429 and attempt < 5], or [exc.code >= 500 and attempt < 5]. *)
Definition retry_status (code : Z) (attempt : nat) : bool :=
  (code =? 429)%Z && (attempt <? 5)%nat || (500 <=? code)%Z && (attempt <? 5)%nat.

Definition call_openrouter (prompt model api_key : str) : M str :=
  let req := {| req_prompt := prompt; req_model := model; req_api_key := api_key;
                req_max_tokens := 2600; req_referer := py "https://dashwood.dev" |} in
  attempt_loop retry_status req (seq 0 6).

Definition fallback_tags : list str :=
  [py "engineering"; py "software"; py "build-in-public"].

Definition missing_title_content : exn :=
  RuntimeError (py "Model returned missing title/content").

Section Flow.
Context `{Runtime}.

(** [parsed.get(key)], which needs a dict. *)
Definition get (key : str) (parsed : json) : result (option json) :=
  match parsed with
  | JObj d => Ok (dict_get key d)
  | _ => Raise AttributeError
  end.

(** [(parsed.get(key) or "").strip()] *)
Definition stripped_field (key : str) (parsed : json) : result str :=
  bind_result (get key parsed) (fun v =>
    match v with
    | Some v => if truthy v then strip_method v else Ok (strip [])
    | None => Ok (strip [])
    end).

Definition unlink_all (paths : list str) : M unit :=
  fold_right (fun p rest => run unlink p then rest) (ret tt) paths.

(** What [generate_one_post] does with the decoded reply: validation, tag
    normalization and the write. *)
Definition persist_reply (day : str) (args : Namespace) (parsed : json) : M str :=
  do title <- lift (stripped_field (py "title") parsed) then
  do excerpt <- lift (stripped_field (py "excerpt") parsed) then
  do tags <- lift (get (py "tags") parsed) then
  do content <- lift (stripped_field (py "content") parsed) then
  if is_nil title || is_nil content then raise missing_title_content
  else
    let tags := normalize_tags fallback_tags tags in
    let slug := slugify title in
    let out_path := day ++ py "-" ++ slug ++ py ".mdx" in
    run write_mdx out_path day title (or_else excerpt title) tags (author args) content
    then ret out_path.

Definition generate_one_post (day : str) (day_data : list (str * json))
    (args : Namespace) (api_key : str) (existing_for_day : list str) : M str :=
  run (if overwrite args && negb (is_nil existing_for_day)
       then unlink_all existing_for_day else ret tt) then
  let prompt := batch_prompt_text day day_data in
  do raw <- call_openrouter prompt (model args) api_key then
  do parsed <- lift (parse_json_response raw) then
  persist_reply day args parsed.

(** The loop of [main] over the days, newest first. *)
Fixpoint collect_targets (daily : gmap str (list (str * json)))
    (existing : gmap str (list str)) (args : Namespace) (days : list str)
    : list (str * list (str * json)) :=
  match days with
  | [] => []
  | day :: rest =>
      let targets := collect_targets daily existing args rest in
      if negb (is_nil (from_date args)) && str_ltb day (from_date args) then targets
      else if negb (is_nil (to_date args)) && str_ltb (to_date args) day then targets
      else
        match daily !! day with
        | None => targets
        | Some day_data =>
            if truthy_get (py "error") day_data then targets
            else if negb (truthy_get (py "ideas") day_data) then targets
            else if bool_decide (is_Some (existing !! day)) && negb (overwrite args)
            then targets
            else (day, day_data) :: targets
        end
  end.

(** The Target Selector: from [days = sorted(...)] to the cap by [--limit]. *)
Definition select_targets (daily : gmap str (list (str * json)))
    (existing : gmap str (list str)) (args : Namespace)
    : list (str * list (str * json)) :=
  let days := sorted_reverse (map fst (map_to_list daily)) in
  let targets := collect_targets daily existing args days in
  if (0 <? limit args)%Z then take (Z.to_nat (limit args)) targets else targets.

End Flow.
End Batch.

(** ** The single-date flow: publish_yesterday_git_blog.py *)

(** [s.splitlines()]: the line boundaries of [str], a carriage return followed
    by a line feed counting once. *)
Definition is_linebreak (c : N) : bool :=
  ((10 <=? c) && (c <=? 13) || (28 <=? c) && (c <=? 30)
   || (c =? 133) || (c =? 8232) || (c =? 8233))%N.

Fixpoint splitlines_from (line : str) (s : str) : list str :=
  match s with
  | [] => if is_nil line then [] else [line]
  | c :: r =>
      if (c =? 13)%N then
        match r with
        | d :: r' =>
            if (d =? 10)%N then line :: splitlines_from [] r'
            else line :: splitlines_from [] r
        | [] => [line]
        end
      else if is_linebreak c then line :: splitlines_from [] r
      else splitlines_from (line ++ [c]) r
  end.

Definition splitlines (s : str) : list str := splitlines_from [] s.

(** The text before the first [c] and the text after it. *)
Fixpoint split_first (c : N) (s : str) : option (str * str) :=
  match s with
  | [] => None
  | d :: r =>
      if (d =? c)%N then Some ([], r)
      else
        match split_first c r with
        | Some (before, after) => Some (d :: before, after)
        | None => None
        end
  end.

Fixpoint ends_with (suffix s : str) : bool :=
  match s with
  | [] => is_nil suffix
  | _ :: r => bool_decide (s = suffix) || ends_with suffix r
  end.

(** [list.sort(key=...)] is stable: an element goes after those whose key is
    not greater. *)
Fixpoint insert_by_date (c : Commit) (sorted : list Commit) : list Commit :=
  match sorted with
  | [] => [c]
  | d :: rest =>
      if str_ltb (date c) (date d) then c :: sorted
      else d :: insert_by_date c rest
  end.

Definition sort_by_date (commits : list Commit) : list Commit :=
  fold_left (fun sorted c => insert_by_date c sorted) commits [].

Module Publish.

Record Namespace : Type := {
  target_date : str;   (* [resolve_target_date(args.date)] *)
  model : str;
  author : str;
  overwrite : bool;
  dry_run : bool
}.

(** What the script reads from its host and never changes: the credential (if
    any), the repository registry of git-chronicle (or why importing it failed)
    and which repository paths are directories. *)
Record Host : Type := {
  api_key : option str;
  chronicle_repos : str + list (str * str * str);
  is_dir : str -> bool
}.

Definition PROJECT_LABEL_OVERRIDES : list (str * str) :=
  [ (py "AustinsElite (Next.js)", py "AustinsElite (Laravel 12)");
    (py "AustinsElite (Legacy)", py "AustinsElite (Legacy PHP + some Laravel packages)") ].

Fixpoint label_of (overrides : list (str * str)) (name : str) : str :=
  match overrides with
  | [] => name
  | (k, v) :: r => if decide (k = name) then v else label_of r name
  end.

(** [exc.code in (429, 500, 502, 503, 504) and attempt < 5] *)
Definition retry_status (code : Z) (attempt : nat) : bool :=
  ((code =? 429) || (code =? 500) || (code =? 502) || (code =? 503) || (code =? 504))%Z
  && (attempt <? 5)%nat.

Definition call_openrouter (prompt model api_key : str) : M str :=
  let req := {| req_prompt := prompt; req_model := model; req_api_key := api_key;
                req_max_tokens := 2400; req_referer := py "https://dashwood.net" |} in
  attempt_loop retry_status req (seq 0 6).

Definition fallback_tags : list str :=
  [py "engineering"; py "git"; py "build-in-public"].

Definition empty_content : exn :=
  RuntimeError (py "Model returned empty content").

Definition api_key_not_found : exn :=
  RuntimeError (py "OPENROUTER_API_KEY not found in environment or known .env files").

(** [run(cmd)] *)
Definition run_cmd (cmd : list str) : M str :=
  fun w =>
    let w' := next_run (log (EvRun cmd) w) in
    match procs w (runs w) with
    | Exited rc out err =>
        if (rc =? 0)%Z then (Ok out, w')
        else (Raise (RuntimeError (py "Command failed (" ++ str_of_Z rc ++ py "): "
                                   ++ join (py " ") cmd ++ [10%N] ++ strip err)), w')
    | SpawnFailed => (Raise OSError, w')
    end.

Definition load_api_key (host : Host) : M str :=
  match api_key host with
  | Some key => ret key
  | None => raise api_key_not_found
  end.

Definition load_repos (host : Host) : M (list (str * str)) :=
  match chronicle_repos host with
  | inl why => raise (RuntimeError (py "Unable to import git-chronicle REPOS: " ++ why))
  | inr repos =>
      ret (map (fun '(path, name, _) => (path, label_of PROJECT_LABEL_OVERRIDES name)) repos)
  end.

Definition pipe : N := 124%N.

(** One line of the log: skipped ([None]) when blank or without a bar; two
    bars are needed to unpack [line.split("|", 2)]. *)
Definition commit_of_line (project_name repo : str) (line : str)
    : result (option Commit) :=
  if is_nil (strip line) then Ok None
  else
    match split_first pipe line with
    | None => Ok None
    | Some (sha_, rest) =>
        match split_first pipe rest with
        | None => Raise ValueError
        | Some (date_, message_) =>
            Ok (Some {| sha := strip sha_; date := strip date_;
                        message := strip message_; project := project_name;
                        repo_path := repo |})
        end
    end.

Fixpoint commits_of_lines (project_name repo : str) (lines : list str)
    : result (list Commit) :=
  match lines with
  | [] => Ok []
  | line :: rest =>
      bind_result (commit_of_line project_name repo line) (fun c =>
      bind_result (commits_of_lines project_name repo rest) (fun cs =>
      Ok (match c with Some c => c :: cs | None => cs end)))
  end.

Definition git_log_cmd (repo target : str) : list str :=
  [ py "git"; py "-C"; repo; py "log"; py "--no-merges";
    py "--since=" ++ target ++ py "T00:00:00";
    py "--until=" ++ target ++ py "T23:59:59";
    py "--format=%H|%ai|%s" ].

(** The loop of [collect_commits_for_date] over the repositories. *)
Fixpoint collect_from (host : Host) (target : str) (repos : list (str * str))
    : M (list Commit) :=
  match repos with
  | [] => ret []
  | (repo, project_name) :: rest =>
      if negb (is_dir host repo) then collect_from host target rest
      else
        fun w =>
          match run_cmd (git_log_cmd repo target) w with
          | (Raise _, w') => collect_from host target rest w'
          | (Ok out, w') =>
              (do here <- lift (commits_of_lines project_name repo (splitlines out)) then
               do more <- collect_from host target rest then
               ret (here ++ more)) w'
          end
  end.

Definition collect_commits_for_date (host : Host) (target : str) : M (list Commit) :=
  do repos <- load_repos host then
  do commits <- collect_from host target repos then
  ret (sort_by_date commits).

(** The smallest of the names, as [sorted(...)[0]] picks it. *)
Definition first_sorted (names : list str) : option str :=
  fold_right (fun n best =>
                match best with
                | Some b => if str_ltb b n then Some b else Some n
                | None => Some n
                end) None names.

(** [existing_post_for_date]: the first of the files [{date}-*.mdx]. *)
Definition is_post_for (target name : str) : bool :=
  starts_with (target ++ py "-") name
  && ends_with (py ".mdx") name
  && (length target + 5 <=? length name)%nat.

Definition existing_post_for_date (target : str) : M (option str) :=
  fun w =>
    (Ok (first_sorted (filter (fun n => is_post_for target n = true)
                              (map fst (map_to_list (files w))))), w).

Definition git_commit_and_push (path target : str) (dry : bool) : M unit :=
  if dry then ret tt
  else
    run run_cmd [py "git"; py "add"; path] then
    run run_cmd [py "git"; py "commit"; py "-m";
                 py "blog: daily git recap " ++ target; py "--"; path] then
    run run_cmd [py "git"; py "push"] then
    ret tt.

Section Flow.
Context `{Runtime}.

(** [str(parsed.get(key, "")).strip()] *)
Definition stripped_text (key : str) (parsed : json) : result str :=
  match parsed with
  | JObj d =>
      match dict_get key d with
      | Some v => Ok (strip (py_str v))
      | None => Ok (strip [])
      end
  | _ => Raise AttributeError
  end.

(** The title used when the reply has none. *)
Definition placeholder_title (target : str) : str :=
  py "Daily engineering recap " ++ [8212%N] ++ py " " ++ target.

(** What [main] does with the decoded reply: validation, tag normalization,
    the write and the publication. *)
Definition persist_reply (existing : option str) (args : Namespace) (parsed : json)
    : M Z :=
  let target := target_date args in
  do title0 <- lift (stripped_text (py "title") parsed) then
  let title := or_else title0 (placeholder_title target) in
  do excerpt0 <- lift (stripped_text (py "excerpt") parsed) then
  let excerpt := or_else excerpt0 title in
  do content <- lift (stripped_text (py "content") parsed) then
  let tags := match parsed with JObj d => dict_get (py "tags") d | _ => None end in
  if is_nil content then raise empty_content
  else
    let tags := normalize_tags fallback_tags tags in
    run mkdir_blog_dir then
    run (match existing with
         | Some old => if overwrite args then unlink old else ret tt
         | None => ret tt
         end) then
    let out_path := target ++ py "-" ++ slugify title ++ py ".mdx" in
    run write_mdx out_path target title excerpt tags (author args) content then
    run git_commit_and_push out_path target (dry_run args) then
    ret 0%Z.

(** [main], from the look-up of an existing post on; its value is the exit
    status, and an exception that escapes ends the process with a failure. *)
Definition main (host : Host) (args : Namespace) : M Z :=
  let target := target_date args in
  do existing <- existing_post_for_date target then
  if bool_decide (is_Some existing) && negb (overwrite args) then ret 0%Z
  else
    do commits <- collect_commits_for_date host target then
    if is_nil commits then ret 0%Z
    else
      let prompt := publish_prompt_text target commits in
      if dry_run args then ret 0%Z
      else
        do key <- load_api_key host then
        do raw <- call_openrouter prompt (model args) key then
        do parsed <- lift (parse_json_response raw) then
        persist_reply existing args parsed.

End Flow.
End Publish.

(** ** The credential: load_api_key

    Both scripts define [load_api_key] with the same text.  What it reads is
    the environment variable and three files, in a fixed order. *)

Module Keys.

(** One of the [.env] files: absent, there but [read_text] raises, or its
    text. *)
Inductive env_file : Type :=
| Missing
| Unreadable (e : exn)
| Text (text : str).

Record Host : Type := {
  environ_key : option str;      (* [os.environ.get("OPENROUTER_API_KEY")] *)
  tools_env : env_file;          (* /home/ryan/tools/GhostGraph/.env *)
  sites_env : env_file;          (* /home/ryan/sites/GhostGraph/.env *)
  home_env : env_file            (* ~/.env *)
}.

Definition key_prefix : str := py "OPENROUTER_API_KEY=".

Definition equals_sign : N := 61%N.

(** The loop over the lines of one file; [None] when no line starts with the
    prefix.  [line.split("=", 1)[1]] is what follows the first equals sign. *)
Fixpoint key_of_lines (lines : list str) : option (result str) :=
  match lines with
  | [] => None
  | line :: rest =>
      if starts_with key_prefix line then
        Some (match split_first equals_sign line with
              | Some (_, value) => Ok (strip value)
              | None => Raise IndexError
              end)
      else key_of_lines rest
  end.

(** The loop over the files. *)
Fixpoint key_of_files (env_files : list env_file) : result str :=
  match env_files with
  | [] => Raise Publish.api_key_not_found
  | Missing :: rest => key_of_files rest
  | Unreadable e :: _ => Raise e
  | Text text :: rest =>
      match key_of_lines (splitlines text) with
      | Some r => r
      | None => key_of_files rest
      end
  end.

Definition load_api_key (host : Host) : result str :=
  let key := strip (default [] (environ_key host)) in
  if negb (is_nil key) then Ok key
  else key_of_files [tools_env host; sites_env host; home_env host].

End Keys.

(** ** The posts that exist: existing_posts_by_date (batch flow) *)

Module Posts.
Section Existing.

(** In a pattern on [str], the class [\d] is every Unicode decimal digit;
    which characters these are follows the interpreter's Unicode tables. *)
Variable is_decimal : N -> bool.

(** [re.match] of a date of four, two and two digits and a hyphen after it,
    at the start of the name: the date. *)
Definition date_prefix (name : str) : option str :=
  match name with
  | y1 :: y2 :: y3 :: y4 :: h1 :: m1 :: m2 :: h2 :: d1 :: d2 :: h3 :: _ =>
      if is_decimal y1 && is_decimal y2 && is_decimal y3 && is_decimal y4
         && is_hyphen h1 && is_decimal m1 && is_decimal m2
         && is_hyphen h2 && is_decimal d1 && is_decimal d2 && is_hyphen h3
      then Some [y1; y2; y3; y4; h1; m1; m2; h2; d1; d2]
      else None
  | _ => None
  end.

(** [out.setdefault(date, []).append(path)] for a name that starts with a
    date. *)
Definition add_post (out : gmap str (list str)) (name : str) : gmap str (list str) :=
  match date_prefix name with
  | Some day => <[day := default [] (out !! day) ++ [name]]> out
  | None => out
  end.

(** The files [*.mdx] of the blog directory (none when it does not exist), in
    the order the directory lists them, grouped by the date their name starts
    with. *)
Definition existing_posts_by_date : M (gmap str (list str)) :=
  fun w =>
    let names := filter (fun n => ends_with (py ".mdx") n = true)
                        (map fst (map_to_list (files w))) in
    (Ok (fold_left add_post names ∅), w).

End Existing.
End Posts.

(** ** The stack hints of the batch prompt: build_stack_hints *)

Module Hints.

Definition PROJECT_STACK_OVERRIDES : list (str * str) :=
  [ (py "AustinsElite (Legacy)",
     py "Legacy PHP app (custom framework with some Laravel packages), not Next.js.");
    (py "AustinsElite (Next.js)",
     py "Primary AustinsElite production app on Laravel 12 (historical label is stale), not Next.js.") ].

Fixpoint assoc_get (overrides : list (str * str)) (name : str) : option str :=
  match overrides with
  | [] => None
  | (k, v) :: r => if decide (k = name) then Some v else assoc_get r name
  end.

(** [day_data.get("projects", [])[:n]]: a list gives its first items, a string
    its first characters, and no other value can be sliced (a dict raises
    [KeyError] instead from Python 3.12 on). *)
Definition first_projects (n : nat) (day_data : list (str * json)) : result (list json) :=
  match dict_get (py "projects") day_data with
  | None => Ok []
  | Some (JArr l) => Ok (take n l)
  | Some (JStr s) => Ok (map (fun c => JStr [c]) (take n s))
  | Some _ => Raise TypeError
  end.

(** [PROJECT_STACK_OVERRIDES.get(project)]: a list or a dict cannot be a
    key; no number, boolean or [None] equals a key. *)
Definition correction_of (project : json) : result (option str) :=
  match project with
  | JStr name => Ok (assoc_get PROJECT_STACK_OVERRIDES name)
  | JArr _ | JObj _ => Raise TypeError
  | _ => Ok None
  end.

Definition hint_line (project correction : str) : str :=
  py "- " ++ project ++ py ": " ++ correction.

(** The loop that fills [hints]. *)
Fixpoint stack_hints (projects : list json) : result (list str) :=
  match projects with
  | [] => Ok []
  | project :: rest =>
      bind_result (correction_of project) (fun correction =>
      bind_result (stack_hints rest) (fun hints =>
      Ok (match project, correction with
          | JStr name, Some correction =>
              if is_nil correction then hints else hint_line name correction :: hints
          | _, _ => hints
          end)))
  end.

Definition no_overrides : str := py "(No project-specific stack overrides.)".

Definition build_stack_hints (day_data : list (str * json)) : result str :=
  bind_result (first_projects 12 day_data) (fun projects =>
  bind_result (stack_hints projects) (fun hints =>
  Ok (if is_nil hints then no_overrides else join [10%N] hints))).

End Hints.

(** ** The prompt of the single-date flow: build_prompt *)

Module Recap.

(** [Counter(names)]: a name is counted where it first came in. *)
Fixpoint count_add (name : str) (counts : list (str * nat)) : list (str * nat) :=
  match counts with
  | [] => [(name, 1%nat)]
  | (k, n) :: r =>
      if decide (k = name) then (k, S n) :: r else (k, n) :: count_add name r
  end.

Definition Counter (names : list str) : list (str * nat) :=
  fold_left (fun counts name => count_add name counts) names [].

(** [most_common()] is [sorted(items, key=count, reverse=True)], a stable
    sort: an item goes after those that count at least as much. *)
Fixpoint insert_by_count (x : str * nat) (sorted : list (str * nat)) : list (str * nat) :=
  match sorted with
  | [] => [x]
  | y :: rest =>
      if (snd y <? snd x)%nat then x :: sorted else y :: insert_by_count x rest
  end.

Definition most_common (counts : list (str * nat)) : list (str * nat) :=
  fold_left (fun sorted x => insert_by_count x sorted) counts [].

Definition str_of_nat (n : nat) : str := str_of_Z (Z.of_nat n).

Definition by_project (commits : list Commit) : list (str * nat) :=
  Counter (map project commits).

Definition project_lines (commits : list Commit) : list str :=
  map (fun '(name, count) => py "- " ++ name ++ py ": " ++ str_of_nat count ++ py " commits")
      (most_common (by_project commits)).

Definition commit_lines (commits : list Commit) : list str :=
  map (fun c => py "- [" ++ project c ++ py "] " ++ message c
                ++ py " (" ++ take 8 (sha c) ++ py ")")
      (take 120 commits).

Definition stack_note : str :=
  join [10%N]
    [ py "Stack corrections (authoritative):";
      py "- AustinsElite (Legacy) = legacy PHP app with some Laravel packages; not Next.js.";
      pyq "- AustinsElite primary production app = Laravel 12 (historical 'Next.js' label is stale).";
      py "- Mention Next.js only when describing specific frontend modules/routes, not the primary backend stack." ].

Definition build_prompt (target_date : str) (commits : list Commit) : str :=
  join [10%N]
    [ py "Write ONE daily engineering recap blog post for " ++ target_date ++ py ".";
      [];
      py "CONTEXT:";
      py "- This post should summarize all git activity from that date.";
      py "- Audience: technical readers following real build-in-public progress.";
      [];
      py "ACTIVITY SUMMARY:";
      py "- Total commits: " ++ str_of_nat (length commits);
      py "- Projects touched: " ++ str_of_nat (length (by_project commits));
      [];
      py "COMMITS BY PROJECT:";
      join [10%N] (project_lines commits);
      [];
      py "COMMIT LIST:";
      join [10%N] (commit_lines commits);
      [];
      stack_note;
      [];
      py "Return STRICT JSON only (no markdown fences, no extra prose):";
      py "{";
      pyq "  'title': '',";
      pyq "  'excerpt': '',";
      pyq "  'tags': ['', '', ''],";
      pyq "  'content': ''";
      py "}";
      [];
      py "Rules:";
      py "- First-person voice, practical and specific.";
      py "- 600-1200 words.";
      py "- Must include at least 3 markdown section headings (## Heading).";
      py "- Ground claims in commits above; do not invent fake work.";
      py "- If activity spans multiple projects, structure post with clear sub-sections.";
      py "- Excerpt: one sentence, <= 170 chars.";
      py "- Tags: 3-6 concise tags.";
      py "- Ryan only uses Next.js for this blog project (`my-portfolio` / `dashwood.net`).";
      py "- Do NOT use `Next.js` as a tag unless the post is explicitly about this blog project.";
      py "- For all other projects, prefer tags like `Laravel`, `Hybrid Architecture`, `Frontend`, `Full-Stack`, `PHP`.";
      py "- content must be markdown body only (NO frontmatter).";
      [] ].

End Recap.

(** ** The work list of the batch flow, as [main] computes it

    From the reading of the ideas file to the cap by [--limit], for a run
    without [--regen-step1]. *)

Module Ideas.
Section Plan.
Context `{Runtime}.

Definition no_daily_ideas (ideas_path : str) : exn :=
  RuntimeError (py "No daily ideas found in: " ++ ideas_path).

(** The loop over the days: [day_data = daily[day]] is whatever the file
    holds, and [day_data.get] needs a dict. *)
Fixpoint collect_targets (daily : list (str * json)) (existing : gmap str (list str))
    (args : Batch.Namespace) (days : list str) : result (list (str * json)) :=
  match days with
  | [] => Ok []
  | day :: rest =>
      if negb (is_nil (Batch.from_date args)) && str_ltb day (Batch.from_date args)
      then collect_targets daily existing args rest
      else if negb (is_nil (Batch.to_date args)) && str_ltb (Batch.to_date args) day
      then collect_targets daily existing args rest
      else
        match dict_get day daily with
        | None => Raise KeyError
        | Some (JObj day_data) =>
            if truthy_get (py "error") day_data
            then collect_targets daily existing args rest
            else if negb (truthy_get (py "ideas") day_data)
            then collect_targets daily existing args rest
            else if bool_decide (is_Some (existing !! day)) && negb (Batch.overwrite args)
            then collect_targets daily existing args rest
            else
              bind_result (collect_targets daily existing args rest) (fun targets =>
              Ok ((day, JObj day_data) :: targets))
        | Some _ => Raise AttributeError
        end
  end.

(** [ideas] is the text of the ideas file, [None] when it does not exist. *)
Definition targets_of_file (ideas_path : str) (ideas : option str)
    (existing : gmap str (list str)) (args : Batch.Namespace)
    : result (list (str * json)) :=
  match ideas with
  | None => Raise OSError
  | Some text =>
      bind_result (json_loads text) (fun data =>
      match data with
      | JObj members =>
          match default (JObj []) (dict_get (py "daily") members) with
          | JObj daily =>
              if is_nil daily then Raise (no_daily_ideas ideas_path)
              else
                let days := sorted_reverse (map fst daily) in
                bind_result (collect_targets daily existing args days) (fun targets =>
                Ok (if (0 <? Batch.limit args)%Z
                    then take (Z.to_nat (Batch.limit args)) targets
                    else targets))
          | _ => Raise (no_daily_ideas ideas_path)
          end
      | _ => Raise AttributeError
      end)
  end.

End Plan.
End Ideas.

(** ** Vocabulary of the properties *)

(** The two flows, and what each calls. *)
Inductive flow : Type := BatchFlow | PublishFlow.

Definition retry_status_of (f : flow) : Z -> nat -> bool :=
  match f with
  | BatchFlow => Batch.retry_status
  | PublishFlow => Publish.retry_status
  end.

Definition call_openrouter_of (f : flow) : str -> str -> str -> M str :=
  match f with
  | BatchFlow => Batch.call_openrouter
  | PublishFlow => Publish.call_openrouter
  end.

Definition request_of (f : flow) (prompt model api_key : str) : request :=
  match f with
  | BatchFlow =>
      {| req_prompt := prompt; req_model := model; req_api_key := api_key;
         req_max_tokens := 2600; req_referer := py "https://dashwood.dev" |}
  | PublishFlow =>
      {| req_prompt := prompt; req_model := model; req_api_key := api_key;
         req_max_tokens := 2400; req_referer := py "https://dashwood.net" |}
  end.

(** The statuses a flow retries while attempts remain. *)
Definition transient_status (f : flow) (code : Z) : bool :=
  match f with
  | BatchFlow => (code =? 429)%Z || (500 <=? code)%Z
  | PublishFlow =>
      ((code =? 429) || (code =? 500) || (code =? 502) || (code =? 503) || (code =? 504))%Z
  end.

(** A failure the client retries: any transport error, and an HTTP error with
    a transient status. *)
Definition retryable_failure (f : flow) (o : http_outcome) : bool :=
  match o with
  | HttpReply _ => false
  | HttpError code _ => transient_status f code
  | UrlError _ => true
  end.

(** The failure the client raises for one attempt that it does not retry. *)
Definition attempt_failure (o : http_outcome) : option exn :=
  match o with
  | HttpReply _ => None
  | HttpError code body =>
      Some (http_failure code (match body with Some b => take 400 b | None => [] end))
  | UrlError reason => Some (connection_failure reason)
  end.

(** The world after [n] more requests and the events [evs]. *)
Definition advance (n : nat) (evs : list event) (w : world) : world :=
  {| files := files w; replies := replies w; requests := requests w + n;
     procs := procs w; runs := runs w; trace := trace w ++ evs |}.

(** The events of [n] attempts from attempt [k] on, all but the last followed
    by its back-off. *)
Fixpoint retry_trace (req : request) (k n : nat) : list event :=
  match n with
  | O => []
  | S O => [EvRequest req]
  | S n' => EvRequest req :: EvSleep (backoff k) :: retry_trace req (S k) n'
  end.

(** A service that answers every request with the same outcome. *)
Definition world_answering (o : http_outcome) : world :=
  {| files := ∅; replies := fun _ => o; requests := 0;
     procs := fun _ => SpawnFailed; runs := 0; trace := [] |}.

Section Eligibility.
Context `{Runtime}.

(** The day lies within the inclusive bounds that were given (an empty bound
    is no bound). *)
Definition within_bounds (args : Batch.Namespace) (day : str) : bool :=
  (is_nil (Batch.from_date args) || negb (str_ltb day (Batch.from_date args)))
  && (is_nil (Batch.to_date args) || negb (str_ltb (Batch.to_date args) day)).

(** The record needs an article: within the bounds, no error marker, some
    ideas, and no document yet for its date unless overwrite was asked. *)
Definition eligible (args : Batch.Namespace) (existing : gmap str (list str))
    (day : str) (day_data : list (str * json)) : bool :=
  within_bounds args day
  && negb (truthy_get (py "error") day_data)
  && truthy_get (py "ideas") day_data
  && (negb (bool_decide (is_Some (existing !! day))) || Batch.overwrite args).
End Eligibility.

(** The first target is for a later day than the second. *)
Definition newer {A} (a b : str * A) : Prop := str_ltb b.1 a.1 = true.

(** A runtime to evaluate examples with: exact on ASCII text and on [None],
    the booleans and the integers (the examples use nothing else). *)
Definition ascii_lower (s : str) : str :=
  map (fun c => if ((65 <=? c) && (c <=? 90))%N then (c + 32)%N else c) s.

Definition ascii_repr (v : json) : str :=
  match v with
  | JNull => py "None"
  | JBool true => py "True"
  | JBool false => py "False"
  | JInt n => str_of_Z n
  | JFloat x => x
  | JStr s => s
  | JArr _ => py "[...]"
  | JObj _ => py "{...}"
  end.

Definition ascii_runtime : Runtime :=
  {| str_lower := ascii_lower;
     repr := ascii_repr;
     float_nonzero := fun x => negb (forallb (fun c => negb (is_digit c) || (c =? 48)%N) x);
     batch_prompt_text := fun day _ => py "post for " ++ day;
     publish_prompt_text := fun day _ => py "recap of " ++ day |}.

(** ** Vocabulary: tags, decoded replies, effects *)

Definition fallback_tags_of (f : flow) : list str :=
  match f with
  | BatchFlow => Batch.fallback_tags
  | PublishFlow => Publish.fallback_tags
  end.

Section Replies.
Context `{Runtime}.

(** The tags that count: those of a list, trimmed, the blank ones dropped. *)
Definition kept_tags (tags : option json) : list str :=
  match tags with
  | Some (JArr l) => usable_tags l
  | _ => []
  end.


End Replies.

(** The computation raises and leaves the world as it was. *)
Definition fails_unchanged {A} (m : M A) (w : world) : Prop :=
  exists e, m w = (Raise e, w).

Definition is_net_event (e : event) : Prop :=
  match e with
  | EvRequest _ | EvSleep _ => True
  | _ => False
  end.

Definition is_run_event (e : event) : Prop :=
  match e with
  | EvRun _ => True
  | _ => False
  end.

(** ** Sample inputs *)

Definition sample_batch_args (overwrite : bool) : Batch.Namespace :=
  {| Batch.model := py "qwen/qwen3-235b-a22b-2507"; Batch.author := py "Ryan Dashwood";
     Batch.limit := 0; Batch.from_date := []; Batch.to_date := [];
     Batch.overwrite := overwrite; Batch.dry_run := false; Batch.workers := 20 |}.

Definition sample_publish_args (overwrite : bool) : Publish.Namespace :=
  {| Publish.target_date := py "2026-02-19";
     Publish.model := py "qwen/qwen3-235b-a22b-2507";
     Publish.author := py "Ryan Dashwood";
     Publish.overwrite := overwrite; Publish.dry_run := false |}.

(** A world with the given files and replies in which every process exits
    with status 0 and prints [out]. *)
Definition sample_world (fs : gmap str str) (reply : http_outcome) (out : str) : world :=
  {| files := fs; replies := fun _ => reply; requests := 0;
     procs := fun _ => Exited 0 out []; runs := 0; trace := [] |}.

(** A host with a credential and one tracked repository. *)
Definition sample_host : Publish.Host :=
  {| Publish.api_key := Some (py "sk-test");
     Publish.chronicle_repos :=
       inr [(py "/home/ryan/sites/my-portfolio", py "my-portfolio", py "blog")];
     Publish.is_dir := fun _ => true |}.

(** ** Vocabulary: reading a document back

    A reader of the header's encoding: a quoted string ends at the first quote
    that no backslash escapes, and a backslash stands before a quote or a
    backslash that belongs to the text. *)

Fixpoint read_quoted (s : str) : option (str * str) :=
  match s with
  | [] => None
  | c :: r =>
      if (c =? quote)%N then Some ([], r)
      else if (c =? backslash)%N then
        match r with
        | e :: r' =>
            if ((e =? quote) || (e =? backslash))%N then
              match read_quoted r' with
              | Some (v, rest) => Some (e :: v, rest)
              | None => None
              end
            else None
        | [] => None
        end
      else
        match read_quoted r with
        | Some (v, rest) => Some (c :: v, rest)
        | None => None
        end
  end.

Definition expect (lit s : str) : option str :=
  if starts_with lit s then Some (drop (length lit) s) else None.

(** The quoted strings of a bracketed list, after the first one's opening
    quote was seen to be there. *)
Fixpoint read_tags (fuel : nat) (s : str) : option (list str * str) :=
  match fuel with
  | O => None
  | S fuel =>
      match expect [quote] s with
      | None => None
      | Some s =>
          match read_quoted s with
          | None => None
          | Some (tag, rest) =>
              match expect (py "]") rest with
              | Some rest => Some ([tag], rest)
              | None =>
                  match expect (py ", ") rest with
                  | Some rest =>
                      match read_tags fuel rest with
                      | Some (tags, rest) => Some (tag :: tags, rest)
                      | None => None
                      end
                  | None => None
                  end
              end
          end
      end
  end.

Definition read_tag_list (s : str) : option (list str * str) :=
  match expect (py "]") s with
  | Some rest => Some ([], rest)
  | None => read_tags (length s) s
  end.

Record header : Type := {
  h_title : str;
  h_date : str;
  h_excerpt : str;
  h_tags : list str;
  h_author : str
}.

(** The header's fields and the body of a document. *)
Definition read_document (doc : str) : option (header * str) :=
  s ← expect (py "---" ++ [10%N] ++ py "title: " ++ [quote]) doc;
  '(title, s) ← read_quoted s;
  s ← expect ([10%N] ++ py "date: " ++ [quote]) s;
  '(date, s) ← read_quoted s;
  s ← expect ([10%N] ++ py "excerpt: " ++ [quote]) s;
  '(excerpt, s) ← read_quoted s;
  s ← expect ([10%N] ++ py "tags: [") s;
  '(tags, s) ← read_tag_list s;
  s ← expect ([10%N] ++ py "author: " ++ [quote]) s;
  '(author, s) ← read_quoted s;
  s ← expect ([10%N] ++ py "---" ++ [10%N]) s;
  Some ({| h_title := title; h_date := date; h_excerpt := excerpt;
           h_tags := tags; h_author := author |}, s).

(** No quote and no backslash in the text. *)
Definition plain (s : str) : Prop :=
  Forall (fun c => c <> quote /\ c <> backslash) s.

(** ** Vocabulary: the texts given to the decoder *)

(** The text of a JSON object: from its opening to its closing brace. *)
Definition braced (t : str) : Prop :=
  exists mid, t = lbrace :: mid ++ [rbrace].

(** The text between fence markers, each on a line of its own, the opening one
    with or without the word json. *)
Definition fenced (lang t : str) : str :=
  fence ++ lang ++ [10%N] ++ t ++ [10%N] ++ fence.

(** The lexical layer of JSON: outside a string, inside one, or right after
    the backslash of an escape inside one.  [None]: a backslash outside a
    string, or one that no escape letter follows. *)
Inductive lex_state : Type := LOut | LIn | LEsc.

Fixpoint lex (st : lex_state) (s : str) : option lex_state :=
  match s with
  | [] => Some st
  | c :: r =>
      match st with
      | LOut =>
          if (c =? quote)%N then lex LIn r
          else if (c =? backslash)%N then None
          else lex LOut r
      | LIn =>
          if (c =? quote)%N then lex LOut r
          else if (c =? backslash)%N then lex LEsc r
          else lex LIn r
      | LEsc => if is_escape_letter c then lex LIn r else None
      end
  end.

(** Reading [s] up to [rest] went through whole tokens: what was read leaves
    the lexer outside a string. *)
Definition consumes (s rest : str) : Prop :=
  exists consumed, s = consumed ++ rest /\ lex LOut consumed = Some LOut.

(** ** Vocabulary: the client's outcomes *)

(** What one outcome of the service makes of the call when the client does not
    go on: the text of the reply, or the failure of the attempt. *)
Definition outcome_result (o : http_outcome) : result str :=
  match o with
  | HttpReply body => first_completion body
  | HttpError code body =>
      Raise (http_failure code (match body with Some b => take 400 b | None => [] end))
  | UrlError reason => Raise (connection_failure reason)
  end.

(** The seconds slept in a trace. *)
Fixpoint sleep_total (evs : list event) : Z :=
  match evs with
  | [] => 0
  | EvSleep seconds :: rest => seconds + sleep_total rest
  | _ :: rest => sleep_total rest
  end.

(** A service that fails [k] times with [failure] and then answers [final]. *)
Definition world_failing_then (k : nat) (failure final : http_outcome) : world :=
  {| files := ∅; replies := fun n => if (n <? k)%nat then failure else final;
     requests := 0; procs := fun _ => SpawnFailed; runs := 0; trace := [] |}.

(** ** Vocabulary: the credential *)

(** The file gives no key: it is absent, or none of its lines starts with the
    name of the variable and an equals sign. *)
Definition no_key (f : Keys.env_file) : Prop :=
  match f with
  | Keys.Missing => True
  | Keys.Unreadable _ => False
  | Keys.Text text =>
      Forall (fun line => starts_with Keys.key_prefix line = false) (splitlines text)
  end.

(** A host for the examples: no variable in the environment, no first file, a
    second file whose second line names the key, a third that cannot be
    read. *)
Definition sample_key_host : Keys.Host :=
  {| Keys.environ_key := None;
     Keys.tools_env := Keys.Missing;
     Keys.sites_env := Keys.Text (py "DEBUG=1" ++ [10%N] ++ py "OPENROUTER_API_KEY= sk-or-1 "
                                  ++ [10%N]);
     Keys.home_env := Keys.Unreadable OSError |}.

(** ** Vocabulary: the commits of a day *)

(** The first commit is not dated after the second (dates compare as the
    strings they are). *)
Definition date_le (a b : Commit) : Prop := str_ltb (date b) (date a) = false.

(** The commits dated [day], in the order of the list. *)
Definition dated (day : str) (commits : list Commit) : list Commit :=
  filter (fun c => date c = day) commits.

(** One line of [git log --format=%H|%ai|%s]. *)
Definition log_line (entry : str * str * str) : str :=
  let '(sha_, date_, subject) := entry in
  sha_ ++ [Publish.pipe] ++ date_ ++ [Publish.pipe] ++ subject.

(** The output of the command: every line ends with a line feed. *)
Definition log_text (lines : list str) : str :=
  flat_map (fun line => line ++ [10%N]) lines.

Definition one_line (s : str) : Prop := Forall (fun c => is_linebreak c = false) s.

Definition no_bar (s : str) : Prop := Forall (fun c => c <> Publish.pipe) s.

(** The entry is what git prints for a commit: no line break in it, and no
    bar in the hash and in the date. *)
Definition well_formed_entry (entry : str * str * str) : Prop :=
  let '(sha_, date_, subject) := entry in
  one_line sha_ /\ one_line date_ /\ one_line subject /\ no_bar sha_ /\ no_bar date_.

Definition commit_of_entry (project_name repo : str) (entry : str * str * str) : Commit :=
  let '(sha_, date_, subject) := entry in
  {| sha := strip sha_; date := strip date_; message := strip subject;
     project := project_name; repo_path := repo |}.

(** The repositories a log is asked of: those whose path is a directory. *)
Definition asked (host : Publish.Host) (repos : list (str * str)) : list (str * str) :=
  filter (fun r => Publish.is_dir host r.1 = true) repos.

(** The registry as [load_repos] returns it: path and label. *)
Definition labelled (registry : list (str * str * str)) : list (str * str) :=
  map (fun '(path, name, _) =>
         (path, Publish.label_of Publish.PROJECT_LABEL_OVERRIDES name)) registry.

Definition import_failure (why : str) : exn :=
  RuntimeError (py "Unable to import git-chronicle REPOS: " ++ why).

Definition trimmed (s : str) : Prop := strip s = s.

(** What the loop makes of a line of the log of [repo], tracked under the
    label [project_name]. *)
Definition parsed_commit (project_name repo : str) (c : Commit) : Prop :=
  project c = project_name /\ repo_path c = repo
  /\ trimmed (sha c) /\ trimmed (date c) /\ trimmed (message c)
  /\ no_bar (sha c) /\ no_bar (date c).

(** The commit was read from the log of a repository of the registry that is
    a directory, and carries the label the registry's name stands for. *)
Definition from_registry (host : Publish.Host) (c : Commit) : Prop :=
  exists (repos : list (str * str * str)) (path name description : str),
    Publish.chronicle_repos host = inr repos
    /\ (path, name, description) ∈ repos
    /\ Publish.is_dir host path = true
    /\ parsed_commit (Publish.label_of Publish.PROJECT_LABEL_OVERRIDES name) path c.

(** A host with two tracked repositories, the second under a stale label, and
    a world whose first process fails and whose second prints two commits,
    the later one first. *)
Definition two_repo_host : Publish.Host :=
  {| Publish.api_key := Some (py "sk-test");
     Publish.chronicle_repos :=
       inr [ (py "/srv/blog", py "my-portfolio", py "blog");
             (py "/srv/ae", py "AustinsElite (Next.js)", py "app") ];
     Publish.is_dir := fun _ => true |}.

Definition two_repo_world : world :=
  {| files := ∅; replies := fun _ => UrlError []; requests := 0;
     procs := fun n =>
       match n with
       | O => Exited 128 [] (py "fatal: not a git repository")
       | _ => Exited 0 (log_text (map log_line
                          [ (py "4e5f6a7b", py "2026-02-19 10:00:00 -0600", py "feat: b");
                            (py "0a1b2c3d", py "2026-02-19 09:00:00 -0600", py "fix: a") ])) []
       end;
     runs := 0; trace := [] |}.

(** The line is not blank and has one bar exactly. *)
Definition one_bar (line : str) : Prop :=
  exists before after,
    line = before ++ Publish.pipe :: after /\ no_bar before /\ no_bar after.

(** A world in which every process prints one line with a single bar. *)
Definition one_bar_world : world :=
  {| files := ∅; replies := fun _ => UrlError []; requests := 0;
     procs := fun _ => Exited 0 (py "0a1b2c3d|2026-02-19" ++ [10%N]) [];
     runs := 0; trace := [] |}.

(** ** Vocabulary: the single-date flow *)

(** The name a glob for the posts of [target] matches: the date, a hyphen,
    anything, and the extension. *)
Definition post_name (target name : str) : Prop :=
  exists middle, name = target ++ py "-" ++ middle ++ py ".mdx".

(** The process exited with status 0. *)
Definition proc_ok (o : proc_outcome) : bool :=
  match o with
  | Exited rc _ _ => (rc =? 0)%Z
  | SpawnFailed => false
  end.

(** The three commands that publish a post. *)
Definition publish_cmds (path target : str) : list (list str) :=
  [ [py "git"; py "add"; path];
    [py "git"; py "commit"; py "-m"; py "blog: daily git recap " ++ target; py "--"; path];
    [py "git"; py "push"] ].

(** A world in which the first two processes succeed and the third fails. *)
Definition push_fails_world : world :=
  {| files := ∅; replies := fun _ => UrlError []; requests := 0;
     procs := fun n => if (n <? 2)%nat then Exited 0 [] []
                       else Exited 1 [] (py "rejected");
     runs := 0; trace := [] |}.

(** The event is the asking of a log for [target]. *)
Definition is_log_event (target : str) (ev : event) : Prop :=
  exists repo, ev = EvRun (Publish.git_log_cmd repo target).

(** The post the run replaces: the one found, when overwrite was asked. *)
Definition replaced (found : option str) (overwrite : bool) : option str :=
  match found with
  | Some old => if overwrite then Some old else None
  | None => None
  end.

Definition removal (old : option str) : list event :=
  match old with Some name => [EvUnlink name] | None => [] end.

Definition without (old : option str) (fs : gmap str str) : gmap str str :=
  match old with Some name => delete name fs | None => fs end.

(** A world for the single-date flow: the blog directory holds [fs], every
    request is answered with a reply whose completion is [completion] (a JSON
    text without quotes or backslashes of its own), and every process exits
    with status 0, the logs printing one commit. *)
Definition reply_with (completion : str) : http_outcome :=
  HttpReply (pyq "{'choices': [{'message': {'content': '" ++ completion ++ pyq "'}}]}").

Definition publish_world (fs : gmap str str) (completion : str) : world :=
  sample_world fs (reply_with completion)
    (log_text [log_line (py "0a1b2c3d", py "2026-02-19 09:00:00 -0600", py "fix: a")]).

Definition dry_publish_args : Publish.Namespace :=
  {| Publish.target_date := py "2026-02-19";
     Publish.model := py "qwen/qwen3-235b-a22b-2507";
     Publish.author := py "Ryan Dashwood";
     Publish.overwrite := true; Publish.dry_run := true |}.

(** The event is a command or belongs to the exchange with the service. *)
Definition is_outside_event (ev : event) : Prop := is_run_event ev \/ is_net_event ev.

(** A run of the single-date flow with overwrite, in a directory that holds a
    post for the date, the service answering with a title and a content. *)
Definition sample_completion : str :=
  pyq "{\'title\': \'Recap\', \'content\': \'Body\'}".

Definition sample_publish_run : result Z * world :=
  @Publish.main ascii_runtime sample_host (sample_publish_args true)
    (publish_world {[ py "2026-02-19-old.mdx" := py "old" ]} sample_completion).

(** ** Vocabulary: a post as the flows write it *)

Definition filled (s : str) : Prop := s <> [] /\ trimmed s.


(** A run of the batch flow for one day, the service answering with a title
    and a content. *)
Definition sample_batch_run : result str * world :=
  @Batch.generate_one_post ascii_runtime (py "2026-02-19") [] (sample_batch_args false)
    (py "sk-test") [] (publish_world ∅ sample_completion).


(** ** Vocabulary: the posts of a day *)

(** [existing.get(day, [])] *)
Definition posts_of (out : gmap str (list str)) (day : str) : list str :=
  default [] (out !! day).

(** Four digits, a hyphen, two digits, a hyphen and two digits. *)
Definition date_shaped (is_decimal : N -> bool) (day : str) : bool :=
  match day with
  | [y1; y2; y3; y4; h1; m1; m2; h2; d1; d2] =>
      is_decimal y1 && is_decimal y2 && is_decimal y3 && is_decimal y4
      && is_hyphen h1 && is_decimal m1 && is_decimal m2
      && is_hyphen h2 && is_decimal d1 && is_decimal d2
  | _ => false
  end.

(** ** Vocabulary: counting *)



(** ** Vocabulary: the stack hints *)

(** The project has a correction. *)
Definition overridden (name : str) : Prop :=
  name ∈ map fst Hints.PROJECT_STACK_OVERRIDES.

(** A day whose fourteen projects end with the two that have a correction,
    the first of them being the twelfth. *)
Definition sample_projects : list str :=
  repeat (py "my-portfolio") 11 ++ [py "AustinsElite (Legacy)"; py "other";
                                     py "AustinsElite (Next.js)"].

(** ** Vocabulary: the ideas file *)

(** The records of the days as the ideas file holds them: each an object. *)
Definition as_objects (days : list (str * list (str * json))) : list (str * json) :=
  map (fun '(day, day_data) => (day, JObj day_data)) days.

(** An ideas file with two days that have ideas. *)
Definition sample_ideas : str :=
  pyq "{'daily': {'2026-02-18': {'ideas': [1]}, '2026-02-19': {'ideas': [2]}}}".

(** ** Vocabulary: what a step leaves in place *)

Definition is_unlink_event (ev : event) : Prop :=
  match ev with EvUnlink _ => True | _ => False end.

(** One day with ideas. *)
Definition sample_daily : gmap str (list (str * json)) :=
  {[ py "2026-02-19" := [(py "ideas", JArr [JInt 1])] ]}.
(** *** Properties of the string helpers *)

Lemma drop_while_suffix {A} (p : A -> bool) (s : list A) :
  exists k, drop_while p s = drop k s.
Proof.
  induction s as [|c r [k IH]]; simpl.
  - exists 0%nat. reflexivity.
  - destruct (p c).
    + exists (S k). exact IH.
    + exists 0%nat. reflexivity.
Qed.

Lemma drop_while_end_prefix {A} (p : A -> bool) (s : list A) :
  exists k, drop_while_end p s = take k s.
Proof.
  induction s as [|c r [k IH]]; simpl.
  - exists 0%nat. reflexivity.
  - destruct (p c && is_nil (drop_while_end p r)).
    + exists 0%nat. reflexivity.
    + exists (S k). simpl. by rewrite IH.
Qed.

Lemma drop_while_head {A} (p : A -> bool) (s : list A) c r :
  drop_while p s = c :: r -> p c = false.
Proof.
  induction s as [|d s IH]; simpl; [discriminate|].
  destruct (p d) eqn:E; [exact IH|].
  intros [= <- <-]. exact E.
Qed.

Lemma drop_while_end_head {A} (p : A -> bool) (s : list A) c r :
  drop_while_end p s = c :: r -> head s = Some c.
Proof.
  destruct s as [|d s]; simpl; [discriminate|].
  destruct (p d && _); [discriminate|]. by intros [= <- _].
Qed.

Lemma no_adjacent_hyphens_tail c s :
  no_adjacent_hyphens (c :: s) = true -> no_adjacent_hyphens s = true.
Proof.
  destruct s as [|d s]; [reflexivity|].
  change (negb (is_hyphen c && is_hyphen d) && no_adjacent_hyphens (d :: s) = true
          -> no_adjacent_hyphens (d :: s) = true).
  by intros [_ ?]%andb_prop.
Qed.

Lemma no_adjacent_hyphens_drop k s :
  no_adjacent_hyphens s = true -> no_adjacent_hyphens (drop k s) = true.
Proof.
  revert s. induction k as [|k IH]; intros s Hs; [by rewrite drop_0|].
  destruct s as [|c s]; [reflexivity|]. simpl.
  apply IH. by eapply no_adjacent_hyphens_tail.
Qed.

Lemma no_adjacent_hyphens_take k s :
  no_adjacent_hyphens s = true -> no_adjacent_hyphens (take k s) = true.
Proof.
  revert s. induction k as [|k IH]; intros s Hs; [reflexivity|].
  destruct s as [|c s]; [reflexivity|].
  pose proof (IH s (no_adjacent_hyphens_tail _ _ Hs)) as IH'.
  destruct s as [|d s]; [by destruct k|].
  destruct k as [|k]; [reflexivity|].
  change (negb (is_hyphen c && is_hyphen d) && no_adjacent_hyphens (d :: s) = true) in Hs.
  change (negb (is_hyphen c && is_hyphen d)
          && no_adjacent_hyphens (take (S k) (d :: s)) = true).
  apply andb_prop in Hs as [-> _]. exact IH'.
Qed.

Lemma sub_non_alnum_runs_chars b s :
  forallb (fun c => is_slug_char c || is_hyphen c) (sub_non_alnum_runs b s) = true.
Proof.
  revert b. induction s as [|c r IH]; intros b; [reflexivity|]. simpl.
  destruct (is_slug_char c) eqn:E.
  - simpl. by rewrite E, IH.
  - destruct b; [apply IH|]. apply (IH true).
Qed.

Lemma is_slug_char_not_hyphen c : is_slug_char c = true -> is_hyphen c = false.
Proof.
  unfold is_slug_char, is_hyphen, hyphen. intros Hc.
  apply N.eqb_neq. intros ->. discriminate.
Qed.

(** After a run, the output does not start with a hyphen; and it never has
    two hyphens in a row. *)
Lemma sub_non_alnum_runs_shape b s :
  no_adjacent_hyphens (sub_non_alnum_runs b s) = true
  /\ (b = true -> starts_with_hyphen (sub_non_alnum_runs b s) = false).
Proof.
  revert b. induction s as [|c r IH]; intros b; [by split|]. simpl.
  destruct (is_slug_char c) eqn:E.
  - destruct (IH false) as [IH1 _]. split.
    + destruct (sub_non_alnum_runs false r) as [|d t] eqn:Er; [reflexivity|].
      change (negb (is_hyphen c && is_hyphen d) && no_adjacent_hyphens (d :: t) = true).
      by rewrite (is_slug_char_not_hyphen _ E), IH1.
    + intros _. simpl. by apply is_slug_char_not_hyphen.
  - destruct (IH true) as [IH1 IH2]. destruct b; [by split|].
    split; [|discriminate].
    specialize (IH2 eq_refl).
    destruct (sub_non_alnum_runs true r) as [|d t] eqn:Er; [reflexivity|].
    change (negb (is_hyphen hyphen && is_hyphen d) && no_adjacent_hyphens (d :: t) = true).
    simpl in IH2. by rewrite IH2, andb_false_r, IH1.
Qed.

Lemma forallb_take {A} (p : A -> bool) k s :
  forallb p s = true -> forallb p (take k s) = true.
Proof.
  revert s. induction k as [|k IH]; intros [|c s]; simpl; try reflexivity.
  intros [-> ?]%andb_prop. simpl. by apply IH.
Qed.

Lemma forallb_drop {A} (p : A -> bool) k s :
  forallb p s = true -> forallb p (drop k s) = true.
Proof.
  revert s. induction k as [|k IH]; intros [|c s]; simpl; try done.
  intros [_ ?]%andb_prop. by apply IH.
Qed.

Lemma slug_of_lowered_ok (text : str) : slug_ok (slug_of_lowered text) = true.
Proof.
  unfold slug_of_lowered, strip_by.
  set (u := sub_non_alnum_runs false (strip text)).
  destruct (drop_while_suffix is_hyphen u) as [k1 Hk1].
  destruct (drop_while_end_prefix is_hyphen (drop_while is_hyphen u)) as [k2 Hk2].
  set (v := drop_while_end is_hyphen (drop_while is_hyphen u)) in *.
  unfold or_else. destruct (take 80 v) as [|c w] eqn:Ew; [reflexivity|].
  simpl is_nil. cbv iota. rewrite <- Ew.
  assert (Hchars : forallb (fun c => is_slug_char c || is_hyphen c) v = true).
  { rewrite Hk2, Hk1. apply forallb_take, forallb_drop, sub_non_alnum_runs_chars. }
  assert (Hadj : no_adjacent_hyphens v = true).
  { rewrite Hk2, Hk1. apply no_adjacent_hyphens_take, no_adjacent_hyphens_drop.
    apply (sub_non_alnum_runs_shape false). }
  assert (Hhead : starts_with_hyphen (take 80 v) = false).
  { rewrite Ew. simpl. destruct v as [|c' v'] eqn:Ev; [discriminate|].
    injection Ew as -> _.
    apply drop_while_end_head in Ev.
    destruct (drop_while is_hyphen u) as [|d t] eqn:Ed; [discriminate|].
    injection Ev as ->. by eapply drop_while_head. }
  unfold slug_ok. rewrite Hhead.
  rewrite (forallb_take _ _ _ Hchars), (no_adjacent_hyphens_take _ _ Hadj).
  rewrite Ew at 1. simpl negb.
  replace (length (take 80 v) <=? 80)%nat with true; [reflexivity|].
  symmetry. apply Nat.leb_le. rewrite length_take. lia.
Qed.

(** C5. [slugify] is a total function of its argument alone, and for every
    input (the empty string and strings of punctuation included) its result is
    non-empty, at most 80 characters long, made only of lower-case ASCII
    letters, digits and hyphens, does not start with a hyphen and has no two
    hyphens in a row; when nothing is left of the text it is the placeholder
    [untitled]. *)
Theorem slugify_total_and_well_formed `{Runtime} (text : str) :
  slug_ok (slugify text) = true
  /\ (strip_by is_hyphen (sub_non_alnum_runs false (strip (str_lower text))) = []
      -> slugify text = py "untitled").
Proof.
  split; [apply slug_of_lowered_ok|].
  unfold slugify, slug_of_lowered. by intros ->.
Qed.

(** The cut at 80 characters comes after the hyphens at both ends were
    removed, so a slug may end with a hyphen. *)
Example slug_may_end_with_hyphen :
  @slugify ascii_runtime (repeat 97%N 79 ++ py " b") = repeat 97%N 79 ++ py "-".
Proof. vm_compute. reflexivity. Qed.

(** ** The Generation Client *)

Lemma retry_status_of_split (f : flow) (code : Z) (attempt : nat) :
  retry_status_of f code attempt = transient_status f code && (attempt <? 5)%nat.
Proof.
  destruct f; simpl; unfold Batch.retry_status, Publish.retry_status; [|reflexivity].
  destruct (code =? 429)%Z, (500 <=? code)%Z, (attempt <? 5)%nat; reflexivity.
Qed.

Lemma call_openrouter_of_loop (f : flow) (prompt model api_key : str) :
  call_openrouter_of f prompt model api_key
  = attempt_loop (retry_status_of f) (request_of f prompt model api_key) (seq 0 6).
Proof. destruct f; reflexivity. Qed.

Lemma advance_request (req : request) (w : world) :
  next_request (log (EvRequest req) w) = advance 1 [EvRequest req] w.
Proof. unfold next_request, log, advance. simpl. f_equal. lia. Qed.

Lemma advance_retry (req : request) (k n : nat) (w : world) :
  advance (S n) (retry_trace req (S k) (S n))
    (log (EvSleep (backoff k)) (next_request (log (EvRequest req) w)))
  = advance (S (S n)) (retry_trace req k (S (S n))) w.
Proof.
  unfold next_request, log, advance.
  change (retry_trace req k (S (S n)))
    with (EvRequest req :: EvSleep (backoff k) :: retry_trace req (S k) (S n)).
  cbn [files replies requests procs runs trace]. f_equal; [lia|].
  rewrite <- !app_assoc. reflexivity.
Qed.

(** One attempt that fails with a retryable failure while attempts remain:
    the client sleeps for the back-off and goes on with the next attempt. *)
Lemma attempt_loop_retry (f : flow) (req : request) (attempt : nat)
    (rest : list nat) (w : world) :
  retryable_failure f (replies w (requests w)) = true ->
  (attempt < 5)%nat ->
  attempt_loop (retry_status_of f) req (attempt :: rest) w
  = attempt_loop (retry_status_of f) req rest
      (log (EvSleep (backoff attempt)) (next_request (log (EvRequest req) w))).
Proof.
  intros Hfail Hlt. apply Nat.ltb_lt in Hlt.
  cbn [attempt_loop]. unfold bind at 1, urlopen at 1.
  destruct (replies w (requests w)) as [body|code body|reason]; simpl in Hfail.
  - discriminate.
  - rewrite retry_status_of_split, Hfail, Hlt. reflexivity.
  - rewrite Hlt. reflexivity.
Qed.

(** The last attempt (attempt 5) that fails raises that attempt's failure. *)
Lemma attempt_loop_last (f : flow) (req : request) (rest : list nat)
    (w : world) (e : exn) :
  attempt_failure (replies w (requests w)) = Some e ->
  attempt_loop (retry_status_of f) req (5%nat :: rest) w
  = (Raise e, advance 1 [EvRequest req] w).
Proof.
  intros He. cbn [attempt_loop]. unfold bind at 1, urlopen at 1.
  rewrite advance_request.
  destruct (replies w (requests w)) as [body|code body|reason]; simpl in He.
  - discriminate.
  - rewrite retry_status_of_split, andb_false_r. injection He as <-. reflexivity.
  - injection He as <-. reflexivity.
Qed.

Lemma retryable_has_failure (f : flow) (o : http_outcome) :
  retryable_failure f o = true -> exists e, attempt_failure o = Some e.
Proof. destruct o; simpl; [discriminate | eauto | eauto]. Qed.

(** [n] retryable failures in a row, met by the last [n] attempts. *)
Lemma attempt_loop_all_fail (f : flow) (req : request) (n : nat) :
  forall (k : nat) (w : world),
    (k + S n = 6)%nat ->
    (forall i, (i <= n)%nat -> retryable_failure f (replies w (requests w + i)) = true) ->
    exists e,
      attempt_failure (replies w (requests w + n)) = Some e
      /\ attempt_loop (retry_status_of f) req (seq k (S n)) w
         = (Raise e, advance (S n) (retry_trace req k (S n)) w).
Proof.
  induction n as [|n IH]; intros k w Hk Hall.
  - assert (k = 5%nat) as -> by lia.
    destruct (retryable_has_failure f _ (Hall 0%nat (Nat.le_refl _))) as [e He].
    exists e. split; [exact He|].
    rewrite Nat.add_0_r in He. simpl seq. by apply attempt_loop_last.
  - change (seq k (S (S n))) with (k :: seq (S k) (S n)).
    rewrite attempt_loop_retry; [| |lia].
    2:{ specialize (Hall 0%nat). rewrite Nat.add_0_r in Hall. apply Hall. lia. }
    set (w1 := log _ (next_request _)).
    destruct (IH (S k) w1) as [e [He Hrun]]; [lia| |].
    { intros i Hi. subst w1. simpl.
      replace (S (requests w + i)) with (requests w + S i)%nat by lia.
      apply Hall. lia. }
    exists e. split.
    + subst w1. simpl in He.
      by replace (requests w + S n)%nat with (S (requests w + n)) by lia.
    + rewrite Hrun. subst w1. by rewrite advance_retry.
Qed.

Lemma http_failure_not_exhausted (code : Z) (body : str) :
  http_failure code body <> retries_exhausted.
Proof.
  unfold http_failure, retries_exhausted. intros Heq.
  apply (f_equal (fun e => match e with RuntimeError s => s !! 11%nat | _ => None end))
    in Heq.
  vm_compute in Heq. discriminate.
Qed.

Lemma connection_failure_not_exhausted (reason : str) :
  connection_failure reason <> retries_exhausted.
Proof.
  unfold connection_failure, retries_exhausted. intros Heq.
  apply (f_equal (fun e => match e with RuntimeError s => s !! 11%nat | _ => None end))
    in Heq.
  vm_compute in Heq. discriminate.
Qed.

Lemma attempt_failure_not_exhausted (o : http_outcome) (e : exn) :
  attempt_failure o = Some e -> e <> retries_exhausted.
Proof.
  destruct o; simpl; [discriminate| |]; intros [= <-].
  - apply http_failure_not_exhausted.
  - apply connection_failure_not_exhausted.
Qed.

(** C2 (amended). In either flow, when the next six outcomes are retryable
    failures, [call_openrouter] sends exactly six requests, sleeps 3, 4, 6, 10
    and 18 seconds between them, touches no file, and raises the failure of the
    sixth attempt itself (the HTTP failure with its status and body, or the
    connection failure), which is never [retries_exhausted], the error of the line after the loop. *)
Theorem six_failures_raise_the_last_attempt_failure
    (f : flow) (prompt model api_key : str) (w : world) :
  (forall i, (i < 6)%nat ->
     retryable_failure f (replies w (requests w + i)) = true) ->
  exists (e : exn) (w' : world),
    call_openrouter_of f prompt model api_key w = (Raise e, w')
    /\ requests w' = (requests w + 6)%nat
    /\ (let req := EvRequest (request_of f prompt model api_key) in
        trace w' = trace w ++ [req; EvSleep 3; req; EvSleep 4; req; EvSleep 6;
                               req; EvSleep 10; req; EvSleep 18; req])
    /\ files w' = files w
    /\ attempt_failure (replies w (requests w + 5)) = Some e
    /\ e <> retries_exhausted.
Proof.
  intros Hall. rewrite call_openrouter_of_loop.
  destruct (attempt_loop_all_fail f (request_of f prompt model api_key) 5 0 w)
    as [e [He Hrun]]; [lia | intros i Hi; apply Hall; lia |].
  exists e, (advance 6 (retry_trace (request_of f prompt model api_key) 0 6) w).
  split; [exact Hrun|]. split; [reflexivity|]. split; [reflexivity|].
  split; [reflexivity|]. split; [exact He|].
  by eapply attempt_failure_not_exhausted.
Qed.

Lemma six_failures_raise_the_last_attempt_failure_witness :
  exists (e : exn) (w' : world),
    call_openrouter_of PublishFlow (py "prompt") (py "model") (py "key")
      (world_answering (HttpError 503 None)) = (Raise e, w')
    /\ requests w' = 6%nat
    /\ (let req := EvRequest (request_of PublishFlow (py "prompt") (py "model") (py "key")) in
        trace w' = [req; EvSleep 3; req; EvSleep 4; req; EvSleep 6;
                    req; EvSleep 10; req; EvSleep 18; req])
    /\ files w' = ∅
    /\ attempt_failure (HttpError 503 None) = Some e
    /\ e <> retries_exhausted.
Proof.
  apply (six_failures_raise_the_last_attempt_failure PublishFlow
           (py "prompt") (py "model") (py "key") (world_answering (HttpError 503 None))).
  intros i _. reflexivity.
Defined.

(** C2, as stated, fails: after six 503 replies the batch client has sent six
    requests and raises the failure of one attempt (the one it raises at once
    for a status it does not retry), not a failure of another kind. *)
Lemma six_failures_raise_an_attempt_failure :
  ~ (forall (f : flow) (prompt model api_key : str) (w : world),
       (forall i, (i < 6)%nat ->
          retryable_failure f (replies w (requests w + i)) = true) ->
       exists (e : exn) (w' : world),
         call_openrouter_of f prompt model api_key w = (Raise e, w')
         /\ requests w' = (requests w + 6)%nat
         /\ forall o, attempt_failure o <> Some e).
Proof.
  intros Hclaim.
  destruct (Hclaim BatchFlow [] [] [] (world_answering (HttpError 503 None)))
    as [e [w' [Hrun [_ Hdistinct]]]]; [intros i _; reflexivity|].
  apply (Hdistinct (HttpError 503 None)).
  apply (f_equal fst) in Hrun. vm_compute in Hrun.
  injection Hrun as <-. reflexivity.
Qed.

(** C4 (amended). While attempts remain, an HTTP error whose status the flow
    holds transient makes the client sleep for the back-off and go on with the
    next attempt; any other status raises the HTTP failure at once.  The batch
    flow holds 429 and every status from 500 up transient, the single-date flow
    only 429, 500, 502, 503 and 504. *)
Theorem transient_status_is_retried
    (f : flow) (req : request) (attempt : nat) (rest : list nat) (w : world)
    (code : Z) (body : option str) :
  replies w (requests w) = HttpError code body ->
  (attempt < 5)%nat ->
  (transient_status f code = true ->
     attempt_loop (retry_status_of f) req (attempt :: rest) w
     = attempt_loop (retry_status_of f) req rest
         (log (EvSleep (backoff attempt)) (next_request (log (EvRequest req) w))))
  /\ (transient_status f code = false ->
        attempt_loop (retry_status_of f) req (attempt :: rest) w
        = (Raise (http_failure code (match body with Some b => take 400 b | None => [] end)),
           advance 1 [EvRequest req] w))
  /\ (transient_status BatchFlow code = true <-> (code = 429 \/ 500 <= code)%Z)
  /\ (transient_status PublishFlow code = true
      <-> (code = 429 \/ code = 500 \/ code = 502 \/ code = 503 \/ code = 504)%Z).
Proof.
  intros Hreply Hlt. split; [|split; [|split]].
  - intros Ht. apply attempt_loop_retry; [|exact Hlt].
    rewrite Hreply. exact Ht.
  - intros Ht. cbn [attempt_loop]. unfold bind at 1, urlopen at 1.
    rewrite advance_request, Hreply, retry_status_of_split, Ht. reflexivity.
  - simpl. rewrite orb_true_iff, Z.eqb_eq, Z.leb_le. reflexivity.
  - simpl. rewrite !orb_true_iff, !Z.eqb_eq. tauto.
Qed.

Lemma transient_status_is_retried_witness :
  attempt_loop (retry_status_of PublishFlow)
    (request_of PublishFlow (py "prompt") (py "model") (py "key")) [2%nat; 3%nat]
    (world_answering (HttpError 429 None))
  = attempt_loop (retry_status_of PublishFlow)
      (request_of PublishFlow (py "prompt") (py "model") (py "key")) [3%nat]
      (log (EvSleep (backoff 2))
         (next_request
            (log (EvRequest (request_of PublishFlow (py "prompt") (py "model") (py "key")))
               (world_answering (HttpError 429 None))))).
Proof.
  apply (transient_status_is_retried PublishFlow
           (request_of PublishFlow (py "prompt") (py "model") (py "key"))
           2 [3%nat] (world_answering (HttpError 429 None)) 429 None);
    [reflexivity | lia | reflexivity].
Defined.

(** C4, as stated, fails in the single-date flow: 501 is a 5xx status and five
    attempts remain, yet the first attempt raises at once, after one request
    and no sleep. *)
Lemma publish_raises_at_once_on_501 :
  Publish.call_openrouter (py "prompt") (py "model") (py "key")
    (world_answering (HttpError 501 None))
  = (Raise (http_failure 501 []),
     advance 1 [EvRequest (request_of PublishFlow (py "prompt") (py "model") (py "key"))]
       (world_answering (HttpError 501 None))).
Proof. reflexivity. Qed.

(** ** The Target Selector *)

Lemma str_ltb_irrefl (a : str) : str_ltb a a = false.
Proof.
  induction a as [|x a IH]; [reflexivity|]. simpl.
  rewrite N.ltb_irrefl, N.eqb_refl. exact IH.
Qed.

Lemma str_ltb_asym (a b : str) : str_ltb a b = true -> str_ltb b a = false.
Proof.
  revert b. induction a as [|x a IH]; intros [|y b]; simpl; try done.
  destruct (N.ltb_spec x y), (N.ltb_spec y x), (N.eqb_spec x y), (N.eqb_spec y x);
    simpl; try lia; try done.
  apply IH.
Qed.

Lemma str_ltb_trichotomy (a b : str) :
  str_ltb a b = false -> str_ltb b a = false -> a = b.
Proof.
  revert b. induction a as [|x a IH]; intros [|y b]; simpl; try done.
  destruct (N.ltb_spec x y), (N.ltb_spec y x), (N.eqb_spec x y), (N.eqb_spec y x);
    simpl; try lia; try done.
  intros Hab Hba. subst y. f_equal. by apply IH.
Qed.

Lemma str_ge_trans (a b c : str) :
  str_ltb a b = false -> str_ltb b c = false -> str_ltb a c = false.
Proof.
  revert b c. induction a as [|x a IH]; intros [|y b] [|z c]; simpl; try done.
  destruct (N.ltb_spec x y), (N.ltb_spec y z), (N.ltb_spec x z),
    (N.eqb_spec x y), (N.eqb_spec y z), (N.eqb_spec x z);
    simpl; try lia; try done.
  apply IH.
Qed.

#[global] Instance str_ge_transitive : Transitive str_ge.
Proof. intros a b c. apply str_ge_trans. Qed.

#[global] Instance str_ge_total : Total str_ge.
Proof.
  intros a b. unfold str_ge.
  destruct (str_ltb a b) eqn:E; [right; by apply str_ltb_asym | by left].
Qed.

Lemma strongly_sorted_strict (l : list str) :
  StronglySorted str_ge l -> NoDup l ->
  StronglySorted (fun a b => str_ltb b a = true) l.
Proof.
  induction 1 as [|a l Hs IH Hall]; intros Hnd; [constructor|].
  apply NoDup_cons in Hnd as [Hnotin Hnd].
  constructor; [by apply IH|].
  rewrite Forall_forall in Hall |- *. intros b Hb.
  destruct (str_ltb b a) eqn:E; [reflexivity|].
  exfalso. apply Hnotin.
  rewrite (str_ltb_trichotomy a b (Hall b Hb) E). exact Hb.
Qed.

(** The sorted days: every key once, each later than those after it. *)
Lemma sorted_reverse_strict (keys : list str) :
  NoDup keys ->
  StronglySorted (fun a b => str_ltb b a = true) (sorted_reverse keys)
  /\ forall day, day ∈ sorted_reverse keys <-> day ∈ keys.
Proof.
  intros Hnd. unfold sorted_reverse.
  pose proof (merge_sort_Permutation str_ge keys) as Hperm.
  split; [|intros day; by rewrite Hperm].
  apply strongly_sorted_strict; [apply (StronglySorted_merge_sort str_ge)|].
  by rewrite Hperm.
Qed.

Section Selector.
Context `{Runtime}.

(** The loop keeps a day exactly when its record is eligible. *)
Lemma collect_targets_omap daily existing args days :
  Batch.collect_targets daily existing args days
  = omap (fun day =>
            match daily !! day with
            | Some day_data =>
                if eligible args existing day day_data then Some (day, day_data) else None
            | None => None
            end) days.
Proof.
  induction days as [|d rest IH]; [reflexivity|].
  cbn [Batch.collect_targets omap list_omap]. rewrite IH.
  unfold eligible, within_bounds.
  destruct (is_nil (Batch.from_date args)), (str_ltb d (Batch.from_date args)),
    (is_nil (Batch.to_date args)), (str_ltb (Batch.to_date args) d),
    (daily !! d) as [dd|]; simpl; try reflexivity.
  all: destruct (truthy_get (py "error") dd), (truthy_get (py "ideas") dd),
         (bool_decide (is_Some (existing !! d))), (Batch.overwrite args);
    reflexivity.
Qed.

Lemma collect_targets_elem daily existing args days day day_data :
  (day, day_data) ∈ Batch.collect_targets daily existing args days
  <-> day ∈ days /\ daily !! day = Some day_data
      /\ eligible args existing day day_data = true.
Proof.
  rewrite collect_targets_omap, list_elem_of_omap. split.
  - intros [d [Hin Hkeep]].
    destruct (daily !! d) as [dd|] eqn:Ed; [|discriminate].
    destruct (eligible args existing d dd) eqn:Ee; [|discriminate].
    injection Hkeep as -> ->. done.
  - intros [Hin [Hl He]]. exists day. split; [done|]. by rewrite Hl, He.
Qed.

Lemma collect_targets_sorted daily existing args days :
  StronglySorted (fun a b => str_ltb b a = true) days ->
  StronglySorted newer (Batch.collect_targets daily existing args days).
Proof.
  induction 1 as [|d rest Hs IH Hall]; [constructor|].
  rewrite collect_targets_omap. cbn [omap list_omap].
  rewrite <- collect_targets_omap.
  destruct (daily !! d) as [dd|]; [|exact IH].
  destruct (eligible args existing d dd); [|exact IH].
  constructor; [exact IH|].
  rewrite Forall_forall in Hall. rewrite Forall_forall. intros [day dd'] Hin.
  apply collect_targets_elem in Hin as [Hin _]. unfold newer. simpl.
  by apply Hall.
Qed.

(** C6. The work list is the list [full] of exactly the records that lie
    within the inclusive bounds, carry no error marker, have ideas, and have no
    document yet for their date unless overwrite was asked; [full] is ordered
    newest date first, and the cap (when positive) keeps the first entries of
    this ordered list. *)
Theorem select_targets_spec (daily : gmap str (list (str * json)))
    (existing : gmap str (list str)) (args : Batch.Namespace) :
  exists full : list (str * list (str * json)),
    (forall day day_data,
       (day, day_data) ∈ full
       <-> daily !! day = Some day_data
           /\ eligible args existing day day_data = true)
    /\ StronglySorted newer full
    /\ Batch.select_targets daily existing args
       = if (0 <? Batch.limit args)%Z
         then take (Z.to_nat (Batch.limit args)) full
         else full.
Proof.
  destruct (sorted_reverse_strict (map fst (map_to_list daily))) as [Hsorted Hkeys];
    [apply NoDup_fst_map_to_list|].
  exists (Batch.collect_targets daily existing args
            (sorted_reverse (map fst (map_to_list daily)))).
  split; [|split; [by apply collect_targets_sorted | reflexivity]].
  intros day day_data. rewrite collect_targets_elem, Hkeys.
  split; [by intros (_ & ? & ?)|]. intros [Hl He]. split; [|done].
  apply list_elem_of_fmap. exists (day, day_data). split; [done|].
  by apply elem_of_map_to_list.
Qed.

End Selector.

(** ** Tag normalization *)

Section TagProofs.
Context `{Runtime}.

Lemma normalize_tags_kept (fallback : list str) (tags : option json) :
  normalize_tags fallback tags
  = if (length (take 6 (kept_tags tags)) <? 3)%nat
    then take 3 (take 6 (kept_tags tags) ++ fallback)
    else take 6 (kept_tags tags).
Proof.
  unfold normalize_tags, kept_tags.
  destruct tags as [[|b|n|x|s|l|d]|]; cbn [truthy]; try reflexivity.
  - by destruct b.
  - by destruct (n =? 0)%Z.
  - by destruct (float_nonzero x).
  - by destruct s.
  - by destruct l.
  - by destruct d.
Qed.

(** C7 (amended). The tags that count are those of the reply's list after
    trimming, the blank ones dropped.  The normalized tags are between 3 and 6;
    when none counts they are the flow's three fallback tags, when one counts
    they are that tag and the first two fallback tags, and when six or more
    count (seven, say) they are the first six of them. *)
Theorem normalize_tags_spec (f : flow) (tags : option json) :
  let result := normalize_tags (fallback_tags_of f) tags in
  (3 <= length result <= 6)%nat
  /\ (kept_tags tags = [] -> result = fallback_tags_of f)
  /\ (forall t, kept_tags tags = [t] -> result = t :: take 2 (fallback_tags_of f))
  /\ ((6 <= length (kept_tags tags))%nat -> result = take 6 (kept_tags tags)).
Proof.
  cbv zeta. rewrite normalize_tags_kept.
  assert (Hfb : length (fallback_tags_of f) = 3%nat) by (by destruct f).
  split; [|split; [|split]].
  - destruct (Nat.ltb_spec (length (take 6 (kept_tags tags))) 3) as [Hlt|Hge].
    + rewrite length_take, length_app, Hfb. lia.
    + split; [exact Hge|]. rewrite length_take. lia.
  - intros ->. by destruct f.
  - intros t ->. by destruct f.
  - intros Hlen.
    destruct (Nat.ltb_spec (length (take 6 (kept_tags tags))) 3) as [Hlt|Hge];
      [|reflexivity].
    rewrite length_take in Hlt. lia.
Qed.

(** A list of tags that are not blank counts whole, each tag trimmed. *)
Lemma usable_tags_of_strings (ts : list str) :
  Forall (fun t => strip t <> []) ts ->
  usable_tags (map JStr ts) = map strip ts.
Proof.
  unfold usable_tags. induction 1 as [|t ts Ht Hts IH]; [reflexivity|].
  cbn [map]. rewrite filter_cons. cbn [py_str].
  destruct (decide (is_nil (strip t) = false)) as [_|Hnil].
  - f_equal. exact IH.
  - destruct (strip t); [done | by destruct Hnil].
Qed.

End TagProofs.

(** C7, as stated, fails: of seven tags the first of which is blank, the six
    others are kept, not the first six; and a single blank tag is dropped, the
    result being the fallback tags alone. *)
Lemma blank_tags_are_dropped_before_counting :
  let seven := map JStr [py ""; py "a"; py "b"; py "c"; py "d"; py "e"; py "f"] in
  @normalize_tags ascii_runtime Batch.fallback_tags (Some (JArr seven))
  = [py "a"; py "b"; py "c"; py "d"; py "e"; py "f"]
  /\ @normalize_tags ascii_runtime Batch.fallback_tags (Some (JArr seven))
     <> take 6 (map (@py_str ascii_runtime) seven)
  /\ @normalize_tags ascii_runtime Batch.fallback_tags (Some (JArr [JStr (py "  ")]))
     = Batch.fallback_tags.
Proof.
  cbv zeta. split; [reflexivity|]. split; [|reflexivity].
  vm_compute. discriminate.
Qed.

(** ** What the steps of a flow leave alone *)

Lemma attempt_loop_frame (rs : Z -> nat -> bool) (req : request) (attempts : list nat) :
  forall (w w' : world) (r : result str),
    attempt_loop rs req attempts w = (r, w') ->
    files w' = files w /\ runs w' = runs w
    /\ exists evs, trace w' = trace w ++ evs /\ Forall is_net_event evs.
Proof.
  induction attempts as [|a rest IH]; intros w w' r Hrun.
  - injection Hrun as _ <-. repeat split. exists []. by rewrite app_nil_r.
  - cbn [attempt_loop] in Hrun. unfold bind at 1, urlopen at 1 in Hrun.
    set (w1 := next_request (log (EvRequest req) w)) in *.
    assert (Hw1 : files w1 = files w /\ runs w1 = runs w
                  /\ trace w1 = trace w ++ [EvRequest req]) by done.
    destruct Hw1 as (Hf1 & Hr1 & Ht1).
    assert (Hstop : forall x : result str, (x, w1) = (r, w') ->
              files w' = files w /\ runs w' = runs w
              /\ exists evs, trace w' = trace w ++ evs /\ Forall is_net_event evs).
    { intros x [= _ <-]. repeat split; [done..|].
      exists [EvRequest req]. split; [done|]. by repeat constructor. }
    assert (Hgo : attempt_loop rs req rest (log (EvSleep (backoff a)) w1) = (r, w') ->
              files w' = files w /\ runs w' = runs w
              /\ exists evs, trace w' = trace w ++ evs /\ Forall is_net_event evs).
    { intros Hrest. apply IH in Hrest as (Hf & Hr & evs & Ht & Hevs).
      repeat split; [by rewrite Hf | by rewrite Hr |].
      exists (EvRequest req :: EvSleep (backoff a) :: evs).
      split; [|by repeat constructor].
      rewrite Ht. cbn [log trace]. rewrite Ht1, <- !app_assoc. reflexivity. }
    destruct (replies w (requests w)) as [body|code body|reason].
    + by apply (Hstop (first_completion body)).
    + destruct (rs code a); [by apply Hgo | by eapply Hstop].
    + destruct (a <? 5)%nat; [by apply Hgo | by eapply Hstop].
Qed.



(** ** A reply that lacks what the flow needs *)

Section ReplyProofs.
Context `{Runtime}.

Lemma strip_nil : strip [] = [].
Proof. reflexivity. Qed.



(** The batch flow either fails and changes nothing, or writes one file. *)
Lemma batch_persist_reply_cases (day : str) (args : Batch.Namespace)
    (parsed : json) (w : world) :
  fails_unchanged (Batch.persist_reply day args parsed) w
  \/ exists path body,
       Batch.persist_reply day args parsed w
       = (Ok path, set_files (<[path := body]> (files w)) (log (EvWrite path body) w)).
Proof.
  unfold fails_unchanged, Batch.persist_reply, bind, lift.
  destruct (Batch.stripped_field (py "title") parsed) as [title|e]; [|left; by eexists].
  destruct (Batch.stripped_field (py "excerpt") parsed) as [excerpt|e]; [|left; by eexists].
  destruct (Batch.get (py "tags") parsed) as [tags|e]; [|left; by eexists].
  destruct (Batch.stripped_field (py "content") parsed) as [content|e]; [|left; by eexists].
  destruct (is_nil title || is_nil content); [left; by eexists|].
  right. by eexists _, _.
Qed.



End ReplyProofs.




(** ** The single-date flow on a day without commits *)

Lemma run_cmd_frame (cmd : list str) (w w' : world) (r : result str) :
  Publish.run_cmd cmd w = (r, w') ->
  files w' = files w /\ requests w' = requests w
  /\ trace w' = trace w ++ [EvRun cmd].
Proof.
  unfold Publish.run_cmd.
  destruct (procs w (runs w)) as [rc out err|]; [destruct (rc =? 0)%Z|];
    by intros [= _ <-].
Qed.

Lemma collect_from_frame (host : Publish.Host) (target : str)
    (repos : list (str * str)) :
  forall (w w' : world) (r : result (list Commit)),
    Publish.collect_from host target repos w = (r, w') ->
    files w' = files w /\ requests w' = requests w
    /\ exists evs, trace w' = trace w ++ evs /\ Forall is_run_event evs.
Proof.
  induction repos as [|[repo name] rest IH]; intros w w' r Hrun.
  - injection Hrun as _ <-. repeat split. exists []. by rewrite app_nil_r.
  - cbn [Publish.collect_from] in Hrun.
    destruct (Publish.is_dir host repo); cbn [negb] in Hrun; [|by eapply IH].
    destruct (Publish.run_cmd (Publish.git_log_cmd repo target) w) as [out w1] eqn:Hcmd.
    apply run_cmd_frame in Hcmd as (Hf1 & Hq1 & Ht1).
    assert (Hgo : forall r0 w0,
              Publish.collect_from host target rest w1 = (r0, w0) ->
              files w0 = files w /\ requests w0 = requests w
              /\ exists evs, trace w0 = trace w ++ evs /\ Forall is_run_event evs).
    { intros r0 w0 Hrest. apply IH in Hrest as (Hf & Hq & evs & Ht & Hevs).
      repeat split; [by rewrite Hf | by rewrite Hq |].
      exists (EvRun (Publish.git_log_cmd repo target) :: evs).
      split; [|by constructor]. rewrite Ht, Ht1, <- app_assoc. reflexivity. }
    destruct out as [out|e]; [|by eapply Hgo].
    unfold bind at 1, lift at 1 in Hrun.
    destruct (Publish.commits_of_lines name repo (splitlines out)) as [here|e].
    + unfold bind at 1 in Hrun.
      destruct (Publish.collect_from host target rest w1) as [[more|e] w2] eqn:Hrest;
        injection Hrun as _ <-; by eapply Hgo.
    + injection Hrun as _ <-. repeat split; [done..|].
      exists [EvRun (Publish.git_log_cmd repo target)]. split; [done|].
      by repeat constructor.
Qed.

Lemma collect_commits_for_date_frame (host : Publish.Host) (target : str)
    (w w' : world) (r : result (list Commit)) :
  Publish.collect_commits_for_date host target w = (r, w') ->
  files w' = files w /\ requests w' = requests w
  /\ exists evs, trace w' = trace w ++ evs /\ Forall is_run_event evs.
Proof.
  unfold Publish.collect_commits_for_date, Publish.load_repos.
  destruct (Publish.chronicle_repos host) as [why|repos].
  - intros [= _ <-]. repeat split. exists []. by rewrite app_nil_r.
  - unfold bind, ret.
    destruct (Publish.collect_from host target _ w) as [[commits|e] w1] eqn:Hrun;
      intros [= _ <-]; by eapply collect_from_frame.
Qed.

(** C8. When the aggregation over all repositories yields no commit for the
    target date, [main] returns the exit status 0; no request was sent to the
    generation service, the blog directory is as it was, and all that happened
    is the running of the git commands that looked for commits. *)
Theorem no_commits_no_post `{Runtime}
    (host : Publish.Host) (args : Publish.Namespace) (w w1 : world) :
  Publish.collect_commits_for_date host (Publish.target_date args) w = (Ok [], w1) ->
  exists (w' : world) (evs : list event),
    Publish.main host args w = (Ok 0%Z, w')
    /\ files w' = files w
    /\ requests w' = requests w
    /\ trace w' = trace w ++ evs
    /\ Forall is_run_event evs.
Proof.
  intros Hcollect. unfold Publish.main, bind at 1, Publish.existing_post_for_date at 1.
  destruct (bool_decide _ && negb (Publish.overwrite args)).
  - exists w, []. rewrite app_nil_r. by repeat split.
  - unfold bind at 1. rewrite Hcollect. cbn [is_nil].
    apply collect_commits_for_date_frame in Hcollect as (Hf & Hq & evs & Ht & Hevs).
    exists w1, evs. by repeat split.
Qed.

Lemma no_commits_no_post_witness :
  exists (w' : world) (evs : list event),
    @Publish.main ascii_runtime sample_host (sample_publish_args false)
      (sample_world ∅ (UrlError []) []) = (Ok 0%Z, w')
    /\ files w' = files (sample_world ∅ (UrlError []) [])
    /\ requests w' = requests (sample_world ∅ (UrlError []) [])
    /\ trace w' = trace (sample_world ∅ (UrlError []) []) ++ evs
    /\ Forall is_run_event evs.
Proof.
  exact (@no_commits_no_post ascii_runtime sample_host (sample_publish_args false)
           (sample_world ∅ (UrlError []) [])
           (next_run (log (EvRun (Publish.git_log_cmd (py "/home/ryan/sites/my-portfolio")
                                    (py "2026-02-19")))
                        (sample_world ∅ (UrlError []) [])))
           eq_refl).
Defined.

(** ** The Document Writer *)

Lemma yaml_quote_cons (c : N) (s : str) :
  yaml_quote (c :: s)
  = (if (c =? backslash)%N then [backslash; backslash]
     else if (c =? quote)%N then [backslash; quote]
     else [c]) ++ yaml_quote s.
Proof.
  unfold yaml_quote, replace_char. cbn [flat_map].
  rewrite flat_map_app.
  destruct (N.eqb_spec c backslash) as [->|Hb]; [reflexivity|].
  cbn [flat_map]. rewrite app_nil_r.
  destruct (c =? quote)%N; reflexivity.
Qed.

(** Reading an escaped text back gives the text, and stops at the quote that
    closes it. *)
Lemma read_quoted_yaml_quote (s rest : str) :
  read_quoted (yaml_quote s ++ quote :: rest) = Some (s, rest).
Proof.
  induction s as [|c s IH]; [reflexivity|].
  rewrite yaml_quote_cons.
  destruct (N.eqb_spec c backslash) as [->|Hb].
  - cbn. rewrite IH. reflexivity.
  - destruct (N.eqb_spec c quote) as [->|Hq].
    + cbn. rewrite IH. reflexivity.
    + cbn [app read_quoted].
      apply N.eqb_neq in Hb, Hq. rewrite Hb, Hq, IH. reflexivity.
Qed.

Lemma yaml_quote_plain (s : str) : plain s -> yaml_quote s = s.
Proof.
  induction 1 as [|c s [Hq Hb] Hs IH]; [reflexivity|].
  rewrite yaml_quote_cons, IH.
  apply N.eqb_neq in Hb, Hq. by rewrite Hb, Hq.
Qed.

Lemma starts_with_app (lit s : str) : starts_with lit (lit ++ s) = true.
Proof.
  induction lit as [|c lit IH]; [reflexivity|].
  simpl. by rewrite N.eqb_refl, IH.
Qed.

Lemma expect_app (lit s : str) : expect lit (lit ++ s) = Some s.
Proof.
  unfold expect. rewrite starts_with_app. f_equal.
  by rewrite drop_app_length.
Qed.

Lemma length_join_quoted (tags : list str) (rest : str) :
  (length tags
   <= length (join (py ", ") (map (fun tag => quoted (yaml_quote tag)) tags) ++ rest))%nat.
Proof.
  induction tags as [|t [|t' ts] IH].
  - simpl. lia.
  - cbn [map join quoted]. rewrite !length_app. simpl. lia.
  - cbn [map join] in *. rewrite <- !app_assoc. unfold quoted at 1.
    rewrite <- !app_assoc. rewrite !length_app. rewrite length_app in IH.
    cbn [length] in *. lia.
Qed.

Lemma read_tags_join (tags : list str) :
  forall (fuel : nat) (rest : str),
    tags <> [] -> (length tags <= fuel)%nat ->
    read_tags fuel (join (py ", ") (map (fun tag => quoted (yaml_quote tag)) tags)
                    ++ py "]" ++ rest)
    = Some (tags, rest).
Proof.
  induction tags as [|t ts IH]; intros fuel rest Hne Hfuel; [done|].
  destruct fuel as [|fuel]; [simpl in Hfuel; lia|].
  destruct ts as [|t' ts].
  - cbn [map join read_tags]. unfold quoted. rewrite <- !app_assoc.
    rewrite expect_app. cbn [app]. rewrite read_quoted_yaml_quote.
    rewrite expect_app. reflexivity.
  - cbn [map join read_tags]. unfold quoted at 1. rewrite <- !app_assoc.
    rewrite expect_app. cbn [app]. rewrite read_quoted_yaml_quote.
    replace (expect (py "]") (py ", " ++ _)) with (@None str) by reflexivity.
    rewrite expect_app.
    change (quoted (yaml_quote t') :: map _ ts)
      with (map (fun tag => quoted (yaml_quote tag)) (t' :: ts)).
    rewrite IH; [reflexivity | done | simpl in *; lia].
Qed.

Lemma read_tag_list_join (tags : list str) (rest : str) :
  read_tag_list (join (py ", ") (map (fun tag => quoted (yaml_quote tag)) tags)
                 ++ py "]" ++ rest)
  = Some (tags, rest).
Proof.
  unfold read_tag_list. destruct tags as [|t ts]; [reflexivity|].
  replace (expect (py "]") _) with (@None str).
  - apply read_tags_join; [done|]. apply length_join_quoted.
  - destruct ts; reflexivity.
Qed.

(** [strip] leaves no white space at the end. *)
Lemma drop_while_end_last {A} (p : A -> bool) (s : list A) :
  drop_while_end p s = [] \/ exists init c, drop_while_end p s = init ++ [c] /\ p c = false.
Proof.
  induction s as [|c r IH]; [by left|]. cbn [drop_while_end].
  destruct (drop_while_end p r) as [|d t] eqn:E.
  - destruct (p c) eqn:Ep; [by left|]. right. by exists [], c.
  - rewrite andb_false_r. right.
    destruct IH as [|(init & e & -> & He)]; [done|].
    by exists (c :: init), e.
Qed.

Lemma mdx_body_layout (date title excerpt : str) (tags : list str) (author content : str) :
  mdx_body date title excerpt tags author content
  = (py "---" ++ [10%N] ++ py "title: " ++ [quote]) ++ yaml_quote title ++ quote ::
    ([10%N] ++ py "date: " ++ [quote]) ++ date ++ quote ::
    ([10%N] ++ py "excerpt: " ++ [quote]) ++ yaml_quote excerpt ++ quote ::
    ([10%N] ++ py "tags: [")
      ++ join (py ", ") (map (fun tag => quoted (yaml_quote tag)) tags) ++ py "]" ++
    ([10%N] ++ py "author: " ++ [quote]) ++ yaml_quote author ++ quote ::
    ([10%N] ++ py "---" ++ [10%N]) ++ strip content ++ [10%N].
Proof.
  unfold mdx_body, frontmatter, quoted. cbn [join].
  repeat (rewrite <- ?app_assoc; cbn [app]). reflexivity.
Qed.

(** C9 (amended). [write_mdx] writes one file.  Its text reads back as the
    header fields title, date, excerpt, tags and author followed by the body:
    the title, the excerpt, every tag and the author are escaped, so whatever
    quotes and backslashes they hold, each reads back as it was given; the date
    is written between quotes as it is, and reads back when it holds neither.
    The body is the content without its surrounding white space and one line
    feed, which is the only one at the end when the content is not blank. *)
Theorem written_document_reads_back
    (path date title excerpt : str) (tags : list str) (author content : str)
    (w : world) :
  plain date ->
  strip content <> [] ->
  exists doc : str,
    write_mdx path date title excerpt tags author content w
    = (Ok tt, set_files (<[path := doc]> (files w)) (log (EvWrite path doc) w))
    /\ read_document doc
       = Some ({| h_title := title; h_date := date; h_excerpt := excerpt;
                  h_tags := tags; h_author := author |},
               strip content ++ [10%N])
    /\ exists init c, strip content = init ++ [c] /\ is_space c = false.
Proof.
  intros Hdate Hbody.
  exists (mdx_body date title excerpt tags author content).
  split; [reflexivity|]. split.
  - rewrite mdx_body_layout. unfold read_document.
    rewrite expect_app. cbn [mbind option_bind].
    rewrite read_quoted_yaml_quote. cbn [mbind option_bind].
    rewrite expect_app. cbn [mbind option_bind].
    rewrite <- (yaml_quote_plain date Hdate) at 1.
    rewrite read_quoted_yaml_quote. cbn [mbind option_bind].
    rewrite expect_app. cbn [mbind option_bind].
    rewrite read_quoted_yaml_quote. cbn [mbind option_bind].
    rewrite expect_app. cbn [mbind option_bind].
    rewrite read_tag_list_join. cbn [mbind option_bind].
    rewrite expect_app. cbn [mbind option_bind].
    rewrite read_quoted_yaml_quote. cbn [mbind option_bind].
    rewrite expect_app. cbn [mbind option_bind].
    reflexivity.
  - unfold strip, strip_by in *.
    destruct (drop_while_end_last is_space (drop_while is_space content)) as [Hnil|Hlast];
      [done | exact Hlast].
Qed.

Lemma written_document_reads_back_witness :
  exists doc : str,
    write_mdx (py "2026-02-19-t.mdx") (py "2026-02-19") (pyq "A 'quoted' \ title")
      (py "E") [py "a"; pyq "b'"] (py "Ryan Dashwood") (py "  Body  ")
      (sample_world ∅ (UrlError []) [])
    = (Ok tt,
       set_files (<[py "2026-02-19-t.mdx" := doc]> (files (sample_world ∅ (UrlError []) [])))
         (log (EvWrite (py "2026-02-19-t.mdx") doc) (sample_world ∅ (UrlError []) [])))
    /\ read_document doc
       = Some ({| h_title := pyq "A 'quoted' \ title"; h_date := py "2026-02-19";
                  h_excerpt := py "E"; h_tags := [py "a"; pyq "b'"];
                  h_author := py "Ryan Dashwood" |},
               strip (py "  Body  ") ++ [10%N])
    /\ exists init c, strip (py "  Body  ") = init ++ [c] /\ is_space c = false.
Proof.
  apply (written_document_reads_back (py "2026-02-19-t.mdx") (py "2026-02-19")
           (pyq "A 'quoted' \ title") (py "E") [py "a"; pyq "b'"]
           (py "Ryan Dashwood") (py "  Body  ") (sample_world ∅ (UrlError []) [])).
  - repeat constructor; discriminate.
  - discriminate.
Defined.

(** C9, as stated, fails for the date: it is written between quotes without
    escaping, so a date that holds a quote ends its string early and the
    header no longer reads back. *)
Lemma date_is_written_unescaped :
  let date := pyq "2026-02-19'" in
  mdx_body date (py "T") (py "E") [py "a"] (py "Me") (py "Body")
  = py "---" ++ [10%N] ++ pyq "title: 'T'" ++ [10%N]
    ++ py "date: " ++ [quote] ++ date ++ [quote] ++ [10%N]
    ++ pyq "excerpt: 'E'" ++ [10%N] ++ pyq "tags: ['a']" ++ [10%N]
    ++ pyq "author: 'Me'" ++ [10%N] ++ py "---" ++ [10%N] ++ py "Body" ++ [10%N]
  /\ read_document (mdx_body date (py "T") (py "E") [py "a"] (py "Me") (py "Body"))
     = None.
Proof. cbv zeta. split; vm_compute; reflexivity. Qed.

(** ** The Response Decoder: what is handed to the parser *)

Lemma drop_while_end_snoc_false {A} (p : A -> bool) (s : list A) (c : A) :
  p c = false -> drop_while_end p (s ++ [c]) = s ++ [c].
Proof.
  intros Hc. induction s as [|d s IH]; simpl.
  - by rewrite Hc.
  - rewrite IH. destruct (s ++ [c]) eqn:E; [by destruct s|].
    by rewrite andb_false_r.
Qed.

Lemma drop_while_end_snoc_true {A} (p : A -> bool) (s : list A) (c : A) :
  p c = true -> drop_while_end p (s ++ [c]) = drop_while_end p s.
Proof.
  intros Hc. induction s as [|d s IH]; simpl.
  - by rewrite Hc.
  - by rewrite IH.
Qed.

Lemma drop_while_app_stop {A} (p : A -> bool) (a : list A) (c : A) (b : list A) :
  p c = false -> drop_while p (a ++ c :: b) = drop_while p a ++ c :: b.
Proof.
  intros Hc. induction a as [|d a IH]; simpl.
  - by rewrite Hc.
  - destruct (p d); [exact IH | reflexivity].
Qed.

Lemma find_drop_while_none (c : N) (p : N -> bool) (s : str) :
  find c s = None -> find c (drop_while p s) = None.
Proof.
  induction s as [|d s IH]; [done|]. simpl.
  destruct (d =? c)%N eqn:E; [discriminate|].
  destruct (find c s) eqn:Ef; [discriminate|]. intros _.
  destruct (p d); [by apply IH|]. simpl. by rewrite E, Ef.
Qed.

Lemma find_drop_none (c : N) (k : nat) (s : str) :
  find c s = None -> find c (drop k s) = None.
Proof.
  revert s. induction k as [|k IH]; intros [|d s]; try done.
  simpl. destruct (d =? c)%N; [discriminate|].
  destruct (find c s) eqn:E; [discriminate|]. intros _. by apply IH.
Qed.

Lemma find_app_none (c : N) (q s : str) :
  find c q = None -> find c (q ++ c :: s) = Some (length q).
Proof.
  induction q as [|d q IH]; simpl.
  - by rewrite N.eqb_refl.
  - destruct (d =? c)%N; [discriminate|].
    destruct (find c q); [discriminate|]. intros _. by rewrite IH.
Qed.

Lemma rfind_snoc (c : N) (s : str) : rfind c (s ++ [c]) = Some (length s).
Proof.
  induction s as [|d s IH]; simpl.
  - by rewrite N.eqb_refl.
  - by rewrite IH.
Qed.

Lemma snoc_assoc {A} (a : list A) (c : A) (mid : list A) (d : A) :
  a ++ c :: mid ++ [d] = (a ++ c :: mid) ++ [d].
Proof. by rewrite <- app_assoc. Qed.

(** A prefix without opening brace in front of the object's text. *)
Lemma strip_prefixed (q mid : str) :
  strip (q ++ lbrace :: mid ++ [rbrace])
  = drop_while is_space q ++ lbrace :: mid ++ [rbrace].
Proof.
  unfold strip, strip_by. rewrite drop_while_app_stop by reflexivity.
  rewrite snoc_assoc. by apply drop_while_end_snoc_false.
Qed.

Lemma slice_braces_prefixed (q mid : str) :
  find lbrace q = None ->
  slice_braces (q ++ lbrace :: mid ++ [rbrace]) = lbrace :: mid ++ [rbrace].
Proof.
  intros Hq. unfold slice_braces.
  rewrite (find_app_none _ _ _ Hq).
  rewrite snoc_assoc, rfind_snoc, <- snoc_assoc, length_app. cbn [length].
  replace (length q <? length q + S (length mid))%nat with true
    by (symmetry; apply Nat.ltb_lt; lia).
  rewrite drop_app_length.
  replace (S (length q + S (length mid)) - length q)%nat
    with (length (lbrace :: mid ++ [rbrace]))
    by (rewrite length_cons, length_app; simpl; lia).
  by rewrite firstn_all.
Qed.

Lemma starts_with_prefixed (lit q s : str) :
  Forall (fun c => c <> lbrace) lit ->
  starts_with lit (q ++ lbrace :: s) = true ->
  exists q', q = lit ++ q'.
Proof.
  intros Hlit. revert q. induction Hlit as [|c lit Hc Hlit IH]; intros q Hs.
  - by exists q.
  - destruct q as [|d q]; simpl in Hs.
    + apply andb_prop in Hs as [Hs _]. apply N.eqb_eq in Hs. done.
    + apply andb_prop in Hs as [Hd Hs]. apply N.eqb_eq in Hd as <-.
      destruct (IH q Hs) as [q' ->]. by exists q'.
Qed.

Lemma sub_fence_open_prefixed (q mid : str) :
  find lbrace q = None ->
  exists q', sub_fence_open (q ++ lbrace :: mid ++ [rbrace])
             = q' ++ lbrace :: mid ++ [rbrace]
             /\ find lbrace q' = None.
Proof.
  intros Hq. unfold sub_fence_open.
  destruct (starts_with fence _) eqn:Ef; [|by exists q].
  apply starts_with_prefixed in Ef as [q1 ->]; [|by repeat constructor].
  rewrite <- app_assoc. change (drop 3 (fence ++ ?s)) with s.
  assert (Hq1 : find lbrace q1 = None) by (by apply (find_drop_none _ 3) in Hq).
  destruct (starts_with (py "json") _) eqn:Ej; [|by exists q1].
  apply starts_with_prefixed in Ej as [q2 ->]; [|by repeat constructor].
  rewrite <- app_assoc. change (drop 4 (py "json" ++ ?s)) with s.
  exists q2. split; [done|]. by apply (find_drop_none _ 4) in Hq1.
Qed.

Lemma sub_fence_close_ends_rbrace (s : str) :
  sub_fence_close (s ++ [rbrace]) = s ++ [rbrace].
Proof.
  induction s as [|c s IH].
  - reflexivity.
  - cbn [app sub_fence_close]. rewrite IH.
    destruct (decide (c :: s ++ [rbrace] = fence)) as [E|_].
    { exfalso. apply (f_equal (@rev N)) in E.
      rewrite (app_comm_cons s [rbrace] c), rev_app_distr in E. discriminate. }
    destruct (decide (c :: s ++ [rbrace] = fence ++ [10%N])) as [E|_]; [|reflexivity].
    exfalso. apply (f_equal (@rev N)) in E.
    rewrite (app_comm_cons s [rbrace] c), rev_app_distr in E. discriminate.
Qed.

(** In front of the text of an object, prose without opening brace changes
    nothing of what the parser is given. *)
Lemma candidate_of_prefixed (prose mid : str) :
  find lbrace prose = None ->
  candidate_of (prose ++ lbrace :: mid ++ [rbrace]) = lbrace :: mid ++ [rbrace].
Proof.
  intros Hq. unfold candidate_of. rewrite strip_prefixed.
  pose proof (find_drop_while_none lbrace is_space prose Hq) as Hq1.
  destruct (starts_with fence _); [|by apply slice_braces_prefixed].
  destruct (sub_fence_open_prefixed _ mid Hq1) as (q2 & -> & Hq2).
  rewrite strip_prefixed.
  rewrite snoc_assoc, sub_fence_close_ends_rbrace, <- snoc_assoc.
  rewrite strip_prefixed.
  apply slice_braces_prefixed.
  by do 2 apply find_drop_while_none.
Qed.

Lemma sub_fence_close_fenced (s : str) :
  sub_fence_close (s ++ [10%N] ++ fence) = s ++ [10%N].
Proof.
  induction s as [|c s IH]; [reflexivity|].
  cbn [app sub_fence_close]. change (s ++ 10%N :: fence) with (s ++ [10%N] ++ fence).
  rewrite IH.
  destruct (decide (c :: s ++ [10%N] ++ fence = fence)) as [E|_].
  { apply (f_equal length) in E. rewrite length_cons, !length_app in E.
    simpl in E. lia. }
  destruct (decide (c :: s ++ [10%N] ++ fence = fence ++ [10%N])) as [E|_]; [|reflexivity].
  apply (f_equal length) in E. rewrite length_cons, !length_app in E.
  simpl in E. lia.
Qed.

(** Between fence markers, the text of an object is what the parser is given. *)
Lemma candidate_of_fenced (lang mid : str) :
  lang = [] \/ lang = py "json" ->
  candidate_of (fenced lang (lbrace :: mid ++ [rbrace])) = lbrace :: mid ++ [rbrace].
Proof.
  intros Hlang. unfold candidate_of.
  assert (Hstrip : strip (fenced lang (lbrace :: mid ++ [rbrace]))
                   = fenced lang (lbrace :: mid ++ [rbrace])).
  { unfold strip, strip_by, fenced.
    replace (drop_while is_space (fence ++ _)) with
      (fence ++ lang ++ [10%N] ++ (lbrace :: mid ++ [rbrace]) ++ [10%N] ++ fence)
      by reflexivity.
    change (fence ++ lang ++ [10%N] ++ (lbrace :: mid ++ [rbrace]) ++ [10%N] ++ fence)
      with (fence ++ lang ++ [10%N] ++ (lbrace :: mid ++ [rbrace]) ++ [10%N]
            ++ [backtick; backtick] ++ [backtick]).
    rewrite !app_assoc. by apply drop_while_end_snoc_false. }
  rewrite Hstrip.
  replace (starts_with fence (fenced lang _)) with true by reflexivity.
  assert (Hopen : sub_fence_open (fenced lang (lbrace :: mid ++ [rbrace]))
                  = [10%N] ++ (lbrace :: mid ++ [rbrace]) ++ [10%N] ++ fence).
  { by destruct Hlang as [-> | ->]. }
  rewrite Hopen.
  assert (Hstrip2 : strip ([10%N] ++ (lbrace :: mid ++ [rbrace]) ++ [10%N] ++ fence)
                    = (lbrace :: mid ++ [rbrace]) ++ [10%N] ++ fence).
  { unfold strip, strip_by.
    replace (drop_while is_space ([10%N] ++ _))
      with ((lbrace :: mid ++ [rbrace]) ++ [10%N] ++ fence) by reflexivity.
    change ((lbrace :: mid ++ [rbrace]) ++ [10%N] ++ fence)
      with ((lbrace :: mid ++ [rbrace]) ++ [10%N] ++ [backtick; backtick] ++ [backtick]).
    rewrite !app_assoc. by apply drop_while_end_snoc_false. }
  rewrite Hstrip2, sub_fence_close_fenced.
  assert (Hstrip3 : strip ((lbrace :: mid ++ [rbrace]) ++ [10%N])
                    = lbrace :: mid ++ [rbrace]).
  { unfold strip, strip_by.
    replace (drop_while is_space ((lbrace :: mid ++ [rbrace]) ++ [10%N]))
      with ((lbrace :: mid ++ [rbrace]) ++ [10%N]) by reflexivity.
    rewrite drop_while_end_snoc_true by reflexivity.
    change (lbrace :: mid ++ [rbrace]) with ((lbrace :: mid) ++ [rbrace]).
    by apply drop_while_end_snoc_false. }
  rewrite Hstrip3.
  apply (slice_braces_prefixed [] mid). reflexivity.
Qed.

(** ** The repair pass and the lexical layer of JSON *)

Lemma lex_app (st : lex_state) (a b : str) :
  lex st (a ++ b) = lex st a ≫= fun st' => lex st' b.
Proof.
  revert st. induction a as [|c a IH]; intros st; [reflexivity|].
  destruct st; simpl;
    repeat (match goal with |- context [if ?x then _ else _] => destruct x end);
    try apply IH; reflexivity.
Qed.

Lemma lex_plain (s : str) : plain s -> lex LOut s = Some LOut.
Proof.
  induction 1 as [|c s [Hq Hb] Hs IH]; [reflexivity|]. simpl.
  apply N.eqb_neq in Hq, Hb. by rewrite Hq, Hb.
Qed.

Lemma lex_plain_in (s : str) : plain s -> lex LIn s = Some LIn.
Proof.
  induction 1 as [|c s [Hq Hb] Hs IH]; [reflexivity|]. simpl.
  apply N.eqb_neq in Hq, Hb. by rewrite Hq, Hb.
Qed.

(** After a text that does not end with a backslash, the lexer is not in the
    middle of an escape. *)
Lemma lex_esc_last (s : str) (st : lex_state) :
  lex st s = Some LEsc -> s <> [] -> last s = Some backslash.
Proof.
  destruct s as [|c s _] using rev_ind; [done|]. intros Hlex _.
  rewrite last_snoc. rewrite lex_app in Hlex.
  destruct (lex st s) as [[| |]|]; cbn in Hlex; try discriminate.
  - destruct (c =? quote)%N; [discriminate|].
    destruct (c =? backslash)%N; discriminate.
  - destruct (c =? quote)%N; [discriminate|].
    destruct (N.eqb_spec c backslash) as [->|]; [reflexivity | discriminate].
  - destruct (is_escape_letter c); discriminate.
Qed.

(** A text the lexer accepts has no stray backslash: the repair pass leaves it
    as it is. *)
Lemma sub_stray_backslashes_lex (s : str) :
  forall (st st' : lex_state) (b : bool),
    lex st s = Some st' -> (st = LEsc -> b = true) ->
    (st' = LEsc -> False) ->
    sub_stray_backslashes b s = s.
Proof.
  induction s as [|c s IH]; intros st st' b Hlex Hb Hend; [reflexivity|].
  cbn [sub_stray_backslashes].
  destruct (N.eqb_spec c backslash) as [->|Hc].
  - destruct st; cbn [lex] in Hlex.
    + discriminate.
    + change (backslash =? quote)%N with false in Hlex.
      change (backslash =? backslash)%N with true in Hlex. cbv iota in Hlex.
      destruct s as [|e s].
      { injection Hlex as <-. by destruct Hend. }
      cbn [lex] in Hlex. destruct (is_escape_letter e) eqn:Ee; [|discriminate].
      cbn [next_is_escape_letter]. rewrite Ee. cbn [negb]. rewrite andb_false_r.
      f_equal. apply (IH LEsc st' true); [by cbn [lex]; rewrite Ee | done | done].
    + rewrite (Hb eq_refl). cbn [negb]. rewrite andb_false_r. cbn [andb].
      change (is_escape_letter backslash) with true in Hlex. cbv iota in Hlex.
      f_equal. by apply (IH LIn st' true).
  - cbn [andb]. f_equal.
    assert (Hnext : exists st1, lex st1 s = Some st' /\ st1 <> LEsc).
    { destruct st; cbn [lex] in Hlex.
      - destruct (c =? quote)%N; [by exists LIn|].
        destruct (c =? backslash)%N; [discriminate | by exists LOut].
      - destruct (c =? quote)%N; [by exists LOut|].
        apply N.eqb_neq in Hc. rewrite Hc in Hlex. by exists LIn.
      - destruct (is_escape_letter c); [by exists LIn | discriminate]. }
    destruct Hnext as (st1 & Hlex1 & Hst1).
    by apply (IH st1 st' false).
Qed.

(** Doubling a stray backslash by hand or by the repair pass is the same. *)
Lemma sub_stray_backslashes_glitch (x : N) (post : str) :
  is_escape_letter x = false ->
  forall (pre : str) (b : bool),
    (pre = [] -> b = false) ->
    last pre <> Some backslash ->
    sub_stray_backslashes b (pre ++ backslash :: x :: post)
    = sub_stray_backslashes b (pre ++ backslash :: backslash :: x :: post).
Proof.
  intros Hx. induction pre as [|c pre IH]; intros b Hb Hlast.
  - rewrite (Hb eq_refl). cbn. by rewrite Hx.
  - cbn [app sub_stray_backslashes].
    assert (Hnext : next_is_escape_letter (pre ++ backslash :: x :: post)
                    = next_is_escape_letter (pre ++ backslash :: backslash :: x :: post))
      by (by destruct pre).
    rewrite Hnext.
    assert (Hlast' : last pre <> Some backslash) by (by destruct pre).
    destruct ((c =? backslash)%N && negb b && negb _) eqn:Ematch.
    + f_equal. f_equal. apply IH; [|done]. intros ->.
      apply andb_prop in Ematch as [Ematch _]. apply andb_prop in Ematch as [Ec _].
      apply N.eqb_eq in Ec as ->. by destruct Hlast.
    + f_equal. apply IH; [|done]. intros ->.
      apply N.eqb_neq. intros ->. by destruct Hlast.
Qed.

(** With one of its escaped backslashes written as a single backslash before
    a character that is no escape letter, an accepted text is rejected. *)
Lemma lex_glitch (pre post : str) (x : N) (st : lex_state) :
  is_escape_letter x = false ->
  last pre <> Some backslash ->
  lex LOut (pre ++ backslash :: backslash :: x :: post) = Some st ->
  lex LOut (pre ++ backslash :: x :: post) = None.
Proof.
  intros Hx Hlast. rewrite !lex_app.
  destruct (lex LOut pre) as [[| |]|] eqn:Hpre; cbn; try done.
  - by rewrite Hx.
  - intros _. destruct pre as [|c pre]; [discriminate|].
    destruct Hlast. by eapply lex_esc_last.
Qed.

(** *** Every text [json.loads] accepts is accepted by the lexer *)

Lemma consumes_refl (s : str) : consumes s s.
Proof. by exists []. Qed.

Lemma consumes_trans (s t u : str) : consumes s t -> consumes t u -> consumes s u.
Proof.
  intros (a & -> & Ha) (b & -> & Hb). exists (a ++ b).
  split; [by rewrite app_assoc|]. by rewrite lex_app, Ha.
Qed.

Lemma consumes_plain (a s : str) : plain a -> consumes (a ++ s) s.
Proof. intros Ha. exists a. split; [done | by apply lex_plain]. Qed.

Lemma consumes_char (c : N) (s : str) :
  c <> quote -> c <> backslash -> consumes (c :: s) s.
Proof. intros Hq Hb. apply (consumes_plain [c]). by repeat constructor. Qed.

Lemma take_drop_while {A} (p : A -> bool) (s : list A) :
  s = take_while p s ++ drop_while p s.
Proof.
  induction s as [|c s IH]; [reflexivity|]. simpl.
  destruct (p c); [|reflexivity]. simpl. by rewrite <- IH.
Qed.

Lemma take_while_plain (p : N -> bool) (s : str) :
  (forall c, p c = true -> c <> quote /\ c <> backslash) ->
  plain (take_while p s).
Proof.
  intros Hp. induction s as [|c s IH]; simpl; [constructor|].
  destruct (p c) eqn:E; [|constructor]. constructor; [by apply Hp | exact IH].
Qed.

Lemma is_json_ws_plain (c : N) : is_json_ws c = true -> c <> quote /\ c <> backslash.
Proof. intros Hc. split; intros ->; discriminate. Qed.

Lemma is_digit_plain (c : N) : is_digit c = true -> c <> quote /\ c <> backslash.
Proof. intros Hc. split; intros ->; discriminate. Qed.

Lemma hex_value_plain (c n : N) : hex_value c = Some n -> c <> quote /\ c <> backslash.
Proof. intros Hc. split; intros ->; discriminate. Qed.

Lemma consumes_skip_ws (s : str) : consumes s (skip_ws s).
Proof.
  unfold skip_ws. rewrite (take_drop_while is_json_ws s) at 1.
  apply consumes_plain, take_while_plain, is_json_ws_plain.
Qed.

Lemma consumes_digits (s : str) : consumes s (drop_while is_digit s).
Proof.
  rewrite (take_drop_while is_digit s) at 1.
  apply consumes_plain, take_while_plain, is_digit_plain.
Qed.

Lemma starts_with_split (lit s : str) :
  starts_with lit s = true -> s = lit ++ drop (length lit) s.
Proof.
  revert s. induction lit as [|c lit IH]; intros s Hs; [reflexivity|].
  destruct s as [|d s]; [discriminate|]. simpl in Hs.
  apply andb_prop in Hs as [Hc Hs]. apply N.eqb_eq in Hc as ->.
  simpl. f_equal. by apply IH.
Qed.

Lemma consumes_literal (lit s : str) :
  plain lit -> starts_with lit s = true -> consumes s (drop (length lit) s).
Proof.
  intros Hlit Hs. rewrite (starts_with_split lit s Hs) at 1.
  by apply consumes_plain.
Qed.

Lemma consumes_int_part (s : str) (neg : bool) (ds r : str) :
  match_int_part s = Some (neg, ds, r) -> consumes s r.
Proof.
  unfold match_int_part.
  assert (Hdigits : forall (t : str) (neg0 : bool),
    match t with
    | c :: r0 =>
        if (c =? 48)%N then Some (neg0, [c], r0)
        else if is_digit c
             then Some (neg0, c :: take_while is_digit r0, drop_while is_digit r0)
             else None
    | [] => None
    end = Some (neg, ds, r) -> consumes t r).
  { intros [|c r0] neg0; [discriminate|].
    destruct (N.eqb_spec c 48) as [->|_].
    - intros [= _ _ <-]. by apply consumes_char.
    - destruct (is_digit c) eqn:Ed; [|discriminate]. intros [= _ _ <-].
      destruct (is_digit_plain c Ed).
      eapply consumes_trans; [by apply consumes_char | apply consumes_digits]. }
  destruct s as [|c r0]; [discriminate|].
  destruct (N.eqb_spec c 45) as [->|_]; [|exact (Hdigits (c :: r0) false)].
  intros Hs. apply (Hdigits r0 true) in Hs.
  eapply consumes_trans; [by apply consumes_char | exact Hs].
Qed.

Lemma consumes_frac (s : str) : consumes s (match_frac s).2.
Proof.
  unfold match_frac. destruct s as [|dot [|d r]]; try apply consumes_refl.
  destruct (N.eqb_spec dot 46) as [->|_]; cbn [andb]; [|apply consumes_refl].
  destruct (is_digit d) eqn:Ed; cbn [snd]; [|apply consumes_refl].
  destruct (is_digit_plain d Ed).
  eapply consumes_trans; [by apply consumes_char|].
  eapply consumes_trans; [by apply consumes_char | apply consumes_digits].
Qed.

Lemma consumes_exp (s : str) : consumes s (match_exp s).2.
Proof.
  unfold match_exp. destruct s as [|e r]; [apply consumes_refl|].
  assert (He : ((e =? 101) || (e =? 69))%N = true -> consumes (e :: r) r).
  { intros He. apply consumes_char; intros ->; discriminate. }
  destruct ((e =? 101) || (e =? 69))%N; [|apply consumes_refl].
  specialize (He eq_refl).
  destruct r as [|sg [|d r']].
  - apply consumes_refl.
  - destruct (is_digit sg) eqn:Es; cbn [snd]; [|apply consumes_refl].
    destruct (is_digit_plain sg Es).
    eapply consumes_trans; [exact He | by apply consumes_char].
  - destruct (((sg =? 43) || (sg =? 45)) && is_digit d)%N eqn:E1; cbn [snd].
    + apply andb_prop in E1 as [Hsg Hd]. destruct (is_digit_plain d Hd).
      eapply consumes_trans; [exact He|].
      eapply consumes_trans; [apply consumes_char; intros ->; discriminate|].
      eapply consumes_trans; [by apply consumes_char | apply consumes_digits].
    + destruct (is_digit sg) eqn:Es; cbn [snd]; [|apply consumes_refl].
      destruct (is_digit_plain sg Es).
      eapply consumes_trans; [exact He|].
      eapply consumes_trans; [by apply consumes_char | apply consumes_digits].
Qed.

Lemma consumes_number (s : str) (v : json) (rest : str) :
  match_number s = Some (v, rest) -> consumes s rest.
Proof.
  unfold match_number.
  destruct (match_int_part s) as [[[neg ds] r]|] eqn:Hint; [|discriminate].
  apply consumes_int_part in Hint.
  pose proof (consumes_frac r) as Hfrac.
  destruct (match_frac r) as [frac r1]. cbn [snd] in Hfrac.
  pose proof (consumes_exp r1) as Hexp.
  destruct (match_exp r1) as [ex r2]. cbn [snd] in Hexp.
  assert (consumes s r2) by (eapply consumes_trans; [|eapply consumes_trans]; eauto).
  destruct (is_nil frac && is_nil ex); by intros [= _ <-].
Qed.

Lemma hex4_plain (a b c d n : N) :
  hex4 a b c d = Some n -> plain [a; b; c; d].
Proof.
  unfold hex4.
  destruct (hex_value a) eqn:Ha; [|discriminate].
  destruct (hex_value b) eqn:Hb; [|discriminate].
  destruct (hex_value c) eqn:Hc; [|discriminate].
  destruct (hex_value d) eqn:Hd; [|discriminate].
  intros _. repeat constructor; by eapply hex_value_plain.
Qed.

Lemma unescape_escape_letter (e ch : N) :
  unescape e = Some ch -> is_escape_letter e = true.
Proof.
  unfold unescape, is_escape_letter.
  repeat (destruct (_ =? _)%N; [by rewrite ?orb_true_r|]). discriminate.
Qed.

(** What a string literal reads, from inside the string to after its closing
    quote. *)
Lemma scanstring_lex (fuel : nat) :
  forall (s v rest : str),
    scanstring fuel s = Some (v, rest) ->
    exists consumed, s = consumed ++ rest /\ lex LIn consumed = Some LOut.
Proof.
  induction fuel as [|fuel IH]; intros s v rest Hscan; [discriminate|].
  cbn [scanstring] in Hscan.
  destruct s as [|c r]; [discriminate|].
  destruct (N.eqb_spec c quote) as [->|Hq].
  { injection Hscan as _ <-. by exists [quote]. }
  destruct (N.eqb_spec c backslash) as [->|Hb].
  - destruct r as [|e r']; [discriminate|].
    destruct (N.eqb_spec e 117) as [->|He].
    + destruct r' as [|a1 [|a2 [|a3 [|a4 r'']]]]; try discriminate.
      destruct (hex4 a1 a2 a3 a4) as [hi|] eqn:Hhex; [|discriminate].
      apply hex4_plain in Hhex.
      assert (Hnext : exists mid rest0 ch,
                r'' = mid ++ rest0 /\ lex LIn mid = Some LIn
                /\ match scanstring fuel rest0 with
                   | Some (v, rest') => Some (ch :: v, rest')
                   | None => None
                   end = Some (v, rest)).
      { destruct (is_high_surrogate hi); [|by exists [], r'', hi].
        destruct (low_surrogate_escape r'') as [[lo rest0]|] eqn:Hlow;
          [|by exists [], r'', hi].
        unfold low_surrogate_escape in Hlow.
        destruct r'' as [|b [|u [|g1 [|g2 [|g3 [|g4 t]]]]]]; try discriminate.
        destruct (N.eqb_spec b backslash) as [->|]; [|discriminate].
        destruct (N.eqb_spec u 117) as [->|]; [|discriminate].
        cbn [andb] in Hlow.
        destruct (hex4 g1 g2 g3 g4) as [lo'|] eqn:Hhex2; [|discriminate].
        apply hex4_plain in Hhex2.
        destruct (is_low_surrogate lo'); [|discriminate].
        injection Hlow as -> <-.
        exists [backslash; 117%N; g1; g2; g3; g4], t,
          (65536 + (hi - 55296) * 1024 + (lo - 56320))%N.
        split; [reflexivity|]. split; [|exact Hscan].
        change (lex LIn [g1; g2; g3; g4] = Some LIn). by apply lex_plain_in. }
      destruct Hnext as (mid & rest0 & ch & -> & Hmid & Hrest).
      destruct (scanstring fuel rest0) as [[v' rest']|] eqn:Hrec; [|discriminate].
      injection Hrest as _ <-.
      destruct (IH _ _ _ Hrec) as (consumed & -> & Hlex).
      exists ([backslash; 117%N] ++ [a1; a2; a3; a4] ++ mid ++ consumed).
      split; [by rewrite <- !app_assoc|].
      change (lex LIn ([a1; a2; a3; a4] ++ mid ++ consumed) = Some LOut).
      rewrite lex_app, (lex_plain_in _ Hhex). cbn [mbind option_bind].
      rewrite lex_app, Hmid. exact Hlex.
    + destruct (unescape e) as [ch|] eqn:Hun; [|discriminate].
      destruct (scanstring fuel r') as [[v' rest']|] eqn:Hrec; [|discriminate].
      injection Hscan as _ <-.
      destruct (IH _ _ _ Hrec) as (consumed & -> & Hlex).
      exists (backslash :: e :: consumed). split; [reflexivity|].
      cbn [lex]. change (backslash =? quote)%N with false.
      change (backslash =? backslash)%N with true. cbv iota.
      by rewrite (unescape_escape_letter _ _ Hun).
  - destruct (c <? 32)%N; [discriminate|].
    destruct (scanstring fuel r) as [[v' rest']|] eqn:Hrec; [|discriminate].
    injection Hscan as _ <-.
    destruct (IH _ _ _ Hrec) as (consumed & -> & Hlex).
    exists (c :: consumed). split; [reflexivity|].
    cbn [lex]. apply N.eqb_neq in Hq, Hb. by rewrite Hq, Hb.
Qed.

Lemma consumes_string (fuel : nat) (r v rest : str) :
  scanstring fuel r = Some (v, rest) -> consumes (quote :: r) rest.
Proof.
  intros Hscan. destruct (scanstring_lex _ _ _ _ Hscan) as (consumed & -> & Hlex).
  by exists (quote :: consumed).
Qed.

Lemma consumes_step (c : N) (r t : str) :
  c <> quote -> c <> backslash -> consumes r t -> consumes (c :: r) t.
Proof. intros Hq Hb Hr. eapply consumes_trans; [by apply consumes_char | exact Hr]. Qed.

(** What the scanner reads, in any of its modes, is made of whole tokens. *)
Lemma scan_once_consumes (fuel : nat) :
  forall (m : scan_mode) (s : str) (v : json) (rest : str),
    scan_once fuel m s = Some (v, rest) -> consumes s rest.
Proof.
  induction fuel as [|fuel IH]; intros m s v rest Hscan; [discriminate|].
  cbn [scan_once] in Hscan. destruct m as [|seen|seen].
  - (* a value *)
    destruct s as [|c r]; [discriminate|].
    destruct (N.eqb_spec c quote) as [->|Hq].
    { destruct (scanstring (S (length r)) r) as [[sv srest]|] eqn:Hstr; [|discriminate].
      injection Hscan as _ <-. by eapply consumes_string. }
    destruct (N.eqb_spec c 123) as [->|Hobj].
    { destruct (skip_ws r) as [|c' r'] eqn:Hws; [discriminate|].
      apply consumes_step; [done..|].
      eapply consumes_trans; [apply consumes_skip_ws|]. rewrite Hws.
      destruct (N.eqb_spec c' 125) as [->|_].
      - injection Hscan as _ <-. by apply consumes_char.
      - by eapply IH. }
    destruct (N.eqb_spec c 91) as [->|Harr].
    { destruct (skip_ws r) as [|c' r'] eqn:Hws; [discriminate|].
      apply consumes_step; [done..|].
      eapply consumes_trans; [apply consumes_skip_ws|]. rewrite Hws.
      destruct (N.eqb_spec c' 93) as [->|_].
      - injection Hscan as _ <-. by apply consumes_char.
      - destruct (scan_once fuel AtValue (c' :: r')) as [[v1 rest1]|] eqn:Hv;
          [|discriminate].
        eapply consumes_trans; by eapply IH. }
    destruct (starts_with (py "null") (c :: r)) eqn:Hnull.
    { injection Hscan as _ <-.
      apply (consumes_literal (py "null")); [by repeat constructor | done]. }
    destruct (starts_with (py "true") (c :: r)) eqn:Htrue.
    { injection Hscan as _ <-.
      apply (consumes_literal (py "true")); [by repeat constructor | done]. }
    destruct (starts_with (py "false") (c :: r)) eqn:Hfalse.
    { injection Hscan as _ <-.
      apply (consumes_literal (py "false")); [by repeat constructor | done]. }
    destruct (match_number (c :: r)) as [[nv nrest]|] eqn:Hnum.
    { injection Hscan as _ <-. by eapply consumes_number. }
    destruct (starts_with (py "NaN") (c :: r)) eqn:Hnan.
    { injection Hscan as _ <-.
      apply (consumes_literal (py "NaN")); [by repeat constructor | done]. }
    destruct (starts_with (py "Infinity") (c :: r)) eqn:Hinf.
    { injection Hscan as _ <-.
      apply (consumes_literal (py "Infinity")); [by repeat constructor | done]. }
    destruct (starts_with (py "-Infinity") (c :: r)) eqn:Hninf; [|discriminate].
    injection Hscan as _ <-.
    apply (consumes_literal (py "-Infinity")); [by repeat constructor | done].
  - (* after an element of an array *)
    destruct (skip_ws s) as [|c r] eqn:Hws; [discriminate|].
    eapply consumes_trans; [apply consumes_skip_ws|]. rewrite Hws.
    destruct (N.eqb_spec c 93) as [->|_].
    { injection Hscan as _ <-. by apply consumes_char. }
    destruct (N.eqb_spec c 44) as [->|_]; [|discriminate].
    apply consumes_step; [done..|].
    eapply consumes_trans; [apply consumes_skip_ws|].
    destruct (scan_once fuel AtValue (skip_ws r)) as [[v1 rest1]|] eqn:Hv;
      [|discriminate].
    eapply consumes_trans; by eapply IH.
  - (* a member of an object *)
    destruct s as [|c r]; [discriminate|].
    destruct (N.eqb_spec c quote) as [->|_]; [|discriminate].
    destruct (scanstring (S (length r)) r) as [[key rest0]|] eqn:Hkey; [|discriminate].
    eapply consumes_trans; [by eapply consumes_string|].
    destruct (skip_ws rest0) as [|colon rest1] eqn:Hws0; [discriminate|].
    eapply consumes_trans; [apply consumes_skip_ws|]. rewrite Hws0.
    destruct (N.eqb_spec colon 58) as [->|_]; [|discriminate].
    apply consumes_step; [done..|].
    eapply consumes_trans; [apply consumes_skip_ws|].
    destruct (scan_once fuel AtValue (skip_ws rest1)) as [[v1 rest2]|] eqn:Hv;
      [|discriminate].
    eapply consumes_trans; [by eapply IH|].
    destruct (skip_ws rest2) as [|c' r'] eqn:Hws2; [discriminate|].
    eapply consumes_trans; [apply consumes_skip_ws|]. rewrite Hws2.
    destruct (N.eqb_spec c' 125) as [->|_].
    { injection Hscan as _ <-. by apply consumes_char. }
    destruct (N.eqb_spec c' 44) as [->|_]; [|discriminate].
    apply consumes_step; [done..|].
    eapply consumes_trans; [apply consumes_skip_ws|]. by eapply IH.
Qed.

(** A text that [json.loads] decodes is accepted by the lexer. *)
Lemma json_loads_lex (s : str) (v : json) :
  json_loads s = Ok v -> lex LOut s = Some LOut.
Proof.
  unfold json_loads.
  destruct (scan_once _ AtValue (skip_ws s)) as [[v1 rest]|] eqn:Hscan; [|discriminate].
  destruct (is_nil (skip_ws rest)) eqn:Hrest; [|discriminate]. intros _.
  assert (Hall : consumes s []).
  { eapply consumes_trans; [apply consumes_skip_ws|].
    eapply consumes_trans; [by eapply scan_once_consumes|].
    pose proof (consumes_skip_ws rest) as Hws.
    by destruct (skip_ws rest). }
  destruct Hall as (consumed & -> & Hlex). by rewrite app_nil_r.
Qed.

(** ** The Response Decoder: robustness *)

Lemma json_loads_raises (s : str) (e : exn) :
  json_loads s = Raise e -> e = JSONDecodeError.
Proof.
  unfold json_loads. destruct (scan_once _ _ _) as [[v rest]|]; [|by intros [= <-]].
  destruct (is_nil _); [discriminate | by intros [= <-]].
Qed.

Lemma parse_json_response_candidate (text : str) (v : json) :
  json_loads (candidate_of text) = Ok v -> parse_json_response text = Ok v.
Proof. unfold parse_json_response. by intros ->. Qed.

Lemma candidate_of_braced (mid : str) :
  candidate_of (lbrace :: mid ++ [rbrace]) = lbrace :: mid ++ [rbrace].
Proof. exact (candidate_of_prefixed [] mid eq_refl). Qed.

(** The text with a stray backslash is an object's text as well. *)
Lemma braced_glitch (pre post : str) (x : N) :
  braced (pre ++ backslash :: backslash :: x :: post) ->
  pre <> [] /\ braced (pre ++ backslash :: x :: post).
Proof.
  intros [mid Hmid]. destruct pre as [|c pre]; [discriminate|].
  split; [done|]. injection Hmid as -> Hmid.
  destruct (exists_last (l := x :: post)) as (t & a & Ht); [done|].
  rewrite Ht in Hmid.
  assert (Ha : a = rbrace).
  { change (backslash :: backslash :: t ++ [a])
      with ([backslash; backslash] ++ t ++ [a]) in Hmid.
    rewrite !app_assoc in Hmid. by apply app_inj_tail in Hmid as [_ ->]. }
  subst a. rewrite Ht. exists (pre ++ backslash :: t).
  cbn [app]. f_equal. by rewrite <- app_assoc.
Qed.

(** C3 (amended). Let [clean] be the text of a JSON object that [json.loads]
    decodes to [v].  The decoder yields [v] for [clean], for [clean] between
    fence markers (with or without the word json), for [clean] after prose
    that holds no opening brace, and for [clean] with one of its escaped
    backslashes written as a single backslash, provided that the character
    after it is no escape letter and the character before it no backslash. *)
Theorem decoder_robustness (clean : str) (v : json) :
  braced clean ->
  json_loads clean = Ok v ->
  parse_json_response clean = Ok v
  /\ (forall lang, lang = [] \/ lang = py "json" ->
        parse_json_response (fenced lang clean) = Ok v)
  /\ (forall prose, find lbrace prose = None ->
        parse_json_response (prose ++ clean) = Ok v)
  /\ (forall pre x post,
        clean = pre ++ backslash :: backslash :: x :: post ->
        is_escape_letter x = false ->
        last pre <> Some backslash ->
        parse_json_response (pre ++ backslash :: x :: post) = Ok v).
Proof.
  intros Hbraced Hclean. split; [|split; [|split]].
  - destruct Hbraced as [mid ->]. apply parse_json_response_candidate.
    by rewrite candidate_of_braced.
  - intros lang Hlang. destruct Hbraced as [mid ->].
    apply parse_json_response_candidate. by rewrite candidate_of_fenced.
  - intros prose Hprose. destruct Hbraced as [mid ->].
    apply parse_json_response_candidate. by rewrite candidate_of_prefixed.
  - intros pre x post -> Hx Hlast.
    destruct (braced_glitch _ _ _ Hbraced) as [Hpre [mid Hmid]].
    pose proof (json_loads_lex _ _ Hclean) as Hlex.
    unfold parse_json_response.
    rewrite Hmid, candidate_of_braced, <- Hmid.
    destruct (json_loads (pre ++ backslash :: x :: post)) as [v'|e] eqn:Hglitch.
    { apply json_loads_lex in Hglitch.
      by rewrite (lex_glitch pre post x LOut Hx Hlast Hlex) in Hglitch. }
    apply json_loads_raises in Hglitch as ->.
    rewrite (sub_stray_backslashes_glitch x post Hx pre false) by done.
    by rewrite (sub_stray_backslashes_lex _ LOut LOut false Hlex).
Qed.

Lemma decoder_robustness_witness :
  parse_json_response (pyq "{'title': 'T', 'content': 'a\\qb'}")
  = Ok (JObj [(py "title", JStr (py "T")); (py "content", JStr (py "a\qb"))])
  /\ (forall lang, lang = [] \/ lang = py "json" ->
        parse_json_response (fenced lang (pyq "{'title': 'T', 'content': 'a\\qb'}"))
        = Ok (JObj [(py "title", JStr (py "T")); (py "content", JStr (py "a\qb"))]))
  /\ (forall prose, find lbrace prose = None ->
        parse_json_response (prose ++ pyq "{'title': 'T', 'content': 'a\\qb'}")
        = Ok (JObj [(py "title", JStr (py "T")); (py "content", JStr (py "a\qb"))]))
  /\ (forall pre x post,
        pyq "{'title': 'T', 'content': 'a\\qb'}"
        = pre ++ backslash :: backslash :: x :: post ->
        is_escape_letter x = false ->
        last pre <> Some backslash ->
        parse_json_response (pre ++ backslash :: x :: post)
        = Ok (JObj [(py "title", JStr (py "T")); (py "content", JStr (py "a\qb"))])).
Proof.
  apply (decoder_robustness (pyq "{'title': 'T', 'content': 'a\\qb'}")
           (JObj [(py "title", JStr (py "T")); (py "content", JStr (py "a\qb"))])).
  - by exists (pyq "'title': 'T', 'content': 'a\\qb'").
  - reflexivity.
Defined.

(** C3, as stated, fails for the stray backslash: where it follows an escaped
    backslash, the repair pass leaves it alone and the second parse fails as
    the first did, while the clean text (the stray backslash escaped) decodes. *)
Lemma stray_backslash_after_an_escaped_one_is_not_repaired :
  parse_json_response (pyq "{'a': 'x\\\\q'}")
  = Ok (JObj [(py "a", JStr (py "x\\q"))])
  /\ pyq "{'a': 'x\\\q'}" = pyq "{'a': 'x\\" ++ backslash :: 113%N :: pyq "'}"
  /\ pyq "{'a': 'x\\\\q'}"
     = pyq "{'a': 'x\\" ++ backslash :: backslash :: 113%N :: pyq "'}"
  /\ is_escape_letter 113 = false
  /\ parse_json_response (pyq "{'a': 'x\\\q'}") = Raise JSONDecodeError.
Proof. repeat split; vm_compute; reflexivity. Qed.

(** ** The Generation Client, whatever the service answers *)

Lemma attempt_loop_final (f : flow) (req : request) (a : nat) (rest : list nat)
    (w : world) :
  retryable_failure f (replies w (requests w)) = false ->
  attempt_loop (retry_status_of f) req (a :: rest) w
  = (outcome_result (replies w (requests w)), advance 1 [EvRequest req] w).
Proof.
  intros Hfinal. cbn [attempt_loop]. unfold bind at 1, urlopen at 1.
  rewrite advance_request.
  destruct (replies w (requests w)) as [body|code body|reason]; simpl in Hfinal.
  - reflexivity.
  - by rewrite retry_status_of_split, Hfinal.
  - discriminate.
Qed.

(** [k] retryable failures and then an outcome that is not one. *)
Lemma attempt_loop_stops (f : flow) (req : request) (k : nat) :
  forall (a m : nat) (w : world),
    (a + k <= 5)%nat ->
    (forall i, (i < k)%nat -> retryable_failure f (replies w (requests w + i)) = true) ->
    retryable_failure f (replies w (requests w + k)) = false ->
    attempt_loop (retry_status_of f) req (seq a (S k + m)) w
    = (outcome_result (replies w (requests w + k)),
       advance (S k) (retry_trace req a (S k)) w).
Proof.
  induction k as [|k IH]; intros a m w Ha Hfail Hfinal.
  - rewrite Nat.add_0_r in *. cbn [seq Nat.add]. by apply attempt_loop_final.
  - change (seq a (S (S k) + m)) with (a :: seq (S a) (S k + m)).
    rewrite attempt_loop_retry; [| |lia].
    2:{ specialize (Hfail 0%nat). rewrite Nat.add_0_r in Hfail. apply Hfail. lia. }
    set (w1 := log _ (next_request _)).
    assert (Hreq : forall i, (requests w1 + i = requests w + S i)%nat).
    { intros i. subst w1. simpl. lia. }
    rewrite (IH (S a) m w1); [| lia | |].
    + rewrite Hreq. subst w1. by rewrite advance_retry.
    + intros i Hi. rewrite Hreq. apply Hfail. lia.
    + by rewrite Hreq.
Qed.

(** Among the first [n] outcomes, either all are retryable failures or there
    is a first that is not. *)
Lemma first_final_outcome (f : flow) (w : world) (n : nat) :
  (forall i, (i < n)%nat -> retryable_failure f (replies w (requests w + i)) = true)
  \/ exists k, (k < n)%nat
       /\ retryable_failure f (replies w (requests w + k)) = false
       /\ forall i, (i < k)%nat ->
            retryable_failure f (replies w (requests w + i)) = true.
Proof.
  induction n as [|n [Hall | (k & Hk & Hfinal & Hbefore)]].
  - left. intros i Hi. lia.
  - destruct (retryable_failure f (replies w (requests w + n))) eqn:E.
    + left. intros i Hi. destruct (decide (i = n)) as [->|Hne]; [done|].
      apply Hall. lia.
    + right. exists n. split; [lia|]. split; [done|]. intros i Hi. by apply Hall.
  - right. exists k. split; [lia|]. by split.
Qed.

Lemma sleep_total_retry_trace (req : request) (n : nat) :
  (1 <= n <= 6)%nat -> (sleep_total (retry_trace req 0 n) <= 41)%Z.
Proof.
  intros Hn.
  assert (Hcases : n = 1%nat \/ n = 2%nat \/ n = 3%nat \/ n = 4%nat
                   \/ n = 5%nat \/ n = 6%nat) by lia.
  destruct Hcases as [-> | [-> | [-> | [-> | [-> | ->]]]]]; vm_compute; discriminate.
Qed.

(** X1. Whatever the service answers, one call of the client sends between one
    and six requests and sleeps between two requests only: the world after
    the call is the world before it with [n] requests more and the back-offs
    between them in the trace (no file is touched, no process started), and
    the seconds slept add up to 41 at most, so the cap of 30 seconds on one
    back-off is never reached. *)
Theorem call_openrouter_sends_one_to_six_requests
    (f : flow) (prompt model api_key : str) (w : world) :
  exists n : nat,
    (1 <= n <= 6)%nat
    /\ snd (call_openrouter_of f prompt model api_key w)
       = advance n (retry_trace (request_of f prompt model api_key) 0 n) w
    /\ (sleep_total (retry_trace (request_of f prompt model api_key) 0 n) <= 41)%Z
    /\ Forall (fun ev => forall s, ev = EvSleep s -> (s < 30)%Z)
         (retry_trace (request_of f prompt model api_key) 0 n).
Proof.
  rewrite call_openrouter_of_loop.
  set (req := request_of f prompt model api_key).
  assert (Hshape : exists n : nat, (1 <= n <= 6)%nat
            /\ snd (attempt_loop (retry_status_of f) req (seq 0 6) w)
               = advance n (retry_trace req 0 n) w).
  { destruct (first_final_outcome f w 6) as [Hall | (k & Hk & Hfinal & Hbefore)].
    - destruct (attempt_loop_all_fail f req 5 0 w) as [e [_ Hrun]];
        [lia | intros i Hi; apply Hall; lia |].
      exists 6%nat. split; [lia|]. by rewrite Hrun.
    - exists (S k). split; [lia|].
      replace 6%nat with (S k + (5 - k))%nat by lia.
      rewrite (attempt_loop_stops f req k 0 (5 - k) w); [done | lia | done | done]. }
  destruct Hshape as (n & Hn & Hrun). exists n.
  split; [exact Hn|]. split; [exact Hrun|].
  split; [by apply sleep_total_retry_trace|].
  assert (Hcases : n = 1%nat \/ n = 2%nat \/ n = 3%nat \/ n = 4%nat
                   \/ n = 5%nat \/ n = 6%nat) by lia.
  destruct Hcases as [-> | [-> | [-> | [-> | [-> | ->]]]]];
    cbn [retry_trace]; repeat constructor; intros s [= <-]; by vm_compute.
Qed.

(** X2. The client stops at the first outcome that is not a retryable failure:
    after [k] retryable failures (five at most), a reply ends the call with the
    text of its first completion, or with the error that reading it raises (a
    reply that came in is never asked for again), and an HTTP error with a
    status that is not transient ends it with the HTTP failure; [k + 1]
    requests were sent. *)
Theorem client_stops_at_the_first_final_outcome
    (f : flow) (prompt model api_key : str) (w : world) (k : nat) :
  (k <= 5)%nat ->
  (forall i, (i < k)%nat -> retryable_failure f (replies w (requests w + i)) = true) ->
  retryable_failure f (replies w (requests w + k)) = false ->
  call_openrouter_of f prompt model api_key w
  = (outcome_result (replies w (requests w + k)),
     advance (S k) (retry_trace (request_of f prompt model api_key) 0 (S k)) w).
Proof.
  intros Hk Hfail Hfinal. rewrite call_openrouter_of_loop.
  replace 6%nat with (S k + (5 - k))%nat by lia.
  apply attempt_loop_stops; [lia | done | done].
Qed.

Lemma client_stops_at_the_first_final_outcome_witness :
  call_openrouter_of BatchFlow (py "prompt") (py "model") (py "key")
    (world_failing_then 2 (HttpError 503 None) (HttpReply (py "not json")))
  = (Raise JSONDecodeError,
     advance 3 (retry_trace (request_of BatchFlow (py "prompt") (py "model") (py "key")) 0 3)
       (world_failing_then 2 (HttpError 503 None) (HttpReply (py "not json")))).
Proof.
  apply (client_stops_at_the_first_final_outcome BatchFlow (py "prompt") (py "model")
           (py "key")
           (world_failing_then 2 (HttpError 503 None) (HttpReply (py "not json"))) 2).
  - lia.
  - intros [|[|i]] Hi; [reflexivity | reflexivity | lia].
  - reflexivity.
Defined.

(** ** The credential *)

(** What [strip] returns has no character to strip at either end. *)
Lemma strip_by_idem (p : N -> bool) (s : str) :
  strip_by p (strip_by p s) = strip_by p s.
Proof.
  unfold strip_by at 1. set (t := strip_by p s).
  assert (Hhead : drop_while p t = t).
  { destruct t as [|c r] eqn:Et; [reflexivity|].
    subst t. unfold strip_by in Et.
    pose proof (drop_while_end_head _ _ _ _ Et) as Hc.
    destruct (drop_while p s) as [|c' r'] eqn:Ed; [discriminate|].
    injection Hc as ->. apply drop_while_head in Ed. simpl. by rewrite Ed. }
  rewrite Hhead.
  destruct (drop_while_end_last p (drop_while p s)) as [Hnil | (init & c & Hlast & Hc)].
  - subst t. unfold strip_by. by rewrite Hnil.
  - subst t. unfold strip_by. rewrite Hlast. by apply drop_while_end_snoc_false.
Qed.

Lemma strip_idem (s : str) : strip (strip s) = strip s.
Proof. apply strip_by_idem. Qed.

Lemma key_of_lines_none (lines : list str) :
  Forall (fun line => starts_with Keys.key_prefix line = false) lines ->
  Keys.key_of_lines lines = None.
Proof.
  induction 1 as [|line rest Hline _ IH]; [reflexivity|].
  cbn [Keys.key_of_lines]. by rewrite Hline.
Qed.

Lemma key_of_lines_found (before after : list str) (value : str) :
  Forall (fun line => starts_with Keys.key_prefix line = false) before ->
  Keys.key_of_lines (before ++ (Keys.key_prefix ++ value) :: after)
  = Some (Ok (strip value)).
Proof.
  induction 1 as [|line rest Hline _ IH].
  - cbn [app Keys.key_of_lines]. rewrite starts_with_app. reflexivity.
  - cbn [app Keys.key_of_lines]. by rewrite Hline.
Qed.

Lemma key_of_files_skip (earlier rest : list Keys.env_file) :
  Forall no_key earlier ->
  Keys.key_of_files (earlier ++ rest) = Keys.key_of_files rest.
Proof.
  induction 1 as [|f fs Hf _ IH]; [reflexivity|].
  destruct f as [|e|text]; simpl in Hf; [exact IH | done |].
  cbn [app Keys.key_of_files]. by rewrite (key_of_lines_none _ Hf).
Qed.

Lemma key_of_lines_trimmed (lines : list str) (key : str) :
  Keys.key_of_lines lines = Some (Ok key) -> strip key = key.
Proof.
  induction lines as [|line rest IH]; [discriminate|].
  cbn [Keys.key_of_lines].
  destruct (starts_with Keys.key_prefix line); [|exact IH].
  destruct (split_first Keys.equals_sign line) as [[name value]|]; [|discriminate].
  intros [= <-]. apply strip_idem.
Qed.

Lemma key_of_files_trimmed (env_files : list Keys.env_file) (key : str) :
  Keys.key_of_files env_files = Ok key -> strip key = key.
Proof.
  induction env_files as [|[|e|text] rest IH]; cbn [Keys.key_of_files];
    [discriminate | exact IH | discriminate |].
  destruct (Keys.key_of_lines (splitlines text)) as [r|] eqn:E; [|exact IH].
  intros ->. by eapply key_of_lines_trimmed.
Qed.

(** X3. When the environment gives no key (the variable is unset or blank),
    the key is taken from the first of the three files that has a line
    starting with the variable's name and an equals sign, and from the first
    such line: it is what follows the equals sign, trimmed, even when that is
    nothing at all.  The files after this one are not read. *)
Theorem key_comes_from_the_first_file_that_names_it
    (host : Keys.Host) (earlier later : list Keys.env_file) (text : str)
    (before after : list str) (value : str) :
  strip (default [] (Keys.environ_key host)) = [] ->
  [Keys.tools_env host; Keys.sites_env host; Keys.home_env host]
  = earlier ++ Keys.Text text :: later ->
  Forall no_key earlier ->
  splitlines text = before ++ (Keys.key_prefix ++ value) :: after ->
  Forall (fun line => starts_with Keys.key_prefix line = false) before ->
  Keys.load_api_key host = Ok (strip value).
Proof.
  intros Henv Hfiles Hearlier Htext Hbefore. unfold Keys.load_api_key.
  rewrite Henv, Hfiles. cbn [is_nil negb].
  rewrite (key_of_files_skip _ _ Hearlier). cbn [Keys.key_of_files].
  by rewrite Htext, (key_of_lines_found _ _ _ Hbefore).
Qed.

Lemma key_comes_from_the_first_file_that_names_it_witness :
  Keys.load_api_key sample_key_host = Ok (strip (py " sk-or-1 ")).
Proof.
  apply (key_comes_from_the_first_file_that_names_it sample_key_host
           [Keys.Missing] [Keys.Unreadable OSError]
           (py "DEBUG=1" ++ [10%N] ++ py "OPENROUTER_API_KEY= sk-or-1 " ++ [10%N])
           [py "DEBUG=1"] [] (py " sk-or-1 ")).
  - reflexivity.
  - reflexivity.
  - repeat constructor.
  - reflexivity.
  - repeat constructor.
Defined.

(** X4. A key that [load_api_key] returns has no white space around it,
    wherever it came from; one from the environment is not empty. *)
Theorem loaded_key_is_trimmed (host : Keys.Host) (key : str) :
  Keys.load_api_key host = Ok key ->
  strip key = key
  /\ (strip (default [] (Keys.environ_key host)) <> [] ->
      key = strip (default [] (Keys.environ_key host)) /\ key <> []).
Proof.
  unfold Keys.load_api_key.
  destruct (strip (default [] (Keys.environ_key host))) as [|c r] eqn:Ek;
    cbn [is_nil negb].
  - intros Hfiles. split; [by eapply key_of_files_trimmed | done].
  - intros [= <-]. split; [|done]. rewrite <- Ek. apply strip_idem.
Qed.

Lemma loaded_key_is_trimmed_witness :
  strip (py "sk-or-1") = py "sk-or-1"
  /\ (strip (default [] (Keys.environ_key sample_key_host)) <> [] ->
      py "sk-or-1" = strip (default [] (Keys.environ_key sample_key_host))
      /\ py "sk-or-1" <> []).
Proof.
  apply (loaded_key_is_trimmed sample_key_host (py "sk-or-1")). reflexivity.
Defined.

(** ** The commits of a day *)

Lemma splitlines_from_line (acc line rest : str) :
  one_line line ->
  splitlines_from acc (line ++ 10%N :: rest) = (acc ++ line) :: splitlines_from [] rest.
Proof.
  intros Hline. revert acc. induction Hline as [|c line Hc _ IH]; intros acc.
  - rewrite app_nil_r. reflexivity.
  - cbn [app splitlines_from]. rewrite Hc.
    assert (Hcr : (c =? 13)%N = false).
    { destruct (N.eqb_spec c 13) as [->|]; [discriminate Hc | reflexivity]. }
    rewrite Hcr, IH, <- app_assoc. reflexivity.
Qed.

(** The lines of a text in which every line ends with a line feed. *)
Lemma splitlines_log_text (lines : list str) :
  Forall one_line lines -> splitlines (log_text lines) = lines.
Proof.
  unfold splitlines. induction 1 as [|line rest Hline _ IH]; [reflexivity|].
  cbn [log_text flat_map]. rewrite <- app_assoc. cbn [app].
  rewrite (splitlines_from_line [] line _ Hline). cbn [app]. f_equal. exact IH.
Qed.

Lemma split_first_no_bar (before after : str) :
  no_bar before ->
  split_first Publish.pipe (before ++ Publish.pipe :: after) = Some (before, after).
Proof.
  induction 1 as [|c before Hc _ IH].
  - reflexivity.
  - cbn [app split_first]. apply N.eqb_neq in Hc. by rewrite Hc, IH.
Qed.

Lemma drop_while_end_not_nil {A} (p : A -> bool) (l : list A) (c : A) (b : list A) :
  p c = false -> drop_while_end p (l ++ c :: b) <> [].
Proof.
  intros Hc. induction l as [|x l IH]; cbn [app drop_while_end].
  - by rewrite Hc.
  - destruct (drop_while_end p (l ++ c :: b)); [done|]. by rewrite andb_false_r.
Qed.

Lemma strip_not_blank (a b : str) (c : N) :
  is_space c = false -> strip (a ++ c :: b) <> [].
Proof.
  intros Hc. unfold strip, strip_by. rewrite drop_while_app_stop by done.
  by apply drop_while_end_not_nil.
Qed.

Lemma commit_of_line_entry (project_name repo : str) (entry : str * str * str) :
  well_formed_entry entry ->
  Publish.commit_of_line project_name repo (log_line entry)
  = Ok (Some (commit_of_entry project_name repo entry)).
Proof.
  destruct entry as [[sha_ date_] subject]. intros (_ & _ & _ & Hsha & Hdate).
  unfold Publish.commit_of_line, log_line, commit_of_entry.
  assert (Hblank : is_nil (strip (sha_ ++ [Publish.pipe] ++ date_ ++ [Publish.pipe] ++ subject))
                   = false).
  { pose proof (strip_not_blank sha_ (date_ ++ [Publish.pipe] ++ subject) Publish.pipe
                  eq_refl) as Hne.
    cbn [app] in *. by destruct (strip _). }
  rewrite Hblank. cbn [app].
  rewrite (split_first_no_bar sha_ _ Hsha), (split_first_no_bar date_ _ Hdate).
  reflexivity.
Qed.

Lemma one_line_log_line (entry : str * str * str) :
  well_formed_entry entry -> one_line (log_line entry).
Proof.
  destruct entry as [[sha_ date_] subject]. intros (Hs & Hd & Hm & _ & _).
  unfold log_line, one_line. rewrite !Forall_app.
  repeat split; try done; by repeat constructor.
Qed.

(** X5. The output of [git log] is read back whole: when the command prints
    one line per commit (the hash, the date and the subject with a bar between
    them, no line break inside, no bar in the hash and the date), the commits
    are those of the lines, in their order, each with its three fields trimmed
    and the project and repository of the loop; the subject may hold bars. *)
Theorem log_output_is_read_back
    (project_name repo : str) (entries : list (str * str * str)) :
  Forall well_formed_entry entries ->
  Publish.commits_of_lines project_name repo (splitlines (log_text (map log_line entries)))
  = Ok (map (commit_of_entry project_name repo) entries).
Proof.
  intros Hentries.
  rewrite splitlines_log_text.
  2:{ rewrite Forall_map. eapply Forall_impl; [exact Hentries|].
      intros entry. apply one_line_log_line. }
  induction Hentries as [|entry rest Hentry _ IH]; [reflexivity|].
  cbn [map Publish.commits_of_lines].
  rewrite (commit_of_line_entry _ _ _ Hentry). cbn [bind_result].
  rewrite IH. reflexivity.
Qed.

Lemma log_output_is_read_back_witness :
  Publish.commits_of_lines (py "my-portfolio") (py "/repo")
    (splitlines (log_text (map log_line
       [ (py "0a1b2c3d", py "2026-02-19 09:00:00 -0600", py "fix: a|b");
         (py "4e5f6a7b", py "2026-02-19 08:00:00 -0600", py " docs ") ])))
  = Ok (map (commit_of_entry (py "my-portfolio") (py "/repo"))
       [ (py "0a1b2c3d", py "2026-02-19 09:00:00 -0600", py "fix: a|b");
         (py "4e5f6a7b", py "2026-02-19 08:00:00 -0600", py " docs ") ]).
Proof.
  apply (log_output_is_read_back (py "my-portfolio") (py "/repo")
           [ (py "0a1b2c3d", py "2026-02-19 09:00:00 -0600", py "fix: a|b");
             (py "4e5f6a7b", py "2026-02-19 08:00:00 -0600", py " docs ") ]).
  repeat constructor; discriminate.
Defined.

(** ** What collect_commits_for_date returns *)

Lemma insert_by_date_perm (c : Commit) (l : list Commit) :
  insert_by_date c l ≡ₚ c :: l.
Proof.
  induction l as [|d rest IH]; [reflexivity|]. cbn [insert_by_date].
  destruct (str_ltb (date c) (date d)); [reflexivity|].
  rewrite IH. apply Permutation_swap.
Qed.

Lemma insert_by_date_sorted (c : Commit) (l : list Commit) :
  StronglySorted date_le l -> StronglySorted date_le (insert_by_date c l).
Proof.
  induction 1 as [|d rest Hs IH Hall]; [repeat constructor|].
  cbn [insert_by_date]. destruct (str_ltb (date c) (date d)) eqn:E.
  - constructor; [by constructor|].
    apply str_ltb_asym in E. constructor; [exact E|].
    eapply Forall_impl; [exact Hall|]. intros x Hx. unfold date_le in *.
    by eapply str_ge_trans.
  - constructor; [exact IH|].
    rewrite insert_by_date_perm. by constructor.
Qed.

Lemma filter_none {A} (P : A -> Prop) `{forall x, Decision (P x)} (l : list A) :
  Forall (fun x => ~ P x) l -> filter P l = [].
Proof.
  induction 1 as [|x l Hx _ IH]; [reflexivity|].
  by rewrite filter_cons, decide_False.
Qed.

(** A commit goes after the commits of its date that were there. *)
Lemma insert_by_date_dated (day : str) (c : Commit) (l : list Commit) :
  StronglySorted date_le l ->
  dated day (insert_by_date c l) = dated day (l ++ [c]).
Proof.
  unfold dated. induction 1 as [|d rest Hs IH Hall]; [reflexivity|].
  cbn [insert_by_date]. destruct (str_ltb (date c) (date d)) eqn:E.
  - rewrite filter_app. rewrite (filter_cons _ c).
    destruct (decide (date c = day)) as [Hday|Hday].
    + assert (Hnone : filter (fun c0 => date c0 = day) (d :: rest) = []).
      { apply filter_none. constructor.
        - intros Hd. rewrite <- Hday in Hd. rewrite Hd, str_ltb_irrefl in E. discriminate.
        - eapply Forall_impl; [exact Hall|]. intros x Hx Hxd. unfold date_le in Hx.
          rewrite <- Hday in Hxd. rewrite Hxd in Hx. congruence. }
      rewrite Hnone. cbn [app]. rewrite filter_cons, decide_True by done. reflexivity.
    + rewrite (filter_cons _ c [] ), decide_False by done. by rewrite app_nil_r.
  - cbn [app]. rewrite !(filter_cons _ d), IH. reflexivity.
Qed.

Lemma sort_by_date_from (cs acc : list Commit) :
  StronglySorted date_le acc ->
  let sorted := fold_left (fun sorted c => insert_by_date c sorted) cs acc in
  StronglySorted date_le sorted
  /\ sorted ≡ₚ acc ++ cs
  /\ forall day, dated day sorted = dated day (acc ++ cs).
Proof.
  revert acc. induction cs as [|c cs IH]; intros acc Hacc; cbn [fold_left].
  - rewrite app_nil_r. by repeat split.
  - destruct (IH (insert_by_date c acc) (insert_by_date_sorted c acc Hacc))
      as (Hs & Hp & Hd).
    split; [exact Hs|]. split.
    + rewrite Hp, insert_by_date_perm.
      change (c :: acc) with ([c] ++ acc). rewrite (Permutation_app_comm [c] acc).
      by rewrite <- app_assoc.
    + intros day. rewrite Hd.
      pose proof (insert_by_date_dated day c acc Hacc) as Hi. unfold dated in *.
      rewrite filter_app, Hi, <- filter_app, <- app_assoc. reflexivity.
Qed.

(** The two steps of [collect_commits_for_date] when it returns. *)
Lemma collect_commits_for_date_ok
    (host : Publish.Host) (target : str) (w w' : world) (commits : list Commit) :
  Publish.collect_commits_for_date host target w = (Ok commits, w') ->
  exists (registry : list (str * str * str)) (read : list Commit),
    Publish.chronicle_repos host = inr registry
    /\ Publish.collect_from host target (labelled registry) w = (Ok read, w')
    /\ commits = sort_by_date read.
Proof.
  unfold Publish.collect_commits_for_date, Publish.load_repos.
  destruct (Publish.chronicle_repos host) as [why|registry]; [discriminate|].
  unfold bind at 1, ret at 1. unfold bind at 1.
  fold (labelled registry).
  destruct (Publish.collect_from host target (labelled registry) w)
    as [[read|e] w1] eqn:Hrun; [|discriminate].
  intros [= <- <-]. by exists registry, read.
Qed.

(** X6. The commits [collect_commits_for_date] returns are those read from the
    logs, ordered by date (as strings), earliest first, and the commits of one
    date stay in the order in which they were read. *)
Theorem collected_commits_are_sorted_by_date
    (host : Publish.Host) (target : str) (w w' : world) (commits : list Commit) :
  Publish.collect_commits_for_date host target w = (Ok commits, w') ->
  exists (repos : list (str * str)) (read : list Commit),
    Publish.load_repos host w = (Ok repos, w)
    /\ Publish.collect_from host target repos w = (Ok read, w')
    /\ StronglySorted date_le commits
    /\ commits ≡ₚ read
    /\ forall day, dated day commits = dated day read.
Proof.
  intros Hrun.
  apply collect_commits_for_date_ok in Hrun as (registry & read & Hreg & Hrun & ->).
  eexists _, read. split; [|split; [exact Hrun|]].
  - unfold Publish.load_repos. by rewrite Hreg.
  - apply (sort_by_date_from read []). constructor.
Qed.

Lemma collected_commits_are_sorted_by_date_witness :
  exists (repos : list (str * str)) (read : list Commit),
    Publish.load_repos two_repo_host two_repo_world = (Ok repos, two_repo_world)
    /\ Publish.collect_from two_repo_host (py "2026-02-19") repos two_repo_world
       = (Ok read, snd (Publish.collect_commits_for_date two_repo_host (py "2026-02-19")
                          two_repo_world))
    /\ StronglySorted date_le
         (map (commit_of_entry (py "AustinsElite (Laravel 12)") (py "/srv/ae"))
            [ (py "0a1b2c3d", py "2026-02-19 09:00:00 -0600", py "fix: a");
              (py "4e5f6a7b", py "2026-02-19 10:00:00 -0600", py "feat: b") ])
    /\ map (commit_of_entry (py "AustinsElite (Laravel 12)") (py "/srv/ae"))
         [ (py "0a1b2c3d", py "2026-02-19 09:00:00 -0600", py "fix: a");
           (py "4e5f6a7b", py "2026-02-19 10:00:00 -0600", py "feat: b") ] ≡ₚ read
    /\ forall day,
         dated day
           (map (commit_of_entry (py "AustinsElite (Laravel 12)") (py "/srv/ae"))
              [ (py "0a1b2c3d", py "2026-02-19 09:00:00 -0600", py "fix: a");
                (py "4e5f6a7b", py "2026-02-19 10:00:00 -0600", py "feat: b") ])
         = dated day read.
Proof.
  apply (collected_commits_are_sorted_by_date two_repo_host (py "2026-02-19")
           two_repo_world).
  vm_compute. reflexivity.
Defined.

(** ** Where the collected commits come from *)

Lemma split_first_spec (c : N) (s before after : str) :
  split_first c s = Some (before, after) ->
  s = before ++ c :: after /\ Forall (fun d => d <> c) before.
Proof.
  revert before. induction s as [|d r IH]; intros before; [discriminate|].
  cbn [split_first]. destruct (N.eqb_spec d c) as [->|Hne].
  - intros [= <- <-]. by split.
  - destruct (split_first c r) as [[b a]|]; [|discriminate].
    intros [= <- <-]. destruct (IH b eq_refl) as [-> Hb].
    split; [reflexivity | by constructor].
Qed.

Lemma strip_no_bar (s : str) : no_bar s -> no_bar (strip s).
Proof.
  intros Hs. unfold strip, strip_by, no_bar in *.
  destruct (drop_while_suffix is_space s) as [k ->].
  destruct (drop_while_end_prefix is_space (drop k s)) as [j ->].
  by apply Forall_take, Forall_drop.
Qed.

Lemma commit_of_line_cases (project_name repo line : str) :
  Publish.commit_of_line project_name repo line = Raise ValueError
  \/ Publish.commit_of_line project_name repo line = Ok None
  \/ exists c, Publish.commit_of_line project_name repo line = Ok (Some c)
               /\ parsed_commit project_name repo c.
Proof.
  unfold Publish.commit_of_line.
  destruct (is_nil (strip line)); [by right; left|].
  destruct (split_first Publish.pipe line) as [[sha_ rest]|] eqn:E1; [|by right; left].
  destruct (split_first Publish.pipe rest) as [[date_ message_]|] eqn:E2; [|by left].
  right. right. eexists. split; [reflexivity|].
  apply split_first_spec in E1 as [_ Hsha], E2 as [_ Hdate].
  unfold parsed_commit, trimmed. cbn [project repo_path sha date message].
  repeat split; try apply strip_idem; by apply strip_no_bar.
Qed.

Lemma commits_of_lines_cases (project_name repo : str) (lines : list str) :
  (Publish.commits_of_lines project_name repo lines = Raise ValueError
   /\ exists line, line ∈ lines
        /\ Publish.commit_of_line project_name repo line = Raise ValueError)
  \/ exists cs, Publish.commits_of_lines project_name repo lines = Ok cs
                /\ Forall (parsed_commit project_name repo) cs.
Proof.
  induction lines as [|line rest IH]; [right; by exists []|].
  cbn [Publish.commits_of_lines].
  destruct (commit_of_line_cases project_name repo line)
    as [Hline | [Hline | (c & Hline & Hc)]]; rewrite Hline; cbn [bind_result].
  - left. split; [reflexivity|]. exists line. split; [by left | done].
  - destruct IH as [(-> & l & Hl & Hraise) | (cs & -> & Hcs)]; cbn [bind_result].
    + left. split; [reflexivity|]. exists l. split; [by right | done].
    + right. by exists cs.
  - destruct IH as [(-> & l & Hl & Hraise) | (cs & -> & Hcs)]; cbn [bind_result].
    + left. split; [reflexivity|]. exists l. split; [by right | done].
    + right. exists (c :: cs). split; [reflexivity | by constructor].
Qed.

Lemma run_cmd_world (cmd : list str) (w : world) :
  snd (Publish.run_cmd cmd w) = next_run (log (EvRun cmd) w).
Proof.
  unfold Publish.run_cmd.
  destruct (procs w (runs w)) as [rc out err|]; [destruct (rc =? 0)%Z|]; reflexivity.
Qed.

Lemma run_cmd_ok (cmd : list str) (w w' : world) (out : str) :
  Publish.run_cmd cmd w = (Ok out, w') ->
  exists err, procs w (runs w) = Exited 0 out err.
Proof.
  unfold Publish.run_cmd.
  destruct (procs w (runs w)) as [rc o err|]; [|discriminate].
  destruct (Z.eqb_spec rc 0) as [->|]; [|discriminate].
  intros [= <- _]. by exists err.
Qed.

(** The loop over the repositories: one log for each that is a directory, and
    no failure but that of a line with one bar only. *)
Lemma collect_from_cases (host : Publish.Host) (target : str) (repos : list (str * str)) :
  forall (w : world),
    let outcome := Publish.collect_from host target repos w in
    procs (snd outcome) = procs w
    /\ match fst outcome with
       | Ok read =>
           trace (snd outcome)
           = trace w ++ map (fun r => EvRun (Publish.git_log_cmd r.1 target))
                          (asked host repos)
           /\ runs (snd outcome) = (runs w + length (asked host repos))%nat
           /\ Forall (fun c => exists r, r ∈ repos /\ Publish.is_dir host r.1 = true
                                         /\ parsed_commit r.2 r.1 c) read
       | Raise e =>
           e = ValueError
           /\ exists (n : nat) (out err line : str) (r : str * str),
                procs w n = Exited 0 out err /\ line ∈ splitlines out
                /\ Publish.commit_of_line r.2 r.1 line = Raise ValueError
       end.
Proof.
  induction repos as [|[repo name] rest IH]; intros w; cbv zeta.
  - cbn. rewrite app_nil_r, Nat.add_0_r. by repeat split.
  - destruct (Publish.collect_from host target ((repo, name) :: rest) w)
      as [outcome w'] eqn:Hrun.
    cbn [Publish.collect_from] in Hrun. cbn [fst snd].
    unfold asked. rewrite filter_cons. cbn [fst].
    destruct (Publish.is_dir host repo) eqn:Edir; cbn [negb] in Hrun.
    2:{ rewrite decide_False by done.
        specialize (IH w). cbv zeta in IH. rewrite Hrun in IH. cbn [fst snd] in IH.
        destruct IH as [Hp IH]. split; [exact Hp|].
        destruct outcome as [read|e]; [|exact IH].
        destruct IH as (Ht & Hr & Hall). repeat split; [done..|].
        eapply Forall_impl; [exact Hall|]. intros c (r & Hin & Hd & Hc).
        exists r. split; [by right | done]. }
    rewrite decide_True by done.
    pose proof (run_cmd_world (Publish.git_log_cmd repo target) w) as Hw1.
    destruct (Publish.run_cmd (Publish.git_log_cmd repo target) w) as [out w1] eqn:Hcmd.
    cbn [snd] in Hw1.
    specialize (IH w1). cbv zeta in IH.
    destruct (Publish.collect_from host target rest w1) as [later w2] eqn:Hrest.
    cbn [fst snd] in IH. destruct IH as [Hprocs IH].
    assert (Hp2 : procs w2 = procs w) by (by rewrite Hprocs, Hw1).
    assert (Hgo : forall read, later = Ok read ->
              trace w2
              = trace w ++ map (fun r => EvRun (Publish.git_log_cmd r.1 target))
                             ((repo, name) :: asked host rest)
              /\ runs w2 = (runs w + length ((repo, name) :: asked host rest))%nat
              /\ Forall (fun c => exists r, r ∈ (repo, name) :: rest
                                    /\ Publish.is_dir host r.1 = true
                                    /\ parsed_commit r.2 r.1 c) read).
    { intros read ->. destruct IH as (Ht & Hr & Hall).
      rewrite Ht, Hr, Hw1. cbn [map length next_run log trace runs fst].
      rewrite <- app_assoc. split; [reflexivity|]. split; [lia|].
      eapply Forall_impl; [exact Hall|]. intros c (r & Hin & Hd & Hc).
      exists r. split; [by right | done]. }
    assert (Hlater : forall e, later = Raise e ->
              e = ValueError
              /\ exists (n : nat) (out err line : str) (r : str * str),
                   procs w n = Exited 0 out err /\ line ∈ splitlines out
                   /\ Publish.commit_of_line r.2 r.1 line = Raise ValueError).
    { intros e ->. destruct IH as (-> & n & o & err & line & r & Hn & Hmore).
      split; [reflexivity|]. exists n, o, err, line, r.
      rewrite Hw1 in Hn. by split. }
    destruct out as [out|e0].
    + unfold bind, lift, ret in Hrun.
      destruct (commits_of_lines_cases name repo (splitlines out))
        as [(Hhere & line & Hline & Hraise) | (here & Hhere & Hparsed)];
        rewrite Hhere in Hrun.
      * injection Hrun as <- <-. split; [by rewrite Hw1|]. split; [reflexivity|].
        apply run_cmd_ok in Hcmd as [err Hproc].
        by exists (runs w), out, err, line, (repo, name).
      * rewrite Hrest in Hrun. destruct later as [more|e]; injection Hrun as <- <-.
        -- split; [exact Hp2|]. destruct (Hgo more eq_refl) as (Ht & Hr & Hmore).
           split; [exact Ht|]. split; [exact Hr|]. apply Forall_app. split; [|exact Hmore].
           eapply Forall_impl; [exact Hparsed|]. intros c Hc.
           exists (repo, name). split; [by left | done].
        -- split; [exact Hp2|]. by apply Hlater.
    + injection Hrun as <- <-. split; [exact Hp2|].
      destruct later as [more|e]; [by apply Hgo | by apply Hlater].
Qed.

Lemma label_of_not_stale (name : str) :
  Publish.label_of Publish.PROJECT_LABEL_OVERRIDES name
  ∉ map fst Publish.PROJECT_LABEL_OVERRIDES.
Proof.
  unfold Publish.PROJECT_LABEL_OVERRIDES. cbn [Publish.label_of map fst].
  rewrite !elem_of_cons, elem_of_nil.
  destruct (decide (py "AustinsElite (Next.js)" = name)) as [<-|H1].
  { intros [Hin | [Hin | []]]; vm_compute in Hin; discriminate. }
  destruct (decide (py "AustinsElite (Legacy)" = name)) as [<-|H2].
  { intros [Hin | [Hin | []]]; vm_compute in Hin; discriminate. }
  intros [-> | [-> | []]]; done.
Qed.

Lemma split_first_none (c : N) (s : str) :
  split_first c s = None -> Forall (fun d => d <> c) s.
Proof.
  induction s as [|d r IH]; [constructor|]. cbn [split_first].
  destruct (N.eqb_spec d c) as [->|Hne]; [discriminate|].
  destruct (split_first c r) as [[b a]|]; [discriminate|].
  intros _. constructor; [done | by apply IH].
Qed.

Lemma commit_of_line_raises (project_name repo line : str) (e : exn) :
  Publish.commit_of_line project_name repo line = Raise e -> one_bar line.
Proof.
  unfold Publish.commit_of_line.
  destruct (is_nil (strip line)); [discriminate|].
  destruct (split_first Publish.pipe line) as [[sha_ rest]|] eqn:E1; [|discriminate].
  destruct (split_first Publish.pipe rest) as [[date_ message_]|] eqn:E2; [discriminate|].
  intros _. apply split_first_spec in E1 as [-> Hsha]. apply split_first_none in E2.
  by exists sha_, rest.
Qed.

Lemma from_read_to_registry (host : Publish.Host) (registry : list (str * str * str))
    (c : Commit) :
  Publish.chronicle_repos host = inr registry ->
  (exists r, r ∈ labelled registry
             /\ Publish.is_dir host r.1 = true /\ parsed_commit r.2 r.1 c) ->
  from_registry host c /\ project c ∉ map fst Publish.PROJECT_LABEL_OVERRIDES.
Proof.
  intros Hreg (r & Hin & Hdir & Hc).
  unfold labelled in Hin. apply list_elem_of_fmap in Hin as ([[path name] description] & -> & Hin).
  cbn [fst snd] in *. split.
  - by exists registry, path, name, description.
  - destruct Hc as (-> & _). apply label_of_not_stale.
Qed.

(** X7. Every commit [collect_commits_for_date] returns was read from the log
    of a repository of the registry whose path is a directory; it carries that
    path and the label the registry's name stands for, which is never one of
    the stale labels of [PROJECT_LABEL_OVERRIDES]; its hash, date and subject
    have no white space around them, and its hash and date hold no bar. *)
Theorem collected_commits_come_from_the_registry
    (host : Publish.Host) (target : str) (w w' : world) (commits : list Commit) :
  Publish.collect_commits_for_date host target w = (Ok commits, w') ->
  Forall (fun c => from_registry host c
                   /\ project c ∉ map fst Publish.PROJECT_LABEL_OVERRIDES) commits.
Proof.
  intros Hrun.
  apply collect_commits_for_date_ok in Hrun as (registry & read & Hreg & Hrun & ->).
  destruct (sort_by_date_from read [] (SSorted_nil _)) as (_ & Hperm & _).
  unfold sort_by_date. rewrite Hperm. cbn [app].
  pose proof (collect_from_cases host target (labelled registry) w) as Hcases. cbv zeta in Hcases.
  rewrite Hrun in Hcases. cbn [fst snd] in Hcases.
  destruct Hcases as (_ & _ & _ & Hall).
  eapply Forall_impl; [exact Hall|]. intros c Hc. by eapply from_read_to_registry.
Qed.

Lemma collected_commits_come_from_the_registry_witness :
  Forall (fun c => from_registry two_repo_host c
                   /\ project c ∉ map fst Publish.PROJECT_LABEL_OVERRIDES)
    (map (commit_of_entry (py "AustinsElite (Laravel 12)") (py "/srv/ae"))
       [ (py "0a1b2c3d", py "2026-02-19 09:00:00 -0600", py "fix: a");
         (py "4e5f6a7b", py "2026-02-19 10:00:00 -0600", py "feat: b") ]).
Proof.
  apply (collected_commits_come_from_the_registry two_repo_host (py "2026-02-19")
           two_repo_world
           (snd (Publish.collect_commits_for_date two_repo_host (py "2026-02-19")
                   two_repo_world))).
  vm_compute. reflexivity.
Defined.

(** X8. When [collect_commits_for_date] returns, it has asked one log of every
    repository of the registry whose path is a directory, in the registry's
    order and of no other, whatever the commands answered (a command that
    fails or cannot be started gives no commit and does not stop the loop);
    nothing else happened: no file changed and no request was sent. *)
Theorem one_log_for_each_tracked_directory
    (host : Publish.Host) (target : str) (w w' : world) (commits : list Commit) :
  Publish.collect_commits_for_date host target w = (Ok commits, w') ->
  exists repos : list (str * str),
    Publish.load_repos host w = (Ok repos, w)
    /\ trace w' = trace w ++ map (fun r => EvRun (Publish.git_log_cmd r.1 target))
                               (asked host repos)
    /\ runs w' = (runs w + length (asked host repos))%nat
    /\ files w' = files w
    /\ requests w' = requests w.
Proof.
  intros Hrun.
  pose proof (collect_commits_for_date_frame _ _ _ _ _ Hrun) as (Hf & Hq & _).
  apply collect_commits_for_date_ok in Hrun as (registry & read & Hreg & Hrun & ->).
  eexists. split; [unfold Publish.load_repos; by rewrite Hreg|].
  pose proof (collect_from_cases host target (labelled registry) w) as Hcases. cbv zeta in Hcases.
  rewrite Hrun in Hcases. cbn [fst snd] in Hcases.
  destruct Hcases as (_ & Ht & Hr & _). by repeat split.
Qed.

Lemma one_log_for_each_tracked_directory_witness :
  exists repos : list (str * str),
    Publish.load_repos two_repo_host two_repo_world = (Ok repos, two_repo_world)
    /\ trace (snd (Publish.collect_commits_for_date two_repo_host (py "2026-02-19")
                     two_repo_world))
       = trace two_repo_world
         ++ map (fun r => EvRun (Publish.git_log_cmd r.1 (py "2026-02-19")))
              (asked two_repo_host repos)
    /\ runs (snd (Publish.collect_commits_for_date two_repo_host (py "2026-02-19")
                    two_repo_world))
       = (runs two_repo_world + length (asked two_repo_host repos))%nat
    /\ files (snd (Publish.collect_commits_for_date two_repo_host (py "2026-02-19")
                     two_repo_world))
       = files two_repo_world
    /\ requests (snd (Publish.collect_commits_for_date two_repo_host (py "2026-02-19")
                        two_repo_world))
       = requests two_repo_world.
Proof.
  apply (one_log_for_each_tracked_directory two_repo_host (py "2026-02-19")
           two_repo_world _
           (map (commit_of_entry (py "AustinsElite (Laravel 12)") (py "/srv/ae"))
              [ (py "0a1b2c3d", py "2026-02-19 09:00:00 -0600", py "fix: a");
                (py "4e5f6a7b", py "2026-02-19 10:00:00 -0600", py "feat: b") ])).
  vm_compute. reflexivity.
Defined.

(** X9. [collect_commits_for_date] raises in two cases only: the registry of
    git-chronicle cannot be imported (nothing was run), or a command that
    succeeded printed a line that is not blank and has one bar exactly, which
    cannot be unpacked into hash, date and subject ([ValueError]).  A command
    that fails never makes it raise. *)
Theorem collection_raises_only_for_the_registry_or_a_line_with_one_bar
    (host : Publish.Host) (target : str) (w w' : world) (e : exn) :
  Publish.collect_commits_for_date host target w = (Raise e, w') ->
  (exists why, Publish.chronicle_repos host = inl why /\ e = import_failure why /\ w' = w)
  \/ (e = ValueError
      /\ exists (n : nat) (out err line : str),
           procs w n = Exited 0 out err /\ line ∈ splitlines out /\ one_bar line).
Proof.
  unfold Publish.collect_commits_for_date, Publish.load_repos.
  destruct (Publish.chronicle_repos host) as [why|registry].
  - intros [= <- <-]. left. by exists why.
  - unfold bind at 1, ret at 1. unfold bind at 1.
    fold (labelled registry).
    pose proof (collect_from_cases host target (labelled registry) w) as Hcases.
    cbv zeta in Hcases.
    destruct (Publish.collect_from host target (labelled registry) w)
      as [[read|e0] w1]; [discriminate|].
    intros [= <- <-]. right. cbn [fst snd] in Hcases.
    destruct Hcases as (_ & -> & n & out & err & line & r & Hn & Hline & Hraise).
    split; [reflexivity|]. exists n, out, err, line.
    split; [done|]. split; [done|]. by eapply commit_of_line_raises.
Qed.

Lemma collection_raises_only_for_the_registry_or_a_line_with_one_bar_witness :
  (exists why, Publish.chronicle_repos two_repo_host = inl why
               /\ ValueError = import_failure why
               /\ snd (Publish.collect_commits_for_date two_repo_host (py "2026-02-19")
                         one_bar_world) = one_bar_world)
  \/ (ValueError = ValueError
      /\ exists (n : nat) (out err line : str),
           procs one_bar_world n = Exited 0 out err /\ line ∈ splitlines out
           /\ one_bar line).
Proof.
  apply (collection_raises_only_for_the_registry_or_a_line_with_one_bar two_repo_host
           (py "2026-02-19") one_bar_world).
  vm_compute. reflexivity.
Defined.

(** ** The single-date flow: the existing post and the publication *)

Lemma starts_with_spec (prefix s : str) :
  starts_with prefix s = true <-> exists rest, s = prefix ++ rest.
Proof.
  split.
  - revert s. induction prefix as [|p prefix IH]; intros s Hs; [by exists s|].
    destruct s as [|c s]; [discriminate|]. cbn [starts_with] in Hs.
    apply andb_true_iff in Hs as [Hc Hs]. apply N.eqb_eq in Hc as ->.
    destruct (IH s Hs) as [rest ->]. by exists rest.
  - intros [rest ->]. apply starts_with_app.
Qed.

Lemma ends_with_spec (suffix s : str) :
  ends_with suffix s = true <-> exists init, s = init ++ suffix.
Proof.
  split.
  - induction s as [|c s IH]; cbn [ends_with].
    + destruct suffix; [|discriminate]. by exists [].
    + intros Hs. apply orb_true_iff in Hs as [Hs | Hs].
      * apply bool_decide_eq_true in Hs. exists []. by rewrite Hs.
      * destruct (IH Hs) as [init ->]. by exists (c :: init).
  - intros [init ->]. induction init as [|c init IH].
    + destruct suffix as [|c suffix]; [reflexivity|]. cbn [app ends_with].
      by rewrite bool_decide_eq_true_2.
    + cbn [app ends_with]. by rewrite IH, orb_true_r.
Qed.

(** The names the look-up keeps are those the glob matches. *)
Lemma is_post_for_spec (target name : str) :
  Publish.is_post_for target name = true <-> post_name target name.
Proof.
  unfold Publish.is_post_for, post_name.
  rewrite !andb_true_iff, starts_with_spec, ends_with_spec, Nat.leb_le. split.
  - intros [[[rest ->] [init Hinit]] Hlen].
    pose proof (f_equal length Hinit) as Hl.
    rewrite !length_app in Hlen. rewrite !length_app in Hl.
    change (length (py "-")) with 1%nat in *. change (length (py ".mdx")) with 4%nat in *.
    exists (take (length rest - 4) rest). rewrite <- !app_assoc. do 2 f_equal.
    rewrite <- (take_drop (length rest - 4) rest) at 1. f_equal.
    assert (Hdrop : drop (length init) ((target ++ py "-") ++ rest) = py ".mdx").
    { by rewrite Hinit, drop_app_length. }
    replace (length init) with (length (target ++ py "-") + (length rest - 4))%nat
      in Hdrop.
    2:{ rewrite length_app. change (length (py "-")) with 1%nat. lia. }
    by rewrite drop_app_add in Hdrop.
  - intros [middle ->]. split; [split|].
    + exists (middle ++ py ".mdx"). by rewrite <- !app_assoc.
    + exists (target ++ py "-" ++ middle). by rewrite <- !app_assoc.
    + rewrite !length_app. simpl. lia.
Qed.

Lemma first_sorted_spec (names : list str) :
  match Publish.first_sorted names with
  | Some best => best ∈ names /\ forall n, n ∈ names -> str_ltb n best = false
  | None => names = []
  end.
Proof.
  induction names as [|n rest IH]; [reflexivity|].
  cbn [Publish.first_sorted fold_right].
  change (fold_right _ None rest) with (Publish.first_sorted rest).
  destruct (Publish.first_sorted rest) as [b|].
  - destruct IH as [Hin Hmin]. destruct (str_ltb b n) eqn:E.
    + split; [by right|]. intros m Hm. apply elem_of_cons in Hm as [->|Hm].
      * by apply str_ltb_asym.
      * by apply Hmin.
    + split; [by left|]. intros m Hm. apply elem_of_cons in Hm as [->|Hm].
      * apply str_ltb_irrefl.
      * eapply str_ge_trans; [by apply Hmin | exact E].
  - subst rest. split; [by left|]. intros m Hm.
    apply elem_of_cons in Hm as [->|Hm]; [apply str_ltb_irrefl | by apply elem_of_nil in Hm].
Qed.

Lemma elem_of_file_names (w : world) (name : str) :
  name ∈ map fst (map_to_list (files w)) <-> is_Some (files w !! name).
Proof.
  rewrite list_elem_of_fmap. split.
  - intros [[n body] [-> Hin]]. apply elem_of_map_to_list in Hin. by exists body.
  - intros [body Hbody]. exists (name, body). split; [done|].
    by apply elem_of_map_to_list.
Qed.

(** X10. [existing_post_for_date] only looks: the world is as it was.  It
    finds the file of the blog directory whose name is the date, a hyphen,
    anything and the extension [.mdx] and that comes first by name, and
    nothing exactly when the directory holds no such file. *)
Theorem existing_post_is_the_first_by_name (target : str) (w : world) :
  exists found : option str,
    Publish.existing_post_for_date target w = (Ok found, w)
    /\ match found with
       | Some name =>
           is_Some (files w !! name) /\ post_name target name
           /\ forall other, is_Some (files w !! other) -> post_name target other ->
                            str_ltb other name = false
       | None => forall name, is_Some (files w !! name) -> ~ post_name target name
       end.
Proof.
  unfold Publish.existing_post_for_date.
  set (names := filter _ _). exists (Publish.first_sorted names).
  split; [reflexivity|].
  assert (Hnames : forall n, n ∈ names <-> is_Some (files w !! n) /\ post_name target n).
  { intros n. subst names. rewrite list_elem_of_filter, elem_of_file_names, is_post_for_spec.
    tauto. }
  pose proof (first_sorted_spec names) as Hfirst.
  destruct (Publish.first_sorted names) as [best|].
  - destruct Hfirst as [Hin Hmin]. apply Hnames in Hin as [Hfile Hname].
    split; [done|]. split; [done|]. intros other Hfile' Hname'.
    apply Hmin, Hnames. by split.
  - intros name Hfile Hname. assert (Hin : name ∈ names) by (by apply Hnames).
    rewrite Hfirst in Hin. by apply elem_of_nil in Hin.
Qed.

(** X11. With [dry_run], [git_commit_and_push] does nothing.  Otherwise it
    runs [git add], [git commit] and [git push] for the one path, in this
    order, and stops at the first of them that fails: it returns exactly when
    the three exited with status 0, and it touches no file and sends no
    request. *)
Theorem git_commit_and_push_stops_at_the_first_failure
    (path target : str) (dry : bool) (w : world) :
  let outcome := Publish.git_commit_and_push path target dry w in
  if dry then outcome = (Ok tt, w)
  else
    let succeeded :=
      length (take_while proc_ok [procs w (runs w); procs w (S (runs w));
                                  procs w (S (S (runs w)))]) in
    trace (snd outcome)
    = trace w ++ map EvRun (take (S succeeded) (publish_cmds path target))
    /\ runs (snd outcome) = (runs w + Nat.min 3 (S succeeded))%nat
    /\ files (snd outcome) = files w
    /\ requests (snd outcome) = requests w
    /\ (fst outcome = Ok tt <-> succeeded = 3%nat).
Proof.
  destruct dry; [reflexivity|]. cbv zeta.
  unfold Publish.git_commit_and_push, bind, Publish.run_cmd, ret, publish_cmds.
  cbn [procs runs next_run log take_while proc_ok].
  destruct (procs w (runs w)) as [rc1 o1 e1|]; cbn [proc_ok];
    [destruct (rc1 =? 0)%Z|];
    [| cbn; repeat split; try done; lia ..].
  cbn [procs runs next_run log].
  destruct (procs w (S (runs w))) as [rc2 o2 e2|]; cbn [proc_ok];
    [destruct (rc2 =? 0)%Z|];
    [| cbn; rewrite <- ?app_assoc; repeat split; try done; lia ..].
  cbn [procs runs next_run log].
  destruct (procs w (S (S (runs w)))) as [rc3 o3 e3|]; cbn [proc_ok];
    [destruct (rc3 =? 0)%Z|];
    cbn; rewrite <- ?app_assoc; repeat split; try done; lia.
Qed.

(** ** The single-date flow: what a run does *)

Lemma collect_from_logs (host : Publish.Host) (target : str) (repos : list (str * str)) :
  forall (w w' : world) (r : result (list Commit)),
    Publish.collect_from host target repos w = (r, w') ->
    exists evs, trace w' = trace w ++ evs /\ Forall (is_log_event target) evs.
Proof.
  induction repos as [|[repo name] rest IH]; intros w w' r Hrun.
  - injection Hrun as _ <-. exists []. by rewrite app_nil_r.
  - cbn [Publish.collect_from] in Hrun.
    destruct (Publish.is_dir host repo); cbn [negb] in Hrun; [|by eapply IH].
    destruct (Publish.run_cmd (Publish.git_log_cmd repo target) w) as [out w1] eqn:Hcmd.
    apply run_cmd_frame in Hcmd as (_ & _ & Ht1).
    assert (Hgo : forall r0 w0,
              Publish.collect_from host target rest w1 = (r0, w0) ->
              exists evs, trace w0 = trace w ++ evs /\ Forall (is_log_event target) evs).
    { intros r0 w0 Hrest. apply IH in Hrest as (evs & Ht & Hevs).
      exists (EvRun (Publish.git_log_cmd repo target) :: evs).
      split; [|constructor; [by exists repo | done]].
      rewrite Ht, Ht1, <- app_assoc. reflexivity. }
    destruct out as [out|e]; [|by eapply Hgo].
    unfold bind at 1, lift at 1 in Hrun.
    destruct (Publish.commits_of_lines name repo (splitlines out)) as [here|e].
    + unfold bind at 1 in Hrun.
      destruct (Publish.collect_from host target rest w1) as [[more|e] w2] eqn:Hrest;
        injection Hrun as _ <-; by eapply Hgo.
    + injection Hrun as _ <-.
      exists [EvRun (Publish.git_log_cmd repo target)]. split; [done|].
      constructor; [by exists repo | done].
Qed.

Lemma collect_commits_for_date_logs (host : Publish.Host) (target : str)
    (w w' : world) (r : result (list Commit)) :
  Publish.collect_commits_for_date host target w = (r, w') ->
  files w' = files w /\ requests w' = requests w
  /\ exists evs, trace w' = trace w ++ evs /\ Forall (is_log_event target) evs.
Proof.
  intros Hrun.
  pose proof (collect_commits_for_date_frame _ _ _ _ _ Hrun) as (Hf & Hq & _).
  split; [done|]. split; [done|]. revert Hrun.
  unfold Publish.collect_commits_for_date, Publish.load_repos.
  destruct (Publish.chronicle_repos host) as [why|repos].
  - intros [= _ <-]. exists []. by rewrite app_nil_r.
  - unfold bind, ret.
    destruct (Publish.collect_from host target _ w) as [[commits|e] w1] eqn:Hrun;
      intros [= _ <-]; by eapply collect_from_logs.
Qed.

Lemma existing_post_found (target middle body : str) (w : world) :
  files w !! (target ++ py "-" ++ middle ++ py ".mdx") = Some body ->
  exists old, Publish.existing_post_for_date target w = (Ok (Some old), w).
Proof.
  intros Hfile. unfold Publish.existing_post_for_date.
  set (names := filter _ _).
  assert (Hin : target ++ py "-" ++ middle ++ py ".mdx" ∈ names).
  { subst names. rewrite list_elem_of_filter, elem_of_file_names, is_post_for_spec.
    split; [by exists middle | by exists body]. }
  pose proof (first_sorted_spec names) as Hfirst.
  destruct (Publish.first_sorted names) as [best|]; [by exists best|].
  rewrite Hfirst in Hin. by apply elem_of_nil in Hin.
Qed.

Section PublishRun.
Context `{Runtime}.

(** X12. When the blog directory holds a post for the target date and
    overwrite was not asked, [main] ends with status 0 and has done nothing:
    no command was run, no request sent, no file touched. *)
Theorem existing_post_skips_the_run
    (host : Publish.Host) (args : Publish.Namespace) (w : world) (middle body : str) :
  files w !! (Publish.target_date args ++ py "-" ++ middle ++ py ".mdx") = Some body ->
  Publish.overwrite args = false ->
  Publish.main host args w = (Ok 0%Z, w).
Proof.
  intros Hfile Hov. apply existing_post_found in Hfile as [old Hfound].
  unfold Publish.main, bind at 1. rewrite Hfound, Hov. reflexivity.
Qed.

(** X13. A dry run sends no request and changes no file: all it does is ask
    logs of the tracked repositories for the target date, and when it returns
    its status is 0. *)
Theorem dry_run_only_reads_the_logs
    (host : Publish.Host) (args : Publish.Namespace) (w w' : world) (r : result Z) :
  Publish.dry_run args = true ->
  Publish.main host args w = (r, w') ->
  files w' = files w
  /\ requests w' = requests w
  /\ (exists evs, trace w' = trace w ++ evs
                  /\ Forall (is_log_event (Publish.target_date args)) evs)
  /\ forall status, r = Ok status -> status = 0%Z.
Proof.
  intros Hdry. unfold Publish.main, bind at 1, Publish.existing_post_for_date at 1.
  destruct (bool_decide _ && negb (Publish.overwrite args)).
  { intros [= <- <-]. repeat split; [exists []; by rewrite app_nil_r | by intros ? [= <-]]. }
  unfold bind at 1.
  destruct (Publish.collect_commits_for_date host (Publish.target_date args) w)
    as [[commits|e] w1] eqn:Hcollect;
    apply collect_commits_for_date_logs in Hcollect as (Hf & Hq & Hevs).
  - rewrite Hdry. destruct (is_nil commits); intros [= <- <-];
      (repeat split; [done | done | done | by intros ? [= <-]]).
  - intros [= <- <-]. repeat split; [done | done | done | discriminate].
Qed.

End PublishRun.

Lemma existing_post_skips_the_run_witness :
  @Publish.main ascii_runtime sample_host (sample_publish_args false)
    (publish_world {[ py "2026-02-19-old.mdx" := py "old" ]} [])
  = (Ok 0%Z, publish_world {[ py "2026-02-19-old.mdx" := py "old" ]} []).
Proof.
  apply (@existing_post_skips_the_run ascii_runtime sample_host (sample_publish_args false)
           (publish_world {[ py "2026-02-19-old.mdx" := py "old" ]} [])
           (py "old") (py "old")).
  - reflexivity.
  - reflexivity.
Defined.

Lemma dry_run_only_reads_the_logs_witness :
  files (snd (@Publish.main ascii_runtime sample_host dry_publish_args
                (publish_world {[ py "2026-02-19-old.mdx" := py "old" ]} [])))
  = files (publish_world {[ py "2026-02-19-old.mdx" := py "old" ]} [])
  /\ requests (snd (@Publish.main ascii_runtime sample_host dry_publish_args
                      (publish_world {[ py "2026-02-19-old.mdx" := py "old" ]} [])))
     = requests (publish_world {[ py "2026-02-19-old.mdx" := py "old" ]} [])
  /\ (exists evs,
        trace (snd (@Publish.main ascii_runtime sample_host dry_publish_args
                      (publish_world {[ py "2026-02-19-old.mdx" := py "old" ]} [])))
        = trace (publish_world {[ py "2026-02-19-old.mdx" := py "old" ]} []) ++ evs
        /\ Forall (is_log_event (Publish.target_date dry_publish_args)) evs)
  /\ forall status,
       fst (@Publish.main ascii_runtime sample_host dry_publish_args
              (publish_world {[ py "2026-02-19-old.mdx" := py "old" ]} []))
       = Ok status -> status = 0%Z.
Proof.
  apply (@dry_run_only_reads_the_logs ascii_runtime sample_host dry_publish_args
           (publish_world {[ py "2026-02-19-old.mdx" := py "old" ]} [])).
  - reflexivity.
  - vm_compute. reflexivity.
Defined.

Lemma git_commit_and_push_frame (path target : str) (dry : bool) (w w' : world)
    (r : result unit) :
  Publish.git_commit_and_push path target dry w = (r, w') ->
  files w' = files w /\ requests w' = requests w
  /\ exists evs, trace w' = trace w ++ evs /\ Forall is_run_event evs.
Proof.
  unfold Publish.git_commit_and_push. destruct dry.
  { intros [= _ <-]. repeat split. exists []. by rewrite app_nil_r. }
  unfold bind at 1.
  destruct (Publish.run_cmd _ w) as [r1 w1] eqn:H1.
  apply run_cmd_frame in H1 as (Hf1 & Hq1 & Ht1).
  destruct r1 as [o1|e1].
  2:{ intros [= _ <-]. repeat split; [done..|]. eexists. split; [exact Ht1|].
      by repeat constructor. }
  unfold bind at 1.
  destruct (Publish.run_cmd _ w1) as [r2 w2] eqn:H2.
  apply run_cmd_frame in H2 as (Hf2 & Hq2 & Ht2).
  destruct r2 as [o2|e2].
  2:{ intros [= _ <-]. repeat split; [congruence..|]. eexists. split.
      - rewrite Ht2, Ht1, <- app_assoc. reflexivity.
      - by repeat constructor. }
  unfold bind at 1.
  destruct (Publish.run_cmd _ w2) as [r3 w3] eqn:H3.
  apply run_cmd_frame in H3 as (Hf3 & Hq3 & Ht3).
  assert (Hend : files w3 = files w /\ requests w3 = requests w
                 /\ exists evs, trace w3 = trace w ++ evs /\ Forall is_run_event evs).
  { repeat split; [congruence..|]. eexists. split.
    - rewrite Ht3, Ht2, Ht1, <- !app_assoc. reflexivity.
    - by repeat constructor. }
  destruct r3 as [o3|e3]; by intros [= _ <-].
Qed.

Section PublishEffects.
Context `{Runtime}.

(** What [main] does with a decoded reply: it raises and leaves the world as
    it was, or it makes the directory, deletes the post it replaces, writes
    the new post and runs the publication. *)
Lemma publish_persist_reply_cases (existing : option str) (args : Publish.Namespace)
    (parsed : json) (w : world) :
  fails_unchanged (Publish.persist_reply existing args parsed) w
  \/ exists (title0 excerpt0 content : str),
       Publish.stripped_text (py "title") parsed = Ok title0
       /\ Publish.stripped_text (py "excerpt") parsed = Ok excerpt0
       /\ Publish.stripped_text (py "content") parsed = Ok content
       /\ content <> []
       /\ let target := Publish.target_date args in
          let title := or_else title0 (Publish.placeholder_title target) in
          let path := target ++ py "-" ++ slugify title ++ py ".mdx" in
          let doc :=
            mdx_body target title (or_else excerpt0 title)
              (normalize_tags Publish.fallback_tags
                 (match parsed with JObj d => dict_get (py "tags") d | _ => None end))
              (Publish.author args) content in
          let old := replaced existing (Publish.overwrite args) in
          exists w1,
            files w1 = <[path := doc]> (without old (files w))
            /\ requests w1 = requests w
            /\ trace w1 = trace w ++ EvMkdir :: removal old ++ [EvWrite path doc]
            /\ Publish.persist_reply existing args parsed w
               = (let '(r, w2) := Publish.git_commit_and_push path target
                                    (Publish.dry_run args) w1 in
                  (match r with Ok _ => Ok 0%Z | Raise e => Raise e end, w2)).
Proof.
  unfold fails_unchanged, Publish.persist_reply, bind, lift, raise.
  destruct (Publish.stripped_text (py "title") parsed) as [title0|e]; [|left; by eexists].
  destruct (Publish.stripped_text (py "excerpt") parsed) as [excerpt0|e];
    [|left; by eexists].
  destruct (Publish.stripped_text (py "content") parsed) as [content|e];
    [|left; by eexists].
  destruct content as [|c content]; [left; by eexists|].
  right. exists title0, excerpt0, (c :: content).
  split; [done|]. split; [done|]. split; [done|]. split; [done|]. cbv zeta.
  cbn [is_nil]. unfold mkdir_blog_dir, write_mdx, write_text.
  destruct existing as [old0|]; [destruct (Publish.overwrite args)|];
    cbn [replaced removal without]; unfold unlink, ret;
    match goal with
    | |- context [Publish.git_commit_and_push _ _ _ ?w1] => exists w1
    end;
    (split; [reflexivity|]); (split; [reflexivity|]);
    (split; [cbn [set_files log trace]; by rewrite <- ?app_assoc|]);
    destruct (Publish.git_commit_and_push _ _ _ _) as [[[]|e] w2]; reflexivity.
Qed.

End PublishEffects.

Lemma outside_of_run (evs : list event) :
  Forall is_run_event evs -> Forall is_outside_event evs.
Proof. intros Hevs. eapply Forall_impl; [exact Hevs|]. intros ev Hev. by left. Qed.

Lemma outside_of_net (evs : list event) :
  Forall is_net_event evs -> Forall is_outside_event evs.
Proof. intros Hevs. eapply Forall_impl; [exact Hevs|]. intros ev Hev. by right. Qed.

Section PublishMain.
Context `{Runtime}.

(** X14. A run of [main] changes the blog directory in one way only: by
    writing the new post, after the directory was made and the post it
    replaces (with overwrite) deleted, the deletion coming right before the
    write.  Until then (the look-up, the logs, the credential, the exchange
    with the service, the decoding, the validation) nothing is touched, so a
    run that fails there leaves the directory as it was, the existing post
    included; after the write only commands are run. *)
Theorem publish_changes_the_directory_only_by_writing_the_post
    (host : Publish.Host) (args : Publish.Namespace) (w w' : world) (r : result Z) :
  Publish.main host args w = (r, w') ->
  exists evs,
    trace w' = trace w ++ evs
    /\ ((files w' = files w /\ Forall is_outside_event evs)
        \/ exists (found : option str) (before : list event) (path doc : str)
                  (after : list event),
             Publish.existing_post_for_date (Publish.target_date args) w = (Ok found, w)
             /\ evs = before
                      ++ EvMkdir :: removal (replaced found (Publish.overwrite args))
                      ++ EvWrite path doc :: after
             /\ Forall is_outside_event before
             /\ Forall is_run_event after
             /\ files w'
                = <[path := doc]> (without (replaced found (Publish.overwrite args))
                                     (files w))
             /\ post_name (Publish.target_date args) path).
Proof.
  unfold Publish.main, bind at 1.
  destruct (Publish.existing_post_for_date (Publish.target_date args) w)
    as [found0 w0] eqn:Hfound.
  assert (Hw0 : exists found, found0 = Ok found /\ w0 = w).
  { unfold Publish.existing_post_for_date in Hfound. injection Hfound as <- <-.
    by eexists. }
  destruct Hw0 as (found & -> & ->).
  assert (Hquiet : forall evs, trace w' = trace w ++ evs -> files w' = files w ->
            Forall is_outside_event evs ->
            exists evs0, trace w' = trace w ++ evs0
              /\ ((files w' = files w /\ Forall is_outside_event evs0)
                  \/ exists (found1 : option str) (before : list event) (path doc : str)
                            (after : list event),
                       (Ok found, w) = (Ok found1, w)
                       /\ evs0 = before
                            ++ EvMkdir :: removal (replaced found1 (Publish.overwrite args))
                            ++ EvWrite path doc :: after
                       /\ Forall is_outside_event before
                       /\ Forall is_run_event after
                       /\ files w'
                          = <[path := doc]>
                              (without (replaced found1 (Publish.overwrite args)) (files w))
                       /\ post_name (Publish.target_date args) path)).
  { intros evs Ht Hf Hevs. exists evs. split; [done|]. by left. }
  destruct (bool_decide (is_Some found) && negb (Publish.overwrite args)).
  { intros [= <- <-]. apply (Hquiet []); [by rewrite app_nil_r | done | done]. }
  unfold bind at 1.
  destruct (Publish.collect_commits_for_date host (Publish.target_date args) w)
    as [commits w1] eqn:Hcollect.
  apply collect_commits_for_date_frame in Hcollect as (Hf1 & Hq1 & evs1 & Ht1 & Hevs1).
  apply outside_of_run in Hevs1.
  destruct commits as [commits|e]; [|intros [= <- <-]; by apply (Hquiet evs1)].
  destruct (is_nil commits); [intros [= <- <-]; by apply (Hquiet evs1)|].
  destruct (Publish.dry_run args) eqn:Hdry; [intros [= <- <-]; by apply (Hquiet evs1)|].
  unfold bind at 1, Publish.load_api_key at 1.
  destruct (Publish.api_key host) as [key|]; [|intros [= <- <-]; by apply (Hquiet evs1)].
  unfold ret at 1. unfold bind at 1.
  destruct (Publish.call_openrouter _ _ _ w1) as [raw w2] eqn:Hcall.
  unfold Publish.call_openrouter in Hcall.
  apply attempt_loop_frame in Hcall as (Hf2 & _ & evs2 & Ht2 & Hevs2).
  apply outside_of_net in Hevs2.
  assert (Hbefore : trace w2 = trace w ++ evs1 ++ evs2 /\ files w2 = files w
                    /\ Forall is_outside_event (evs1 ++ evs2)).
  { split; [by rewrite Ht2, Ht1, <- app_assoc|]. split; [congruence|].
    by apply Forall_app. }
  destruct Hbefore as (Ht & Hf & Hevs).
  destruct raw as [raw|e]; [|intros [= <- <-]; by apply (Hquiet (evs1 ++ evs2))].
  unfold bind at 1, lift at 1.
  destruct (parse_json_response raw) as [parsed|e];
    [|intros [= <- <-]; by apply (Hquiet (evs1 ++ evs2))].
  destruct (publish_persist_reply_cases found args parsed w2)
    as [[e He] | (title0 & excerpt0 & content & _ & _ & _ & _ & Hwrite)].
  { rewrite He. intros [= <- <-]. by apply (Hquiet (evs1 ++ evs2)). }
  cbv zeta in Hwrite. destruct Hwrite as (w3 & Hf3 & _ & Ht3 & ->).
  destruct (Publish.git_commit_and_push _ _ _ w3) as [r4 w4] eqn:Hgit.
  apply git_commit_and_push_frame in Hgit as (Hf4 & _ & evs4 & Ht4 & Hevs4).
  intros [= _ <-].
  eexists. split; [rewrite Ht4, Ht3, Ht; rewrite <- !app_assoc; reflexivity|].
  right. eexists found, (evs1 ++ evs2), _, _, evs4.
  split; [reflexivity|]. split.
  { rewrite <- !app_assoc. cbn [app]. rewrite <- !app_assoc. reflexivity. }
  split; [done|]. split; [done|]. split; [by rewrite Hf4, Hf3, Hf|].
  eexists. reflexivity.
Qed.

End PublishMain.

Lemma publish_changes_the_directory_only_by_writing_the_post_witness :
  exists evs,
    trace (snd sample_publish_run)
    = trace (publish_world {[ py "2026-02-19-old.mdx" := py "old" ]} sample_completion)
      ++ evs
    /\ ((files (snd sample_publish_run)
         = files (publish_world {[ py "2026-02-19-old.mdx" := py "old" ]} sample_completion)
         /\ Forall is_outside_event evs)
        \/ exists (found : option str) (before : list event) (path doc : str)
                  (after : list event),
             Publish.existing_post_for_date
               (Publish.target_date (sample_publish_args true))
               (publish_world {[ py "2026-02-19-old.mdx" := py "old" ]} sample_completion)
             = (Ok found,
                publish_world {[ py "2026-02-19-old.mdx" := py "old" ]} sample_completion)
             /\ evs = before
                      ++ EvMkdir
                         :: removal (replaced found
                                       (Publish.overwrite (sample_publish_args true)))
                      ++ EvWrite path doc :: after
             /\ Forall is_outside_event before
             /\ Forall is_run_event after
             /\ files (snd sample_publish_run)
                = <[path := doc]>
                    (without (replaced found (Publish.overwrite (sample_publish_args true)))
                       (files (publish_world {[ py "2026-02-19-old.mdx" := py "old" ]}
                                 sample_completion)))
             /\ post_name (Publish.target_date (sample_publish_args true)) path).
Proof.
  apply (@publish_changes_the_directory_only_by_writing_the_post ascii_runtime sample_host
           (sample_publish_args true)
           (publish_world {[ py "2026-02-19-old.mdx" := py "old" ]} sample_completion)
           (snd sample_publish_run) (fst sample_publish_run)).
  vm_compute. reflexivity.
Defined.

(** ** The posts the flows write *)


Section WrittenPosts.
Context `{Runtime}.



Lemma usable_tags_filled (l : list json) : Forall filled (usable_tags l).
Proof.
  unfold usable_tags. induction l as [|v l IH]; [constructor|].
  cbn [map]. rewrite filter_cons.
  destruct (decide (is_nil (strip (py_str v)) = false)) as [Hv|_]; [|exact IH].
  constructor; [|exact IH]. split; [by destruct (strip (py_str v))|].
  apply strip_idem.
Qed.

Lemma kept_tags_filled (tags : option json) : Forall filled (kept_tags tags).
Proof.
  destruct tags as [[|b|n|x|s|l|d]|]; cbn [kept_tags]; try constructor.
  apply usable_tags_filled.
Qed.

(** The normalized tags: three to six, none blank, none with white space
    around it. *)
Lemma normalize_tags_filled (f : flow) (tags : option json) :
  (3 <= length (normalize_tags (fallback_tags_of f) tags) <= 6)%nat
  /\ Forall filled (normalize_tags (fallback_tags_of f) tags).
Proof.
  rewrite normalize_tags_kept.
  assert (Hfb : length (fallback_tags_of f) = 3%nat /\ Forall filled (fallback_tags_of f)).
  { destruct f; (split; [reflexivity|]); repeat constructor; discriminate. }
  destruct Hfb as [Hlen Hfb].
  pose proof (kept_tags_filled tags) as Hkept.
  destruct (Nat.ltb_spec (length (take 6 (kept_tags tags))) 3) as [Hlt|Hge].
  - split.
    + rewrite length_take, length_app, Hlen. lia.
    + apply Forall_take, Forall_app. split; [by apply Forall_take | done].
  - split; [|by apply Forall_take]. split; [done|]. rewrite length_take. lia.
Qed.





End WrittenPosts.



(** ** Tag normalization, once more *)

Section TagsAgain.
Context `{Runtime}.

Lemma map_strip_filled (ts : list str) : Forall filled ts -> map strip ts = ts.
Proof.
  induction 1 as [|t ts [_ Ht] _ IH]; [reflexivity|].
  cbn [map]. by rewrite Ht, IH.
Qed.

(** X17. The normalized tags are never blank and have no white space around
    them, and normalizing them again changes nothing: a reply whose tags are
    the normalized ones gets these very tags. *)
Theorem normalize_tags_is_idempotent (f : flow) (tags : option json) :
  let result := normalize_tags (fallback_tags_of f) tags in
  Forall filled result
  /\ normalize_tags (fallback_tags_of f) (Some (JArr (map JStr result))) = result.
Proof.
  cbv zeta. destruct (normalize_tags_filled f tags) as [Hlen Hfilled].
  split; [exact Hfilled|].
  set (result := normalize_tags (fallback_tags_of f) tags) in *.
  rewrite normalize_tags_kept. cbn [kept_tags].
  rewrite usable_tags_of_strings.
  2:{ eapply Forall_impl; [exact Hfilled|]. intros t [Hne Ht]. by rewrite Ht. }
  rewrite (map_strip_filled _ Hfilled), take_ge by lia.
  destruct (Nat.ltb_spec (length result) 3) as [Hlt|_]; [lia | reflexivity].
Qed.

End TagsAgain.

(** ** The posts that exist, by date *)

Section PostsByDate.
Variable is_decimal : N -> bool.

Lemma date_prefix_spec (name day : str) :
  Posts.date_prefix is_decimal name = Some day
  <-> date_shaped is_decimal day = true /\ exists rest, name = day ++ py "-" ++ rest.
Proof.
  split.
  - destruct name as [|y1 [|y2 [|y3 [|y4 [|h1 [|m1 [|m2 [|h2 [|d1 [|d2 [|h3 rest]]]]]]]]]]];
      try discriminate.
    cbn [Posts.date_prefix].
    destruct (is_decimal y1 && is_decimal y2 && is_decimal y3 && is_decimal y4
              && is_hyphen h1 && is_decimal m1 && is_decimal m2
              && is_hyphen h2 && is_decimal d1 && is_decimal d2) eqn:E;
      cbn [andb]; [|discriminate].
    destruct (is_hyphen h3) eqn:E3; [|discriminate]. intros [= <-].
    split; [exact E|]. exists rest. apply N.eqb_eq in E3. by subst h3.
  - intros [Hshape [rest ->]].
    destruct day as [|y1 [|y2 [|y3 [|y4 [|h1 [|m1 [|m2 [|h2 [|d1 [|d2 [|x day]]]]]]]]]]];
      try discriminate.
    cbn [date_shaped] in Hshape. cbn [app Posts.date_prefix py].
    cbn. cbn in Hshape. by rewrite Hshape.
Qed.

(** A dated name with the extension has something, or nothing, between the
    two. *)
Lemma dated_mdx_is_post_name (day name : str) :
  Posts.date_prefix is_decimal name = Some day ->
  ends_with (py ".mdx") name = true ->
  post_name day name.
Proof.
  intros Hprefix Hext. apply is_post_for_spec. unfold Publish.is_post_for.
  apply date_prefix_spec in Hprefix as [Hshape [rest ->]].
  rewrite Hext, andb_true_r. apply andb_true_iff. split.
  { apply starts_with_spec. exists rest. by rewrite <- app_assoc. }
  apply Nat.leb_le. apply ends_with_spec in Hext as [init Hinit].
  destruct day as [|y1 [|y2 [|y3 [|y4 [|h1 [|m1 [|m2 [|h2 [|d1 [|d2 [|x day]]]]]]]]]]];
    try discriminate.
  rewrite !length_app. cbn [length py]. simpl.
  destruct rest as [|r1 [|r2 [|r3 [|r4 rest]]]]; [exfalso..|simpl; lia].
  all: destruct init as [|i1 [|i2 [|i3 [|i4 [|i5 [|i6 [|i7 [|i8 [|i9 [|i10 [|i11 [|i12
         init]]]]]]]]]]]]; try discriminate Hinit.
  all: try (apply (f_equal length) in Hinit; simpl in Hinit;
            rewrite ?length_app in Hinit; simpl in Hinit; lia).
Qed.

Lemma post_name_is_dated (day name : str) :
  date_shaped is_decimal day = true ->
  post_name day name ->
  Posts.date_prefix is_decimal name = Some day /\ ends_with (py ".mdx") name = true.
Proof.
  intros Hshape [middle ->]. split.
  - apply date_prefix_spec. split; [done|]. by exists (middle ++ py ".mdx").
  - apply ends_with_spec. exists (day ++ py "-" ++ middle). by rewrite <- !app_assoc.
Qed.

Lemma posts_of_add_post (out : gmap str (list str)) (name day : str) :
  posts_of (Posts.add_post is_decimal out name) day
  = if decide (Posts.date_prefix is_decimal name = Some day)
    then posts_of out day ++ [name]
    else posts_of out day.
Proof.
  unfold Posts.add_post, posts_of.
  destruct (Posts.date_prefix is_decimal name) as [d|]; [|by rewrite decide_False].
  destruct (decide (d = day)) as [->|Hne].
  - by rewrite lookup_insert_eq, decide_True.
  - rewrite lookup_insert_ne by done. rewrite decide_False; [done | congruence].
Qed.

Lemma fold_add_post_elem (names : list str) :
  forall (out : gmap str (list str)) (day name : str),
    name ∈ posts_of (fold_left (Posts.add_post is_decimal) names out) day
    <-> name ∈ posts_of out day
        \/ (name ∈ names /\ Posts.date_prefix is_decimal name = Some day).
Proof.
  induction names as [|n names IH]; intros out day name; cbn [fold_left].
  - rewrite elem_of_nil. tauto.
  - rewrite IH, posts_of_add_post, elem_of_cons.
    destruct (decide (Posts.date_prefix is_decimal n = Some day)) as [Hn|Hn].
    + rewrite elem_of_app, list_elem_of_singleton. split.
      * intros [[? | ->] | [? ?]]; tauto.
      * intros [? | [[-> | ?] ?]]; tauto.
    + split; [tauto|]. intros [? | [[-> | ?] ?]]; tauto.
Qed.

Lemma fold_add_post_nodup (names : list str) :
  forall (out : gmap str (list str)),
    NoDup names ->
    (forall day, NoDup (posts_of out day)) ->
    (forall day name, name ∈ posts_of out day -> name ∉ names) ->
    forall day, NoDup (posts_of (fold_left (Posts.add_post is_decimal) names out) day).
Proof.
  induction names as [|n names IH]; intros out Hnames Hout Hfresh day; cbn [fold_left];
    [apply Hout|].
  apply NoDup_cons in Hnames as [Hn Hnames].
  apply IH; [done | |].
  - intros d. rewrite posts_of_add_post. destruct (decide _) as [_|_]; [|apply Hout].
    apply NoDup_app. split; [apply Hout|]. split; [|apply NoDup_singleton].
    intros x Hx Hxn. apply list_elem_of_singleton in Hxn as ->.
    apply (Hfresh d n Hx). by left.
  - intros d x. rewrite posts_of_add_post. destruct (decide _) as [_|_].
    + rewrite elem_of_app, list_elem_of_singleton. intros [Hx | ->]; [|done].
      intros Hin. apply (Hfresh d x Hx). by right.
    + intros Hx Hin. apply (Hfresh d x Hx). by right.
Qed.

Lemma fold_add_post_keys (names : list str) :
  forall (out : gmap str (list str)),
    (forall day, is_Some (out !! day) -> posts_of out day <> []) ->
    forall day, is_Some (fold_left (Posts.add_post is_decimal) names out !! day) ->
                posts_of (fold_left (Posts.add_post is_decimal) names out) day <> [].
Proof.
  induction names as [|n names IH]; intros out Hout; cbn [fold_left]; [exact Hout|].
  apply IH. intros day. unfold Posts.add_post.
  destruct (Posts.date_prefix is_decimal n) as [d|] eqn:Ed; [|apply Hout].
  unfold posts_of. destruct (decide (d = day)) as [->|Hne].
  - rewrite lookup_insert_eq. intros _. cbn [default]. by destruct (default [] (out !! day)).
  - rewrite lookup_insert_ne by done. apply Hout.
Qed.

(** The posts listed for a day. *)
Lemma existing_posts_by_date_elem (w w' : world) (out : gmap str (list str)) :
  Posts.existing_posts_by_date is_decimal w = (Ok out, w') ->
  w' = w
  /\ forall day name,
        name ∈ posts_of out day
        <-> date_shaped is_decimal day = true
            /\ is_Some (files w !! name) /\ post_name day name.
Proof.
  unfold Posts.existing_posts_by_date. set (names := filter _ _).
  intros [= <- <-]. split; [reflexivity|].
  assert (Hnames : forall n, n ∈ names
            <-> is_Some (files w !! n) /\ ends_with (py ".mdx") n = true).
  { intros n. subst names. rewrite list_elem_of_filter, elem_of_file_names. tauto. }
  intros day name. rewrite fold_add_post_elem, Hnames.
  unfold posts_of at 1. rewrite lookup_empty. cbn [default]. rewrite elem_of_nil.
  split.
  - intros [[] | [[Hfile Hext] Hprefix]].
    split; [by apply date_prefix_spec in Hprefix as [? _]|].
    split; [done|]. by apply dated_mdx_is_post_name.
  - intros (Hshape & Hfile & Hname). right.
    destruct (post_name_is_dated day name Hshape Hname) as [Hprefix Hext]. tauto.
Qed.

(** X18. [existing_posts_by_date] only looks (the world is as it was).  The
    posts it lists for a day are the files of the blog directory whose name is
    the day (four digits, two digits and two digits with hyphens between), a
    hyphen, anything and the extension [.mdx]: the very names the single-date
    flow looks for.  Each is listed once, a date is a key exactly when some
    post is listed for it, and nothing is listed for a key that does not have
    the shape of a date. *)
Theorem existing_posts_are_the_dated_files (w : world) :
  exists out : gmap str (list str),
    Posts.existing_posts_by_date is_decimal w = (Ok out, w)
    /\ (forall day name,
          name ∈ posts_of out day
          <-> date_shaped is_decimal day = true
              /\ is_Some (files w !! name) /\ post_name day name)
    /\ (forall day name,
          date_shaped is_decimal day = true ->
          (name ∈ posts_of out day
           <-> is_Some (files w !! name) /\ Publish.is_post_for day name = true))
    /\ (forall day, is_Some (out !! day) <-> posts_of out day <> [])
    /\ (forall day, NoDup (posts_of out day)).
Proof.
  destruct (Posts.existing_posts_by_date is_decimal w) as [r w'] eqn:Hrun.
  assert (Hout : exists out, r = Ok out
            /\ out = fold_left (Posts.add_post is_decimal)
                       (filter (fun n => ends_with (py ".mdx") n = true)
                               (map fst (map_to_list (files w)))) ∅).
  { unfold Posts.existing_posts_by_date in Hrun. injection Hrun as <- _. by eexists. }
  destruct Hout as (out & -> & Hout).
  destruct (existing_posts_by_date_elem w w' out Hrun) as [-> Helem].
  exists out. split; [reflexivity|]. split; [exact Helem|]. split.
  { intros day name Hshape. rewrite Helem, is_post_for_spec. tauto. }
  rewrite Hout. split.
  - intros day. split.
    + apply fold_add_post_keys. intros d. rewrite lookup_empty. by intros [? ?].
    + unfold posts_of. destruct (_ !! day) as [l|]; [by eexists | done].
  - apply fold_add_post_nodup.
    + apply NoDup_filter, NoDup_fst_map_to_list.
    + intros d. unfold posts_of. rewrite lookup_empty. apply NoDup_nil_2.
    + intros d x. unfold posts_of. rewrite lookup_empty. cbn [default].
      by rewrite elem_of_nil.
Qed.

End PostsByDate.

(** ** The summary of the single-date prompt *)















(** ** The stack hints of the batch prompt *)

Lemma assoc_get_overridden (name : str) :
  match Hints.assoc_get Hints.PROJECT_STACK_OVERRIDES name with
  | Some correction => overridden name /\ correction <> []
  | None => ~ overridden name
  end.
Proof.
  unfold overridden, Hints.PROJECT_STACK_OVERRIDES.
  cbn [Hints.assoc_get map fst].
  destruct (decide (py "AustinsElite (Legacy)" = name)) as [<-|H1].
  { split; [by left | discriminate]. }
  destruct (decide (py "AustinsElite (Next.js)" = name)) as [<-|H2].
  { split; [right; by left | discriminate]. }
  rewrite !elem_of_cons, elem_of_nil. intros [-> | [-> | []]]; done.
Qed.

(** The hints of a list of names: a line for each that has a correction. *)
Lemma stack_hints_names (names : list str) :
  exists hints,
    Hints.stack_hints (map JStr names) = Ok hints
    /\ (forall line, line ∈ hints
          <-> exists name correction,
                name ∈ names
                /\ Hints.assoc_get Hints.PROJECT_STACK_OVERRIDES name = Some correction
                /\ line = Hints.hint_line name correction)
    /\ (hints = [] <-> Forall (fun name => ~ overridden name) names).
Proof.
  induction names as [|name names (hints & Hrun & Hlines & Hnil)].
  - exists []. split; [reflexivity|]. split.
    + intros line. rewrite elem_of_nil. split; [done|].
      intros (name & c & Hin & _). by apply elem_of_nil in Hin.
    + split; [constructor | done].
  - cbn [map Hints.stack_hints Hints.correction_of bind_result]. rewrite Hrun.
    cbn [bind_result].
    pose proof (assoc_get_overridden name) as Hname.
    destruct (Hints.assoc_get Hints.PROJECT_STACK_OVERRIDES name) as [c|] eqn:Ec.
    + destruct Hname as [Hov Hc]. destruct c as [|x c]; [done|]. cbn [is_nil].
      eexists. split; [reflexivity|]. split.
      * intros line. rewrite elem_of_cons, Hlines. split.
        -- intros [-> | (n & c' & Hin & Hget & ->)].
           ++ exists name, (x :: c). split; [by left | done].
           ++ exists n, c'. split; [by right | done].
        -- intros (n & c' & Hin & Hget & ->). apply elem_of_cons in Hin as [-> | Hin].
           ++ left. rewrite Ec in Hget. by injection Hget as <-.
           ++ right. by exists n, c'.
      * split; [discriminate|]. intros Hall. apply Forall_cons in Hall as [Hno _]. done.
    + exists hints. split; [reflexivity|]. split.
      * intros line. rewrite Hlines. split.
        -- intros (n & c' & Hin & Hget & ->). exists n, c'. split; [by right | done].
        -- intros (n & c' & Hin & Hget & ->). apply elem_of_cons in Hin as [-> | Hin].
           ++ rewrite Ec in Hget. discriminate.
           ++ by exists n, c'.
      * rewrite Hnil, Forall_cons. tauto.
Qed.

Lemma join_lines_not_no_overrides (hints : list str) :
  (forall line, line ∈ hints -> exists rest, line = py "- " ++ rest) ->
  hints <> [] ->
  join [10%N] hints <> Hints.no_overrides /\ join [10%N] hints <> [].
Proof.
  intros Hlines Hne. destruct hints as [|line hints]; [done|].
  destruct (Hlines line) as [rest ->]; [by left|].
  destruct hints; cbn; split; discriminate.
Qed.

(** X20. For a day whose projects are a list of names, [build_stack_hints]
    returns a text that is never empty; it looks at the first twelve projects
    only; the text is the fixed sentence that there are no overrides exactly
    when none of these twelve has a correction, and otherwise it is made of
    one line for each of them that has one, the line naming the project and
    its correction. *)
Theorem stack_hints_cover_the_first_twelve_projects
    (day_data : list (str * json)) (projects : list str) :
  dict_get (py "projects") day_data = Some (JArr (map JStr projects)) ->
  exists (text : str) (hints : list str),
    Hints.build_stack_hints day_data = Ok text
    /\ text <> []
    /\ (text = Hints.no_overrides
        <-> Forall (fun name => ~ overridden name) (take 12 projects))
    /\ (text <> Hints.no_overrides -> text = join [10%N] hints)
    /\ (forall line, line ∈ hints
          <-> exists name correction,
                name ∈ take 12 projects
                /\ Hints.assoc_get Hints.PROJECT_STACK_OVERRIDES name = Some correction
                /\ line = Hints.hint_line name correction).
Proof.
  intros Hprojects. unfold Hints.build_stack_hints, Hints.first_projects.
  rewrite Hprojects. cbn [bind_result]. rewrite <- fmap_take.
  destruct (stack_hints_names (take 12 projects)) as (hints & Hrun & Hlines & Hnil).
  change (JStr <$> take 12 projects) with (map JStr (take 12 projects)).
  rewrite Hrun. cbn [bind_result]. eexists _, hints. split; [reflexivity|].
  destruct hints as [|line hints]; cbn [is_nil].
  - split; [discriminate|]. split; [|split; [done | exact Hlines]].
    split; [intros _; by apply Hnil | done].
  - destruct (join_lines_not_no_overrides (line :: hints)) as [Hno Hne]; [|done|].
    { intros l Hl. apply Hlines in Hl as (n & c & _ & _ & ->).
      by exists (n ++ py ": " ++ c). }
    split; [done|]. split; [|split; [done | exact Hlines]].
    split; [done|]. intros Hall. apply Hnil in Hall. discriminate.
Qed.

Lemma stack_hints_cover_the_first_twelve_projects_witness :
  exists (text : str) (hints : list str),
    Hints.build_stack_hints [(py "projects", JArr (map JStr sample_projects))] = Ok text
    /\ text <> []
    /\ (text = Hints.no_overrides
        <-> Forall (fun name => ~ overridden name) (take 12 sample_projects))
    /\ (text <> Hints.no_overrides -> text = join [10%N] hints)
    /\ (forall line, line ∈ hints
          <-> exists name correction,
                name ∈ take 12 sample_projects
                /\ Hints.assoc_get Hints.PROJECT_STACK_OVERRIDES name = Some correction
                /\ line = Hints.hint_line name correction).
Proof.
  apply (stack_hints_cover_the_first_twelve_projects
           [(py "projects", JArr (map JStr sample_projects))] sample_projects).
  reflexivity.
Defined.

(** ** The Response Decoder: what is around the object *)

Lemma rfind_none_iff (c : N) (s : str) :
  rfind c s = None <-> Forall (fun d => d <> c) s.
Proof.
  induction s as [|d s IH]; cbn [rfind]; [split; [constructor | done]|].
  rewrite Forall_cons, <- IH. destruct (rfind c s) as [i|].
  - split; [discriminate | by intros [_ ?]].
  - destruct (N.eqb_spec d c) as [->|Hne]; split; try done; by intros [? _].
Qed.

Lemma rfind_app_stop (c : N) (x a : str) :
  rfind c a = None -> rfind c (x ++ c :: a) = Some (length x).
Proof.
  intros Ha. induction x as [|d x IH]; cbn [app rfind length].
  - by rewrite Ha, N.eqb_refl.
  - by rewrite IH.
Qed.

Lemma drop_while_end_app_stop {A} (p : A -> bool) (s : list A) (c : A) (a : list A) :
  p c = false -> drop_while_end p (s ++ c :: a) = s ++ c :: drop_while_end p a.
Proof.
  intros Hc. induction s as [|d s IH]; cbn [app drop_while_end].
  - by rewrite Hc.
  - rewrite IH. destruct s; cbn [app is_nil]; by rewrite andb_false_r.
Qed.

(** Trimming does not reach the object. *)
Lemma strip_around (q mid a : str) :
  strip (q ++ lbrace :: mid ++ rbrace :: a)
  = drop_while is_space q ++ lbrace :: mid ++ rbrace :: drop_while_end is_space a.
Proof.
  unfold strip, strip_by. rewrite drop_while_app_stop by reflexivity.
  change (drop_while is_space q ++ lbrace :: mid ++ rbrace :: a)
    with (drop_while is_space q ++ (lbrace :: mid) ++ rbrace :: a).
  rewrite app_assoc, drop_while_end_app_stop by reflexivity.
  by rewrite <- app_assoc.
Qed.

Lemma rfind_drop_while_end_none (c : N) (p : N -> bool) (a : str) :
  rfind c a = None -> rfind c (drop_while_end p a) = None.
Proof.
  rewrite !rfind_none_iff. intros Ha.
  destruct (drop_while_end_prefix p a) as [k ->]. by apply Forall_take.
Qed.

Lemma sub_fence_open_around (q rest : str) :
  find lbrace q = None ->
  exists q', sub_fence_open (q ++ lbrace :: rest) = q' ++ lbrace :: rest
             /\ find lbrace q' = None.
Proof.
  intros Hq. unfold sub_fence_open.
  destruct (starts_with fence _) eqn:Ef; [|by exists q].
  apply starts_with_prefixed in Ef as [q1 ->]; [|by repeat constructor].
  rewrite <- app_assoc. change (drop 3 (fence ++ ?s)) with s.
  assert (Hq1 : find lbrace q1 = None) by (by apply (find_drop_none _ 3) in Hq).
  destruct (starts_with (py "json") _) eqn:Ej; [|by exists q1].
  apply starts_with_prefixed in Ej as [q2 ->]; [|by repeat constructor].
  rewrite <- app_assoc. change (drop 4 (py "json" ++ ?s)) with s.
  exists q2. split; [done|]. by apply (find_drop_none _ 4) in Hq1.
Qed.

Lemma sub_fence_close_cons (c : N) (r : str) :
  sub_fence_close (c :: r)
  = if decide (c :: r = fence) then []
    else if decide (c :: r = fence ++ [10%N]) then [10%N]
    else c :: sub_fence_close r.
Proof. reflexivity. Qed.

(** The closing fence is looked for after the last closing brace only. *)
Lemma sub_fence_close_around (x a : str) :
  sub_fence_close (x ++ rbrace :: a) = x ++ rbrace :: sub_fence_close a.
Proof.
  assert (Hnot : forall s, rbrace ∈ s -> s <> fence /\ s <> fence ++ [10%N]).
  { intros s Hin. split; intros ->; vm_compute in Hin;
      repeat (apply elem_of_cons in Hin as [Hin|Hin]; [discriminate|]);
      by apply elem_of_nil in Hin. }
  induction x as [|c x IH]; cbn [app]; rewrite sub_fence_close_cons.
  - destruct (Hnot (rbrace :: a)) as [H1 H2]; [by left|].
    destruct (decide (rbrace :: a = fence)) as [E|_]; [done|].
    by destruct (decide (rbrace :: a = fence ++ [10%N])) as [E|_].
  - destruct (Hnot (c :: x ++ rbrace :: a)) as [H1 H2].
    { right. apply elem_of_app. right. by left. }
    destruct (decide (c :: x ++ rbrace :: a = fence)) as [E|_]; [done|].
    destruct (decide (c :: x ++ rbrace :: a = fence ++ [10%N])) as [E|_]; [done|].
    by rewrite IH.
Qed.

Lemma rfind_sub_fence_close_none (c : N) (a : str) :
  rfind c a = None -> rfind c (sub_fence_close a) = None.
Proof.
  rewrite !rfind_none_iff. induction 1 as [|d a Hd Ha IH]; [constructor|].
  rewrite sub_fence_close_cons.
  destruct (decide (d :: a = fence)) as [_|_]; [constructor|].
  destruct (decide (d :: a = fence ++ [10%N])) as [E|_]; [|by constructor].
  change (fence ++ [10%N]) with [96%N; 96%N; 96%N; 10%N] in E. injection E as -> ->.
  apply Forall_cons in Ha as [_ Ha]. apply Forall_cons in Ha as [_ Ha].
  apply Forall_cons in Ha as [Ha _]. by repeat constructor.
Qed.

Lemma slice_braces_around (q mid a : str) :
  find lbrace q = None -> rfind rbrace a = None ->
  slice_braces (q ++ lbrace :: mid ++ rbrace :: a) = lbrace :: mid ++ [rbrace].
Proof.
  intros Hq Ha. unfold slice_braces.
  rewrite (find_app_none _ _ _ Hq).
  change (q ++ lbrace :: mid ++ rbrace :: a) with (q ++ (lbrace :: mid) ++ rbrace :: a).
  rewrite app_assoc, (rfind_app_stop _ _ _ Ha), length_app. cbn [length].
  destruct (Nat.ltb_spec (length q) (length q + S (length mid))) as [_|Hge]; [|lia].
  rewrite <- app_assoc, drop_app_length.
  replace (S (length q + S (length mid)) - length q)%nat
    with (length ((lbrace :: mid) ++ [rbrace])) by (rewrite length_app; simpl; lia).
  change ((lbrace :: mid) ++ rbrace :: a) with ((lbrace :: mid) ++ [rbrace] ++ a).
  rewrite app_assoc, take_app_length. reflexivity.
Qed.

(** Whatever stands before the first opening brace and after the last closing
    brace, the parser is given the text between them. *)
Lemma candidate_of_around (before mid after : str) :
  find lbrace before = None -> rfind rbrace after = None ->
  candidate_of (before ++ lbrace :: mid ++ rbrace :: after) = lbrace :: mid ++ [rbrace].
Proof.
  intros Hq Ha. unfold candidate_of. rewrite strip_around.
  pose proof (find_drop_while_none lbrace is_space before Hq) as Hq1.
  pose proof (rfind_drop_while_end_none rbrace is_space after Ha) as Ha1.
  destruct (starts_with fence _); [|by apply slice_braces_around].
  destruct (sub_fence_open_around _ (mid ++ rbrace :: drop_while_end is_space after) Hq1)
    as (q2 & -> & Hq2).
  rewrite strip_around.
  change (drop_while is_space q2 ++ lbrace :: mid ++ rbrace :: ?t)
    with (drop_while is_space q2 ++ (lbrace :: mid) ++ rbrace :: t).
  rewrite app_assoc, sub_fence_close_around, <- app_assoc. cbn [app].
  rewrite strip_around.
  apply slice_braces_around.
  - by do 2 apply find_drop_while_none.
  - by apply rfind_drop_while_end_none, rfind_sub_fence_close_none,
      rfind_drop_while_end_none.
Qed.

(** X21. The decoder looks at nothing but the text from the first opening
    brace to the last closing brace: with any text in front that holds no
    opening brace and any text behind that holds no closing brace (prose,
    white space, fence markers), it returns what it returns for the text of
    the object alone, be it a value or an error. *)
Theorem decoder_ignores_what_is_around_the_object (before mid after : str) :
  find lbrace before = None ->
  rfind rbrace after = None ->
  parse_json_response (before ++ lbrace :: mid ++ rbrace :: after)
  = parse_json_response (lbrace :: mid ++ [rbrace]).
Proof.
  intros Hbefore Hafter. unfold parse_json_response.
  by rewrite (candidate_of_around before mid after Hbefore Hafter), candidate_of_braced.
Qed.

Lemma decoder_ignores_what_is_around_the_object_witness :
  parse_json_response
    (py "Sure, here is the post:" ++ [10%N] ++ lbrace :: pyq "'title': 'T'"
     ++ rbrace :: [10%N] ++ py "Hope this helps.")
  = parse_json_response (lbrace :: pyq "'title': 'T'" ++ [rbrace]).
Proof.
  apply (decoder_ignores_what_is_around_the_object
           (py "Sure, here is the post:" ++ [10%N]) (pyq "'title': 'T'")
           ([10%N] ++ py "Hope this helps.")).
  - reflexivity.
  - reflexivity.
Defined.

(** ** The work list, as main computes it *)

Lemma str_ge_antisym : AntiSymm eq str_ge.
Proof. intros a b Hab Hba. by apply str_ltb_trichotomy. Qed.

(** Sorting gives one result for all the orders in which distinct keys come. *)
Lemma sorted_reverse_perm (l1 l2 : list str) :
  l1 ≡ₚ l2 -> sorted_reverse l1 = sorted_reverse l2.
Proof.
  intros Hperm. unfold sorted_reverse.
  apply (@StronglySorted_unique _ str_ge str_ge_antisym).
  - apply (StronglySorted_merge_sort str_ge).
  - apply (StronglySorted_merge_sort str_ge).
  - by rewrite !merge_sort_Permutation.
Qed.

Lemma dict_get_as_objects (days : list (str * list (str * json))) (day : str) :
  dict_get day (as_objects days)
  = JObj <$> (list_to_map days : gmap str (list (str * json))) !! day.
Proof.
  induction days as [|[d dd] days IH]; [reflexivity|].
  cbn [as_objects map dict_get list_to_map foldr uncurry].
  destruct (decide (d = day)) as [->|Hne].
  - by rewrite lookup_insert_eq.
  - rewrite lookup_insert_ne by done. exact IH.
Qed.

Section IdeasProofs.
Context `{Runtime}.

(** On days that are keys, the loop of [main] keeps what the selector keeps. *)
Lemma ideas_collect_targets (days : list (str * list (str * json)))
    (existing : gmap str (list str)) (args : Batch.Namespace) (keys : list str) :
  Forall (fun day => is_Some ((list_to_map days : gmap str (list (str * json))) !! day))
    keys ->
  Ideas.collect_targets (as_objects days) existing args keys
  = Ok (as_objects (Batch.collect_targets (list_to_map days) existing args keys)).
Proof.
  induction 1 as [|day keys [dd Hday] _ IH]; [reflexivity|].
  cbn [Ideas.collect_targets Batch.collect_targets].
  rewrite dict_get_as_objects, Hday, IH. cbn [fmap option_fmap option_map bind_result].
  destruct (negb (is_nil (Batch.from_date args)) && str_ltb day (Batch.from_date args));
    [reflexivity|].
  destruct (negb (is_nil (Batch.to_date args)) && str_ltb (Batch.to_date args) day);
    [reflexivity|].
  destruct (truthy_get (py "error") dd); [reflexivity|].
  destruct (negb (truthy_get (py "ideas") dd)); [reflexivity|].
  destruct (bool_decide (is_Some (existing !! day)) && negb (Batch.overwrite args));
    reflexivity.
Qed.

(** X22. What [main] of the batch flow computes from the ideas file is the
    work list of the Target Selector: when the file decodes to an object whose
    [daily] member is an object with at least one day, every day's record
    being an object itself, the targets are those the selector yields for
    these records, in its order and with its cap. *)
Theorem main_targets_are_the_selected_targets
    (ideas_path text : str) (members : list (str * json))
    (days : list (str * list (str * json)))
    (existing : gmap str (list str)) (args : Batch.Namespace) :
  json_loads text = Ok (JObj members) ->
  dict_get (py "daily") members = Some (JObj (as_objects days)) ->
  days <> [] ->
  NoDup (map fst days) ->
  Ideas.targets_of_file ideas_path (Some text) existing args
  = Ok (as_objects (Batch.select_targets (list_to_map days) existing args)).
Proof.
  intros Hloads Hdaily Hne Hnd. unfold Ideas.targets_of_file, Batch.select_targets.
  rewrite Hloads. cbn [bind_result]. rewrite Hdaily. cbn [default from_option id].
  assert (Hnil : is_nil (as_objects days) = false) by (by destruct days).
  rewrite Hnil.
  assert (Hkeys : map fst (as_objects days)
                  ≡ₚ map fst (map_to_list (list_to_map days : gmap str (list (str * json))))).
  { rewrite (map_to_list_to_map days Hnd). unfold as_objects. rewrite map_map.
    erewrite map_ext; [reflexivity|]. by intros [day dd]. }
  rewrite (sorted_reverse_perm _ _ Hkeys).
  rewrite ideas_collect_targets.
  - cbn [bind_result]. destruct (0 <? Batch.limit args)%Z; [|reflexivity].
    unfold as_objects. by rewrite <- fmap_take.
  - apply Forall_forall. intros day Hday.
    unfold sorted_reverse in Hday. rewrite merge_sort_Permutation in Hday.
    apply list_elem_of_fmap in Hday as ([day' dd] & -> & Hin).
    apply elem_of_map_to_list in Hin. by exists dd.
Qed.

End IdeasProofs.

Lemma main_targets_are_the_selected_targets_witness :
  @Ideas.targets_of_file ascii_runtime (py "ideas.json") (Some sample_ideas) ∅
    (sample_batch_args false)
  = Ok (as_objects
          (@Batch.select_targets ascii_runtime
             (list_to_map [ (py "2026-02-18", [(py "ideas", JArr [JInt 1])]);
                            (py "2026-02-19", [(py "ideas", JArr [JInt 2])]) ])
             ∅ (sample_batch_args false))).
Proof.
  apply (@main_targets_are_the_selected_targets ascii_runtime (py "ideas.json") sample_ideas
           [(py "daily",
             JObj (as_objects [ (py "2026-02-18", [(py "ideas", JArr [JInt 1])]);
                                (py "2026-02-19", [(py "ideas", JArr [JInt 2])]) ]))]
           [ (py "2026-02-18", [(py "ideas", JArr [JInt 1])]);
             (py "2026-02-19", [(py "ideas", JArr [JInt 2])]) ]
           ∅ (sample_batch_args false)).
  - vm_compute. reflexivity.
  - reflexivity.
  - discriminate.
  - apply (bool_decide_unpack _). vm_compute. exact I.
Defined.

(** ** slugify on a slug *)

Lemma slug_char_not_space (c : N) :
  is_slug_char c || is_hyphen c = true -> is_space c = false.
Proof.
  intros Hc.
  assert (Hrange : (45 <= c <= 122)%N).
  { unfold is_slug_char, is_hyphen, hyphen in Hc.
    rewrite !orb_true_iff, !andb_true_iff, !N.leb_le, N.eqb_eq in Hc. lia. }
  unfold is_space.
  assert (H1 : (c <=? 13)%N = false) by (apply N.leb_gt; lia).
  assert (H2 : (c <=? 32)%N = false) by (apply N.leb_gt; lia).
  assert (H3 : (8192 <=? c)%N = false) by (apply N.leb_gt; lia).
  assert (Hne : forall n, (122 < n)%N -> (c =? n)%N = false).
  { intros n Hn. apply N.eqb_neq. lia. }
  rewrite H1, H2, H3, !Hne by lia. by rewrite !andb_false_r.
Qed.

Lemma drop_while_end_fixed {A} (p : A -> bool) (s : list A) :
  (forall c, last s = Some c -> p c = false) -> drop_while_end p s = s.
Proof.
  intros Hlast. destruct s as [|c s] using rev_ind; [reflexivity|].
  apply drop_while_end_snoc_false, Hlast. by rewrite last_snoc.
Qed.

Lemma strip_by_fixed (p : N -> bool) (s : str) :
  (forall c, head s = Some c -> p c = false) ->
  (forall c, last s = Some c -> p c = false) ->
  strip_by p s = s.
Proof.
  intros Hhead Hlast. unfold strip_by.
  assert (Hdrop : drop_while p s = s).
  { destruct s as [|c s]; [reflexivity|]. cbn [drop_while]. by rewrite Hhead. }
  rewrite Hdrop. by apply drop_while_end_fixed.
Qed.

Lemma sub_non_alnum_runs_fixed (s : str) :
  forall in_run : bool,
    forallb (fun c => is_slug_char c || is_hyphen c) s = true ->
    no_adjacent_hyphens s = true ->
    (in_run = true -> starts_with_hyphen s = false) ->
    sub_non_alnum_runs in_run s = s.
Proof.
  induction s as [|c s IH]; intros in_run Hchars Hadj Hstart; [reflexivity|].
  cbn [forallb] in Hchars. apply andb_true_iff in Hchars as [Hc Hchars].
  pose proof (no_adjacent_hyphens_tail _ _ Hadj) as Hadj'.
  cbn [sub_non_alnum_runs]. destruct (is_slug_char c) eqn:Ec.
  - f_equal. apply IH; [done | done | discriminate].
  - cbn [orb] in Hc. destruct in_run.
    + specialize (Hstart eq_refl). cbn [starts_with_hyphen] in Hstart. congruence.
    + pose proof Hc as Hh. apply N.eqb_eq in Hh. rewrite <- Hh. f_equal.
      apply IH; [done | done |]. intros _.
      destruct s as [|d s]; [reflexivity|]. cbn [no_adjacent_hyphens] in Hadj.
      rewrite Hc in Hadj. cbn [starts_with_hyphen].
      destruct (is_hyphen d); [discriminate | reflexivity].
Qed.

Lemma Forall_head_last {A} (P : A -> Prop) (s : list A) :
  Forall P s ->
  (forall c, head s = Some c -> P c) /\ (forall c, last s = Some c -> P c).
Proof.
  intros Hs. rewrite Forall_forall in Hs. split; intros c Hc; apply Hs.
  - destruct s; [discriminate|]. injection Hc as ->. by left.
  - destruct s as [|d s] using rev_ind; [discriminate|].
    rewrite last_snoc in Hc. injection Hc as ->. apply elem_of_app. right. by left.
Qed.

(** X23. A slug that does not end with a hyphen is a fixed point of [slugify]
    (where lower-casing leaves it as it is, as it does a text of lower-case
    letters, digits and hyphens): the slug of a file name gives the same file
    name again. *)
Theorem slugify_keeps_a_slug `{Runtime} (s : str) :
  slug_ok s = true ->
  last s <> Some hyphen ->
  str_lower s = s ->
  slugify s = s.
Proof.
  unfold slug_ok. rewrite !andb_true_iff, !negb_true_iff, Nat.leb_le.
  intros [[[[Hnil Hlen] Hchars] Hstart] Hadj] Hlast Hlower.
  unfold slugify, slug_of_lowered. rewrite Hlower.
  assert (Hall : Forall (fun c => is_slug_char c || is_hyphen c = true) s).
  { apply Forall_forall. intros c Hc. rewrite forallb_forall in Hchars.
    apply Hchars. by apply list_elem_of_In. }
  assert (Hstrip : strip s = s).
  { destruct (Forall_head_last _ s Hall) as [Hh Hl].
    apply strip_by_fixed; intros c Hc; apply slug_char_not_space; auto. }
  rewrite Hstrip, (sub_non_alnum_runs_fixed s false Hchars Hadj) by discriminate.
  rewrite strip_by_fixed.
  - rewrite take_ge by lia. unfold or_else. by rewrite Hnil.
  - intros c Hc. destruct s as [|d s]; [discriminate|]. injection Hc as ->.
    exact Hstart.
  - intros c Hc. destruct (is_hyphen c) eqn:E; [|reflexivity].
    apply N.eqb_eq in E. subst c. done.
Qed.

Lemma slugify_keeps_a_slug_witness :
  @slugify ascii_runtime (py "daily-recap-2026") = py "daily-recap-2026".
Proof.
  apply (@slugify_keeps_a_slug ascii_runtime (py "daily-recap-2026")).
  - reflexivity.
  - discriminate.
  - reflexivity.
Defined.

(** ** The units of work, once more *)

Lemma first_completion_trimmed (body raw : str) :
  first_completion body = Ok raw -> trimmed raw.
Proof.
  unfold first_completion, trimmed.
  destruct (json_loads body) as [data|e]; [|discriminate]. cbn [bind_result].
  destruct (getitem_key (py "choices") data) as [choices|e]; [|discriminate].
  cbn [bind_result].
  destruct (getitem_0 choices) as [choice|e]; [|discriminate]. cbn [bind_result].
  destruct (getitem_key (py "message") choice) as [message|e]; [|discriminate].
  cbn [bind_result].
  destruct (getitem_key (py "content") message) as [content|e]; [|discriminate].
  cbn [bind_result].
  destruct content as [|b|n|x|s|l|d]; try discriminate. cbn [strip_method].
  intros [= <-]. apply strip_idem.
Qed.

(** X24. A call of the client that returns has received a reply, at its first
    attempt or after retryable failures only, five at most: what it returns is
    the content of the first completion of this reply, and it has no white
    space around it. *)
Theorem returned_completion_is_trimmed
    (f : flow) (prompt model api_key : str) (w w' : world) (raw : str) :
  call_openrouter_of f prompt model api_key w = (Ok raw, w') ->
  trimmed raw
  /\ exists (k : nat) (body : str),
       (k <= 5)%nat
       /\ (forall i, (i < k)%nat ->
             retryable_failure f (replies w (requests w + i)) = true)
       /\ replies w (requests w + k) = HttpReply body
       /\ first_completion body = Ok raw
       /\ w' = advance (S k) (retry_trace (request_of f prompt model api_key) 0 (S k)) w.
Proof.
  rewrite call_openrouter_of_loop. intros Hrun.
  destruct (first_final_outcome f w 6) as [Hall | (k & Hk & Hfinal & Hbefore)].
  { destruct (attempt_loop_all_fail f (request_of f prompt model api_key) 5 0 w)
      as [e [_ Hraise]]; [lia | intros i Hi; apply Hall; lia |].
    rewrite Hraise in Hrun. discriminate. }
  replace 6%nat with (S k + (5 - k))%nat in Hrun by lia.
  rewrite (attempt_loop_stops f _ k 0 (5 - k) w) in Hrun; [|lia|done|done].
  injection Hrun as Hresult <-.
  destruct (replies w (requests w + k)) as [body|code body|reason] eqn:Ereply;
    cbn [outcome_result] in Hresult; [|discriminate..].
  split; [by eapply first_completion_trimmed|].
  exists k, body. split; [lia|]. by repeat split.
Qed.

Lemma returned_completion_is_trimmed_witness :
  trimmed (pyq "{'title': 'Recap', 'content': 'Body'}")
  /\ exists (k : nat) (body : str),
       (k <= 5)%nat
       /\ (forall i, (i < k)%nat ->
             retryable_failure BatchFlow
               (replies (publish_world ∅ sample_completion)
                  (requests (publish_world ∅ sample_completion) + i)) = true)
       /\ replies (publish_world ∅ sample_completion)
            (requests (publish_world ∅ sample_completion) + k) = HttpReply body
       /\ first_completion body = Ok (pyq "{'title': 'Recap', 'content': 'Body'}")
       /\ snd (call_openrouter_of BatchFlow (py "prompt") (py "model") (py "key")
                 (publish_world ∅ sample_completion))
          = advance (S k)
              (retry_trace (request_of BatchFlow (py "prompt") (py "model") (py "key"))
                 0 (S k))
              (publish_world ∅ sample_completion).
Proof.
  apply (returned_completion_is_trimmed BatchFlow (py "prompt") (py "model") (py "key")
           (publish_world ∅ sample_completion)).
  vm_compute. reflexivity.
Defined.

Section FlowsAgain.
Context `{Runtime}.

(** X25. Without overwrite, a unit of work of the batch flow deletes nothing:
    when it fails (the call, the decoding or the validation) the blog
    directory is as it was, and when it returns the directory has changed by
    the one file it wrote; the events are those of the exchange with the
    service and, at the end, that write. *)
Theorem without_overwrite_a_failed_day_changes_nothing
    (day : str) (day_data : list (str * json)) (args : Batch.Namespace)
    (api_key : str) (existing_for_day : list str) (w w' : world) (r : result str) :
  Batch.overwrite args = false ->
  Batch.generate_one_post day day_data args api_key existing_for_day w = (r, w') ->
  exists evs,
    trace w' = trace w ++ evs
    /\ Forall (fun ev => ~ is_unlink_event ev) evs
    /\ match r with
       | Raise _ => files w' = files w /\ Forall is_net_event evs
       | Ok name => exists doc, files w' = <[name := doc]> (files w)
                                /\ last evs = Some (EvWrite name doc)
       end.
Proof.
  intros Hov. unfold Batch.generate_one_post. rewrite Hov. cbn [andb].
  unfold bind at 1, ret at 1. unfold bind at 1.
  destruct (Batch.call_openrouter _ _ _ w) as [raw w1] eqn:Hcall.
  unfold Batch.call_openrouter in Hcall.
  apply attempt_loop_frame in Hcall as (Hf1 & _ & evs1 & Ht1 & Hevs1).
  assert (Hnet : Forall (fun ev => ~ is_unlink_event ev) evs1).
  { eapply Forall_impl; [exact Hevs1|]. intros ev Hev Hun. by destruct ev. }
  assert (Hfail : forall e, exists evs,
            trace w1 = trace w ++ evs
            /\ Forall (fun ev => ~ is_unlink_event ev) evs
            /\ match Raise e with
               | Raise _ => files w1 = files w /\ Forall is_net_event evs
               | Ok name => exists doc, files w1 = <[name := doc]> (files w)
                                        /\ last evs = Some (EvWrite name doc)
               end).
  { intros e. by exists evs1. }
  destruct raw as [raw|e]; [|intros [= <- <-]; apply (Hfail e)].
  unfold bind at 1, lift at 1.
  destruct (parse_json_response raw) as [parsed|e]; [|intros [= <- <-]; apply (Hfail e)].
  destruct (batch_persist_reply_cases day args parsed w1)
    as [[e He] | (path & body & Hw)].
  - rewrite He. intros [= <- <-]. apply (Hfail e).
  - rewrite Hw. intros [= <- <-]. exists (evs1 ++ [EvWrite path body]).
    split; [cbn [set_files log trace]; by rewrite Ht1, <- app_assoc|].
    split; [apply Forall_app; split; [done | constructor; [simpl; tauto | constructor]]|].
    exists body. split; [cbn [set_files log files]; by rewrite Hf1|].
    by rewrite last_snoc.
Qed.

(** X26. A decoded reply that is not an object (a list, a string, a number,
    a boolean or null) is never persisted: in either flow the unit of work
    raises [AttributeError] and the world is as it was. *)
Theorem reply_that_is_no_object_is_not_persisted
    (parsed : json) (w : world) (day : str) (batch_args : Batch.Namespace)
    (existing : option str) (publish_args : Publish.Namespace) :
  (forall members, parsed <> JObj members) ->
  Batch.persist_reply day batch_args parsed w = (Raise AttributeError, w)
  /\ Publish.persist_reply existing publish_args parsed w = (Raise AttributeError, w).
Proof.
  intros Hno. destruct parsed as [|b|n|x|s|l|d]; try (split; reflexivity).
  by destruct (Hno d).
Qed.

(** X27. Without overwrite, the batch flow never targets a day that has a
    post: when the selector works with the posts that
    [existing_posts_by_date] found, no post is listed for a day of the work
    list and no file of the blog directory is named after it. *)
Theorem no_target_has_a_post
    (is_decimal : N -> bool) (daily : gmap str (list (str * json)))
    (args : Batch.Namespace) (w w' : world) (out : gmap str (list str))
    (day : str) (day_data : list (str * json)) :
  Posts.existing_posts_by_date is_decimal w = (Ok out, w') ->
  Batch.overwrite args = false ->
  (day, day_data) ∈ Batch.select_targets daily out args ->
  date_shaped is_decimal day = true ->
  posts_of out day = []
  /\ forall name, is_Some (files w !! name) -> ~ post_name day name.
Proof.
  intros Hposts Hov Htarget Hshape.
  assert (Hnone : forall name, is_Some (files w !! name) -> ~ post_name day name);
    [|split; [|exact Hnone]].
  2:{ apply existing_posts_by_date_elem in Hposts as [_ Helem].
      destruct (posts_of out day) as [|name names] eqn:E; [reflexivity|].
      assert (Hin : name ∈ posts_of out day) by (rewrite E; by left).
      apply Helem in Hin as (_ & Hfile & Hname). by destruct (Hnone name). }
  intros name Hfile Hname.
  apply existing_posts_by_date_elem in Hposts as [_ Helem].
  assert (Hin : (day, day_data)
                ∈ Batch.collect_targets daily out args
                    (sorted_reverse (map fst (map_to_list daily)))).
  { unfold Batch.select_targets in Htarget.
    destruct (0 <? Batch.limit args)%Z; [|done]. by eapply subseteq_take. }
  apply collect_targets_elem in Hin as (_ & _ & Heligible).
  unfold eligible in Heligible. rewrite Hov, orb_false_r in Heligible.
  apply andb_true_iff in Heligible as [_ Hnone].
  apply negb_true_iff, bool_decide_eq_false in Hnone.
  assert (Hlisted : name ∈ posts_of out day) by (by apply Helem).
  unfold posts_of in Hlisted.
  destruct (out !! day) as [names|]; [by destruct Hnone; eexists|].
  by apply elem_of_nil in Hlisted.
Qed.

End FlowsAgain.

Lemma without_overwrite_a_failed_day_changes_nothing_witness :
  exists evs,
    trace (snd sample_batch_run) = trace (publish_world ∅ sample_completion) ++ evs
    /\ Forall (fun ev => ~ is_unlink_event ev) evs
    /\ match fst sample_batch_run with
       | Raise _ => files (snd sample_batch_run) = files (publish_world ∅ sample_completion)
                    /\ Forall is_net_event evs
       | Ok name => exists doc,
                      files (snd sample_batch_run)
                      = <[name := doc]> (files (publish_world ∅ sample_completion))
                      /\ last evs = Some (EvWrite name doc)
       end.
Proof.
  apply (@without_overwrite_a_failed_day_changes_nothing ascii_runtime (py "2026-02-19") []
           (sample_batch_args false) (py "sk-test") []
           (publish_world ∅ sample_completion)).
  - reflexivity.
  - vm_compute. reflexivity.
Defined.

Lemma reply_that_is_no_object_is_not_persisted_witness :
  @Batch.persist_reply ascii_runtime (py "2026-02-19") (sample_batch_args false)
    (JArr [JStr (py "title")]) (publish_world ∅ [])
  = (Raise AttributeError, publish_world ∅ [])
  /\ @Publish.persist_reply ascii_runtime None (sample_publish_args false)
       (JArr [JStr (py "title")]) (publish_world ∅ [])
     = (Raise AttributeError, publish_world ∅ []).
Proof.
  apply (@reply_that_is_no_object_is_not_persisted ascii_runtime
           (JArr [JStr (py "title")]) (publish_world ∅ []) (py "2026-02-19")
           (sample_batch_args false) None (sample_publish_args false)).
  intros members. discriminate.
Defined.

Lemma no_target_has_a_post_witness :
  posts_of (∅ : gmap str (list str)) (py "2026-02-19") = []
  /\ forall name,
       is_Some (files (publish_world {[ py "notes.txt" := py "x" ]} []) !! name) ->
       ~ post_name (py "2026-02-19") name.
Proof.
  apply (@no_target_has_a_post ascii_runtime is_digit sample_daily (sample_batch_args false)
           (publish_world {[ py "notes.txt" := py "x" ]} [])
           (publish_world {[ py "notes.txt" := py "x" ]} []) ∅
           (py "2026-02-19") [(py "ideas", JArr [JInt 1])]).
  - vm_compute. reflexivity.
  - reflexivity.
  - vm_compute. left.
  - reflexivity.
Defined.
